(** * Baby Explorer: causality correlation between sensitive reads and requests

    A shallow embedding of the scanner's correlation engine:
    - [ResultAggregator]  (src/results/resultAggregator.ts), the ledger;
    - [InputMonitor]      (src/monitors/inputMonitor.ts), the hooks injected in
      the page: value getter, wrapped listeners, guarded context pop;
    - [RequestMonitor]    (src/monitors/requestMonitor.ts), the fetch and
      XMLHttpRequest wrappers, the URL-to-action Mapping Store and the host
      observers of request, response and requestfailed;
    - [Scan], the event loop that interleaves all of the above.

    JavaScript objects that are shared and mutated (a [Request] held both by
    [pendingRequests] and by the ledger) are modelled by their position in the
    ledger, which only ever grows. *)

From Stdlib Require Import ZArith QArith String Ascii DecimalString List Lia.
From Stdlib Require Import DecimalPos DecimalN DecimalZ.
From stdpp Require Import base option strings list gmap.

Close Scope Q_scope.
Local Open Scope string_scope.
Local Open Scope list_scope.
Local Open Scope nat_scope.

(** ** JavaScript library functions used by the source *)

Module Js.

(** [`${n}`] for an integral number: its decimal numeral. *)
Definition numeral (n : Z) : string := NilEmpty.string_of_int (Z.to_int n).

(** [s.split(sep)] for a one-character separator: never empty,
    [''.split('_')] is [['']]. *)
Fixpoint split_go (sep : ascii) (s cur : string) : list string :=
  match s with
  | EmptyString => [cur]
  | String c s' =>
      if Ascii.eqb c sep then cur :: split_go sep s' ""
      else split_go sep s' (cur ++ String c "")
  end.

Definition split (sep : ascii) (s : string) : list string := split_go sep s "".

(** [parseInt(s)] without radix: leading white space, an optional sign, an
    optional [0x] prefix, then the longest run of digits; [None] is NaN.
    The value is exact here, where JavaScript rounds beyond 2^53. *)
Definition is_white (c : ascii) : bool :=
  let n := N_of_ascii c in
  ((9 <=? n) && (n <=? 13) || (n =? 32))%N.

Fixpoint skip_white (s : string) : string :=
  match s with
  | String c s' => if is_white c then skip_white s' else s
  | EmptyString => s
  end.

Definition digit (radix : N) (c : ascii) : option N :=
  let n := N_of_ascii c in
  let v := if ((48 <=? n) && (n <=? 57))%N then Some (n - 48)%N
           else if ((97 <=? n) && (n <=? 122))%N then Some (n - 87)%N
           else if ((65 <=? n) && (n <=? 90))%N then Some (n - 55)%N
           else None in
  match v with
  | Some d => if (d <? radix)%N then Some d else None
  | None => None
  end.

Fixpoint digits (radix : N) (s : string) (acc : option N) : option N :=
  match s with
  | String c s' =>
      match digit radix c with
      | Some d => digits radix s' (Some (default 0%N acc * radix + d)%N)
      | None => acc
      end
  | EmptyString => acc
  end.

Definition parseInt (s : string) : option Z :=
  let s := skip_white s in
  let '(neg, s) :=
    match s with
    | String "-" s' => (true, s')
    | String "+" s' => (false, s')
    | _ => (false, s)
    end in
  let '(radix, s) :=
    match s with
    | String "0" (String "x" s') => (16%N, s')
    | String "0" (String "X" s') => (16%N, s')
    | _ => (10%N, s)
    end in
  match digits radix s None with
  | Some n => Some (if neg : bool then - Z.of_N n else Z.of_N n)%Z
  | None => None
  end.

(** [l.slice(-n)] for [n > 0]: the last [n] elements, all of [l] when it is
    shorter. *)
Definition slice_last {A} (n : nat) (l : list A) : list A :=
  drop (length l - n) l.

(** The numbers the linkage rate goes through: a quotient of two counts,
    times a constant.  Finite values are kept exact; rounding to a double
    is monotone and keeps 0 and 100, so the bounds proved on the exact
    value hold for the rounded one. *)
Inductive number :=
| NaN
| Infinity
| Finite (q : Q).

(** [a / b] for two array lengths. *)
Definition div_counts (a b : nat) : number :=
  match b with
  | O => match a with O => NaN | S _ => Infinity end
  | S _ => Finite (Z.of_nat a # Pos.of_nat b)
  end.

(** [x * k] for a positive integral constant [k]. *)
Definition times (x : number) (k : positive) : number :=
  match x with
  | NaN => NaN
  | Infinity => Infinity
  | Finite q => Finite (q * (Zpos k # 1))
  end.

(** A [Map<string, V>] keeps its keys in insertion order; [set] on a present
    key replaces the value where it stands. *)
Section Map.
Context {V : Type}.

Fixpoint map_get (k : string) (m : list (string * V)) : option V :=
  match m with
  | [] => None
  | (k', v) :: m' => if decide (k' = k) then Some v else map_get k m'
  end.

Definition map_has (k : string) (m : list (string * V)) : bool :=
  bool_decide (is_Some (map_get k m)).

Fixpoint map_set (k : string) (v : V) (m : list (string * V)) : list (string * V) :=
  match m with
  | [] => [(k, v)]
  | (k', v') :: m' =>
      if decide (k' = k) then (k, v) :: m' else (k', v') :: map_set k v m'
  end.
End Map.

End Js.

(** ** src/types/scanTypes.ts *)

Inductive PartType := html | js | css | image | font | other.

Record Action := mkAction {
  a_actionId : string;
  a_type : string;
  a_data : string }.

Record Part := mkPart {
  p_id : string;
  p_type : PartType;
  p_actions : list Action }.

Record Request := mkRequest {
  r_actionId : string;
  r_url : string;
  r_requestSource : string;
  r_method : string;
  r_status : Z }.

Record ExtraPage := mkExtraPage {
  e_url : string;
  e_parts : list Part;
  e_requests : list Request }.

Record ScanData := mkScanData {
  parts : list Part;
  requests : list Request;
  extraPages : list ExtraPage }.

(** ** src/results/resultAggregator.ts *)

Module ResultAggregator.

Record t := mk {
  scanData : ScanData;
  actionIdSet : gset string }.

Definition new : t :=
  {| scanData := {| parts := []; requests := []; extraPages := [] |};
     actionIdSet := ∅ |}.

Definition set_parts (ps : list Part) (d : ScanData) : ScanData :=
  {| parts := ps; requests := requests d; extraPages := extraPages d |}.

Definition set_requests (rs : list Request) (d : ScanData) : ScanData :=
  {| parts := parts d; requests := rs; extraPages := extraPages d |}.

Definition push_action (a : Action) (p : Part) : Part :=
  {| p_id := p_id p; p_type := p_type p; p_actions := p_actions p ++ [a] |}.

(** [parts.find(p => p.id === partId)]: position and value of the first
    part with that id. *)
Definition find_part (partId : string) (ps : list Part) : option (nat * Part) :=
  list_find (λ p, p_id p = partId) ps.

(** [addAction(partId, action, partType = "html")]: the part found or just
    created is the object the action is pushed on. *)
Definition addAction (partId : string) (action : Action)
    (partType : option PartType) (agg : t) : t :=
  let partType := default html partType in
  let ps := parts (scanData agg) in
  let '(ps, i) :=
    match find_part partId ps with
    | Some (i, _) => (ps, i)
    | None =>
        (ps ++ [ {| p_id := partId; p_type := partType; p_actions := [] |} ],
         length ps)
    end in
  {| scanData := set_parts (alter (push_action action) i ps) (scanData agg);
     actionIdSet := {[ a_actionId action ]} ∪ actionIdSet agg |}.

Definition addResourcePart (partId : string) (partType : PartType)
    (url : string) (agg : t) : t :=
  match find_part partId (parts (scanData agg)) with
  | Some _ => agg
  | None =>
      let resourcePart :=
        {| p_id := partId; p_type := partType; p_actions := [] |} in
      {| scanData := set_parts (parts (scanData agg) ++ [resourcePart])
                       (scanData agg);
         actionIdSet := actionIdSet agg |}
  end.

Definition addRequest (request : Request) (agg : t) : t :=
  {| scanData := set_requests (requests (scanData agg) ++ [request])
                   (scanData agg);
     actionIdSet := actionIdSet agg |}.

Definition is_linked (agg : t) (req : Request) : bool :=
  bool_decide (r_actionId req ∈ actionIdSet agg).

Record Validation := mkValidation {
  linkedRequests : nat;
  unlinkedRequests : nat;
  totalActions : nat }.

Definition validateLinkage (agg : t) : Validation :=
  let linkedRequests :=
    length (List.filter (is_linked agg) (requests (scanData agg))) in
  {| linkedRequests := linkedRequests;
     unlinkedRequests := length (requests (scanData agg)) - linkedRequests;
     totalActions := size (actionIdSet agg) |}.

Definition getUnlinkedRequests (agg : t) : list Request :=
  List.filter (λ req, negb (is_linked agg req)) (requests (scanData agg)).

Definition getResults (agg : t) : ScanData := scanData agg.

Record LinkageStats := mkLinkageStats {
  validation : Validation;
  linkageRate : Js.number;
  unlinkedRequestSample : list Request }.

Definition getLinkageStats (agg : t) : LinkageStats :=
  let validation := validateLinkage agg in
  let unlinkedRequests := getUnlinkedRequests agg in
  {| validation := validation;
     linkageRate :=
       Js.times (Js.div_counts (linkedRequests validation)
                   (length (requests (scanData agg)))) 100;
     unlinkedRequestSample := take 5 unlinkedRequests |}.

(** A call of one of the three writing methods, and a sequence of them. *)
Inductive Write :=
| AddAction (partId : string) (action : Action) (partType : option PartType)
| AddResourcePart (partId : string) (partType : PartType) (url : string)
| AddRequest (request : Request).

Definition write (agg : t) (w : Write) : t :=
  match w with
  | AddAction partId action partType => addAction partId action partType agg
  | AddResourcePart partId partType url => addResourcePart partId partType url agg
  | AddRequest request => addRequest request agg
  end.

(** The actions the calls of [addAction] among [ws] pass for [partId]. *)
Definition actions_for (partId : string) (ws : list Write) : list Action :=
  omap (λ w, match w with
             | AddAction partId' action _ =>
                 if decide (partId' = partId) then Some action else None
             | _ => None
             end) ws.

End ResultAggregator.

(** ** src/results/linkageReport.ts, the statistics of [generateLinkageReport] *)

Module LinkageReport.

(** [(results.parts || []).flatMap(part => part.actions || [])] *)
Definition actions (results : ScanData) : list Action :=
  concat (map p_actions (parts results)).

Definition actionMap_has (results : ScanData) (id : string) : bool :=
  bool_decide (id ∈ map a_actionId (actions results)).

Definition linkedRequests (results : ScanData) : list Request :=
  List.filter (λ req, actionMap_has results (r_actionId req)) (requests results).

(** The rate before [toFixed(1)]; the guard makes it 0 on no requests. *)
Definition linkageRate (results : ScanData) : Js.number :=
  if bool_decide (0 < length (requests results)) then
    Js.times (Js.div_counts (length (linkedRequests results))
                (length (requests results))) 100
  else Js.Finite 0.

End LinkageReport.

(** ** The instrumented page: globals and the calls that leave it *)

(** The first argument of [fetch]: a string, a [URL], a [Request], or
    anything else, given by its [String(input)]. *)
Inductive FetchInput :=
| InputString (s : string)
| InputURL (href : string)
| InputRequest (url : string)
| InputOther (str : string).

(** What a hook hands to the outside, in program order: the two bindings
    exposed by the host, the original network functions, and timers.
    [now] and [rand] of [CallReportInputAccess] are the host's [Date.now()]
    and random draw when the binding runs; it only uses them when no id is
    passed. *)
Inductive Call :=
| CallReportInputAccess (type data actionId : string) (now : Z) (rand : string)
| CallReportRequestMapping (url actionId : string)
| CallOriginalFetch (input : FetchInput)
| CallOriginalOpen (xhr : nat) (method url : string)
| CallOriginalSend (xhr : nat)
| CallSetTimeout (actionId : string) (delay : nat).

(** The expando properties the wrappers put on an [XMLHttpRequest]. *)
Record Xhr := mkXhr {
  _capturedActionId : option string;
  _requestUrl : string }.

(** [exposed_*] tell whether the host binding of that name is installed in
    the page; both monitors expose theirs before any hook is injected. *)
Record Window := mkWindow {
  __actionIdStack : list string;
  __currentActionId : option string;
  exposed_reportInputAccess : bool;
  exposed_reportRequestMapping : bool;
  xhrs : gmap nat Xhr }.

(** A string-valued global used as a condition: [undefined] and [''] are
    falsy. *)
Definition truthy (v : option string) : option string :=
  match v with
  | Some s => if decide (s = "") then None else Some s
  | None => None
  end.

(** ** src/monitors/inputMonitor.ts *)

Module InputMonitor.

(** [`action_${Date.now()}_${Math.random().toString(36).substr(2, 9)}`],
    [rand] being the random suffix. *)
Definition actionId (now : Z) (rand : string) : string :=
  "action_" ++ Js.numeral now ++ "_" ++ rand.

(** The function exposed as [reportInputAccess]. *)
Definition reportInputAccess (type data : string) (actionId' : option string)
    (now : Z) (rand : string) (agg : ResultAggregator.t) : ResultAggregator.t :=
  let finalActionId := default (actionId now rand) (truthy actionId') in
  let partId := "part_html_main" in
  let action := {| a_actionId := finalActionId; a_type := type; a_data := data |} in
  ResultAggregator.addAction partId action (Some html) agg.

(** Push on the stack and make current: the two assignments every hook does. *)
Definition push_context (id : string) (w : Window) : Window :=
  {| __actionIdStack := __actionIdStack w ++ [id];
     __currentActionId := Some id;
     exposed_reportInputAccess := exposed_reportInputAccess w;
     exposed_reportRequestMapping := exposed_reportRequestMapping w;
     xhrs := xhrs w |}.

Definition report (type data id : string) (now : Z) (rand : string) (w : Window) : list Call :=
  if exposed_reportInputAccess w then [CallReportInputAccess type data id now rand]
  else [].

(** The getter installed on [HTMLInputElement.prototype.value]; [inputId] is
    the [id=], [name=] or [element=] description of the element. *)
Definition value_getter (inputId : string) (now : Z) (rand : string)
    (w : Window) : Window * list Call :=
  let id := actionId now rand in
  (push_context id w,
   report "input.value" inputId id now rand w ++ [CallSetTimeout id 100]).

(** The function returned by [wrapHandler]: what it does around the call of
    the original handler, whose own effects are the events that follow. *)
Definition wrapped_handler (actionType elementId : string) (now : Z) (rand : string)
    (w : Window) : Window * list Call :=
  let id := actionId now rand in
  (push_context id w,
   report actionType elementId id now rand w ++ [CallSetTimeout id 100]).

(** The callback both hooks pass to [setTimeout]. *)
Definition context_cleanup (id : string) (w : Window) : Window :=
  if bool_decide (0 < length (__actionIdStack w) ∧ last (__actionIdStack w) = Some id)
  then
    let stack := removelast (__actionIdStack w) in
    {| __actionIdStack := stack;
       __currentActionId := last stack;
       exposed_reportInputAccess := exposed_reportInputAccess w;
       exposed_reportRequestMapping := exposed_reportRequestMapping w;
       xhrs := xhrs w |}
  else w.

End InputMonitor.

(** ** src/monitors/requestMonitor.ts *)

Module RequestMonitor.

(** [pendingRequests] holds, for a transport id, the ledger position of the
    record it was given: the object is the one pushed on the ledger by the
    same handler. *)
Record t := mk {
  resourcePartCounter : gmap string nat;
  pendingRequests : gmap string nat;
  urlActionMappings : list (string * string) }.

Definition new : t :=
  {| resourcePartCounter := ∅; pendingRequests := ∅; urlActionMappings := [] |}.

Definition resourceTypeMap (puppeteerResourceType : string) : option PartType :=
  if decide (puppeteerResourceType = "document") then Some html
  else if decide (puppeteerResourceType = "script") then Some js
  else if decide (puppeteerResourceType = "stylesheet") then Some css
  else if decide (puppeteerResourceType = "image") then Some image
  else if decide (puppeteerResourceType = "font") then Some font
  else if decide (puppeteerResourceType ∈
                    ["fetch"; "xhr"; "websocket"; "manifest"; "media";
                     "texttrack"; "eventsource"; "other"]) then Some other
  else None.

Definition type_name (ty : PartType) : string :=
  match ty with
  | html => "html" | js => "js" | css => "css"
  | image => "image" | font => "font" | other => "other"
  end.

Definition createResourcePart (url puppeteerResourceType : string)
    (m : t) (agg : ResultAggregator.t) : t * ResultAggregator.t :=
  let resourceType := default other (resourceTypeMap puppeteerResourceType) in
  match resourceType with
  | html => (m, agg)
  | _ =>
      let counter := default 0 (resourcePartCounter m !! type_name resourceType) in
      let partId :=
        ("part_" ++ type_name resourceType ++ "_"
           ++ Js.numeral (Z.of_nat (counter + 1)))%string in
      ({| resourcePartCounter :=
            <[type_name resourceType := counter + 1]> (resourcePartCounter m);
          pendingRequests := pendingRequests m;
          urlActionMappings := urlActionMappings m |},
       ResultAggregator.addResourcePart partId resourceType url agg)
  end.

(** The function exposed as [reportRequestMapping], on the Mapping Store. *)
Definition reportRequestMapping (url actionId : string)
    (mappings : list (string * string)) : list (string * string) :=
  let mappings := Js.map_set url actionId mappings in
  if bool_decide (1000 < length mappings) then Js.slice_last 500 mappings
  else mappings.

(** *** The wrappers injected in the page *)

Definition fetch_url (input : FetchInput) : string :=
  match input with
  | InputString s => s
  | InputURL href => href
  | InputRequest url => url
  | InputOther str => str
  end.

(** [window.fetch].  The [WeakMap] both wrappers also fill is never read and
    is left out. *)
Definition fetch (input : FetchInput) (w : Window) : Window * list Call :=
  let currentActionId := __currentActionId w in
  let url := fetch_url input in
  let report :=
    match truthy currentActionId with
    | Some id =>
        if exposed_reportRequestMapping w then [CallReportRequestMapping url id]
        else []
    | None => []
    end in
  (w, report ++ [CallOriginalFetch input]).

(** [XMLHttpRequest.prototype.open] *)
Definition open (xhr : nat) (method url : string) (w : Window) : Window * list Call :=
  ({| __actionIdStack := __actionIdStack w;
      __currentActionId := __currentActionId w;
      exposed_reportInputAccess := exposed_reportInputAccess w;
      exposed_reportRequestMapping := exposed_reportRequestMapping w;
      xhrs := <[xhr := {| _capturedActionId := __currentActionId w;
                          _requestUrl := url |}]> (xhrs w) |},
   [CallOriginalOpen xhr method url]).

(** [XMLHttpRequest.prototype.send]; on an object never opened both expando
    properties are [undefined]. *)
Definition send (xhr : nat) (w : Window) : Window * list Call :=
  let actionId := xhrs w !! xhr ≫= _capturedActionId in
  let url := default "undefined" (_requestUrl <$> xhrs w !! xhr) in
  let report :=
    match truthy actionId with
    | Some id =>
        if exposed_reportRequestMapping w then [CallReportRequestMapping url id]
        else []
    | None => []
    end in
  (w, report ++ [CallOriginalSend xhr]).

(** *** The observers on the host *)

(** The id given to a request no mapping answers for. *)
Definition synthetic (prefix : string) (now : Z) (rand : string) : string :=
  prefix ++ "_" ++ Js.numeral now ++ "_" ++ rand.

Definition set_status (status : Z) (r : Request) : Request :=
  {| r_actionId := r_actionId r; r_url := r_url r;
     r_requestSource := r_requestSource r; r_method := r_method r;
     r_status := status |}.

Definition write_status (i : nat) (status : Z) (agg : ResultAggregator.t) : ResultAggregator.t :=
  {| ResultAggregator.scanData :=
       ResultAggregator.set_requests
         (alter (set_status status) i (requests (ResultAggregator.scanData agg)))
         (ResultAggregator.scanData agg);
     ResultAggregator.actionIdSet := ResultAggregator.actionIdSet agg |}.

Definition set_pending (p : gmap string nat) (m : t) : t :=
  {| resourcePartCounter := resourcePartCounter m;
     pendingRequests := p;
     urlActionMappings := urlActionMappings m |}.

Definition set_mappings (mappings : list (string * string)) (m : t) : t :=
  {| resourcePartCounter := resourcePartCounter m;
     pendingRequests := pendingRequests m;
     urlActionMappings := mappings |}.

(** [page.on("request")] *)
Definition on_request (requestId url resourceType method : string)
    (now : Z) (rand : string)
    (m : t) (agg : ResultAggregator.t) : t * ResultAggregator.t :=
  let actionId :=
    if Js.map_has url (urlActionMappings m)
    then default "" (Js.map_get url (urlActionMappings m))
    else synthetic "http" now rand in
  let '(m, agg) := createResourcePart url resourceType m agg in
  let requestRecord :=
    {| r_actionId := actionId; r_url := url; r_requestSource := resourceType;
       r_method := method; r_status := -1 |} in
  let position := length (requests (ResultAggregator.scanData agg)) in
  (set_pending (<[requestId := position]> (pendingRequests m)) m,
   ResultAggregator.addRequest requestRecord agg).

(** [page.on("response")] *)
Definition on_response (requestId url : string) (status : Z)
    (m : t) (agg : ResultAggregator.t) : t * ResultAggregator.t :=
  match pendingRequests m !! requestId with
  | Some i =>
      (set_pending (delete requestId (pendingRequests m)) m,
       write_status i status agg)
  | None =>
      let scanData := ResultAggregator.getResults agg in
      match list_find (λ r, r_url r = url ∧ r_status r = (-1)%Z) (requests scanData) with
      | Some (j, _) => (m, write_status j status agg)
      | None => (m, agg)
      end
  end.

(** [page.on("requestfailed")] *)
Definition on_requestfailed (requestId url resourceType method : string)
    (now : Z) (rand : string)
    (m : t) (agg : ResultAggregator.t) : t * ResultAggregator.t :=
  match pendingRequests m !! requestId with
  | Some i =>
      (set_pending (delete requestId (pendingRequests m)) m,
       write_status i (-999) agg)
  | None =>
      let actionId :=
        if Js.map_has url (urlActionMappings m)
        then default "" (Js.map_get url (urlActionMappings m))
        else synthetic "failed" now rand in
      let requestRecord :=
        {| r_actionId := actionId; r_url := url; r_requestSource := resourceType;
           r_method := method; r_status := -999 |} in
      (m, ResultAggregator.addRequest requestRecord agg)
  end.

(** The test the periodic sweep applies to a pending record. *)
Definition is_stale (fiveMinutesAgo : Z) (request : Request) : bool :=
  let actionIdParts := Js.split "_" (r_actionId request) in
  if bool_decide (1 < length actionIdParts) then
    match Js.parseInt (nth 1 actionIdParts "") with
    | Some timestamp => bool_decide (timestamp ≠ 0%Z ∧ (timestamp < fiveMinutesAgo)%Z)
    | None => false
    end
  else false.

(** The [setInterval] callback. *)
Definition cleanup (now : Z) (m : t) (agg : ResultAggregator.t) : t :=
  let fiveMinutesAgo := (now - 5 * 60 * 1000)%Z in
  let ledger := requests (ResultAggregator.scanData agg) in
  let pending :=
    filter (λ entry : string * nat,
              (is_stale fiveMinutesAgo <$> ledger !! entry.2) ≠ Some true)
      (pendingRequests m) in
  let mappings :=
    if bool_decide (50 < length (urlActionMappings m))
    then Js.slice_last 25 (urlActionMappings m)
    else urlActionMappings m in
  {| resourcePartCounter := resourcePartCounter m;
     pendingRequests := pending;
     urlActionMappings := mappings |}.

End RequestMonitor.

(** ** The scan: page, host and ledger driven by events *)

Module Scan.

(** One state for the page, the host and the ledger they share.  A call of a
    binding exposed by the host is taken to run on the host at once, in the
    order the page makes it; [transport] lists the calls handed to the
    original network functions. *)
Record state := mk {
  window : Window;
  monitor : RequestMonitor.t;
  aggregator : ResultAggregator.t;
  transport : list Call }.

Definition init : state :=
  {| window := {| __actionIdStack := []; __currentActionId := None;
                  exposed_reportInputAccess := true;
                  exposed_reportRequestMapping := true;
                  xhrs := ∅ |};
     monitor := RequestMonitor.new;
     aggregator := ResultAggregator.new;
     transport := [] |}.

Definition set_window (w : Window) (s : state) : state :=
  {| window := w; monitor := monitor s; aggregator := aggregator s;
     transport := transport s |}.

Definition set_host (h : RequestMonitor.t * ResultAggregator.t) (s : state) : state :=
  {| window := window s; monitor := h.1; aggregator := h.2;
     transport := transport s |}.

(** One call of a hook reaching its callee. *)
Definition perform (s : state) (c : Call) : state :=
  match c with
  | CallReportInputAccess type data id now rand =>
      set_host (monitor s,
                InputMonitor.reportInputAccess type data (Some id) now rand (aggregator s)) s
  | CallReportRequestMapping url id =>
      set_host (RequestMonitor.set_mappings
                  (RequestMonitor.reportRequestMapping url id
                     (RequestMonitor.urlActionMappings (monitor s)))
                  (monitor s),
                aggregator s) s
  | CallOriginalFetch _ | CallOriginalOpen _ _ _ | CallOriginalSend _ =>
      {| window := window s; monitor := monitor s; aggregator := aggregator s;
         transport := transport s ++ [c] |}
  | CallSetTimeout _ _ => s
  end.

Definition hook (h : Window → Window * list Call) (s : state) : state :=
  let '(w, calls) := h (window s) in
  foldl perform (set_window w s) calls.

(** What can happen next.  On the page: a read of an input's value, a wrapped
    listener being called, a scheduled context cleanup firing, a [fetch], an
    [open] or a [send].  On the host: the three observers, which receive the
    transport id, the URL, resource type and method of the request as
    Puppeteer gives them (and the response its status), and the periodic
    sweep.  [now] and [rand] are the clock and the random suffix the handler
    draws. *)
Inductive Event :=
| ValueRead (inputId : string) (now : Z) (rand : string)
| HandlerFired (actionType elementId : string) (now : Z) (rand : string)
| TimerFired (actionId : string)
| Fetch (input : FetchInput)
| XhrOpen (xhr : nat) (method url : string)
| XhrSend (xhr : nat)
| OnRequest (requestId url resourceType method : string) (now : Z) (rand : string)
| OnResponse (requestId url : string) (status : Z)
| OnRequestFailed (requestId url resourceType method : string) (now : Z) (rand : string)
| Sweep (now : Z).

Definition step (s : state) (e : Event) : state :=
  match e with
  | ValueRead inputId now rand => hook (InputMonitor.value_getter inputId now rand) s
  | HandlerFired actionType elementId now rand =>
      hook (InputMonitor.wrapped_handler actionType elementId now rand) s
  | TimerFired id => set_window (InputMonitor.context_cleanup id (window s)) s
  | Fetch input => hook (RequestMonitor.fetch input) s
  | XhrOpen xhr method url => hook (RequestMonitor.open xhr method url) s
  | XhrSend xhr => hook (RequestMonitor.send xhr) s
  | OnRequest requestId url resourceType method now rand =>
      set_host (RequestMonitor.on_request requestId url resourceType method now rand
                  (monitor s) (aggregator s)) s
  | OnResponse requestId url status =>
      set_host (RequestMonitor.on_response requestId url status
                  (monitor s) (aggregator s)) s
  | OnRequestFailed requestId url resourceType method now rand =>
      set_host (RequestMonitor.on_requestfailed requestId url resourceType method now rand
                  (monitor s) (aggregator s)) s
  | Sweep now =>
      set_host (RequestMonitor.cleanup now (monitor s) (aggregator s), aggregator s) s
  end.

Definition run (s : state) (trace : list Event) : state := foldl step s trace.

(** The id a cause event generates. *)
Definition cause_id (e : Event) : option string :=
  match e with
  | ValueRead _ now rand | HandlerFired _ _ now rand =>
      Some (InputMonitor.actionId now rand)
  | _ => None
  end.

(** The calls the hook behind a page event makes, in program order. *)
Definition calls (s : state) (e : Event) : list Call :=
  match e with
  | ValueRead inputId now rand =>
      (InputMonitor.value_getter inputId now rand (window s)).2
  | HandlerFired actionType elementId now rand =>
      (InputMonitor.wrapped_handler actionType elementId now rand (window s)).2
  | Fetch input => (RequestMonitor.fetch input (window s)).2
  | XhrOpen xhr method url => (RequestMonitor.open xhr method url (window s)).2
  | XhrSend xhr => (RequestMonitor.send xhr (window s)).2
  | _ => []
  end.

Definition ledger (s : state) : list Request :=
  requests (ResultAggregator.scanData (aggregator s)).

Definition pending (s : state) : gmap string nat :=
  RequestMonitor.pendingRequests (monitor s).

Definition mappings (s : state) : list (string * string) :=
  RequestMonitor.urlActionMappings (monitor s).

(** The Mapping Store's answer for a URL. *)
Definition mapping (url : string) (s : state) : option string :=
  Js.map_get url (mappings s).

(** *** Invariant and side conditions of runs *)

(** What every state reached from [init] satisfies. *)
Record invariant (s : state) : Prop := mk_invariant {
  inv_input_exposed : exposed_reportInputAccess (window s) = true;
  inv_mapping_exposed : exposed_reportRequestMapping (window s) = true;
  inv_capacity : length (mappings s) ≤ 1000;
  inv_pending_lt : ∀ requestId i,
    pending s !! requestId = Some i → i < length (ledger s);
  inv_pending_inj : ∀ requestId requestId' i,
    pending s !! requestId = Some i → pending s !! requestId' = Some i →
    requestId = requestId';
  inv_action_ids : ∀ id,
    id ∈ ResultAggregator.actionIdSet (aggregator s) →
    String.prefix "action_" id = true }.

(** [always P s trace]: [P] holds of every step of the run of [trace] from
    [s], in the state the step starts from. *)
Fixpoint always (P : state → Event → Prop) (s : state) (trace : list Event) : Prop :=
  match trace with
  | [] => True
  | e :: trace => P s e ∧ always P (step s e) trace
  end.

(** No cause fires, and the timer of [id] does not either. *)
Definition quiet (id : string) (s : state) (e : Event) : Prop :=
  cause_id e = None ∧ e ≠ TimerFired id.


(** The step leaves the Mapping Store's answer for [url] as it is. *)
Definition keeps_mapping (url : string) (s : state) (e : Event) : Prop :=
  mapping url (step s e) = mapping url s.

(** The step leaves the pending record of that transport id as it is. *)
Definition keeps_pending (requestId : string) (s : state) (e : Event) : Prop :=
  pending (step s e) !! requestId = pending s !! requestId.

(** The step is one of the three observers of the host. *)
Definition observer (s : state) (e : Event) : Prop :=
  match e with
  | OnRequest _ _ _ _ _ _ | OnResponse _ _ _ | OnRequestFailed _ _ _ _ _ _ => True
  | _ => False
  end.

(** Every record a transport id still answers for is unresolved. *)
Definition pending_unresolved (s : state) : Prop :=
  ∀ requestId i,
    pending s !! requestId = Some i → r_status <$> ledger s !! i = Some (-1)%Z.

(** A response carries an HTTP status, and when it has to be matched by URL
    the record found is not one a transport id still answers for. *)
Definition resolves_cleanly (s : state) (e : Event) : Prop :=
  match e with
  | OnResponse requestId url status =>
      (0 ≤ status)%Z ∧
      (pending s !! requestId = None →
       ∀ j r requestId',
         list_find (λ r, r_url r = url ∧ r_status r = (-1)%Z) (ledger s) = Some (j, r) →
         pending s !! requestId' ≠ Some j)
  | _ => True
  end.

End Scan.

(** ** src/results/linkageReport.ts, the lists both reports are built from *)

Module Report.

(** [generateLinkageReport]: the requests whose id no action has. *)
Definition unlinkedRequests (results : ScanData) : list Request :=
  List.filter (λ req, negb (LinkageReport.actionMap_has results (r_actionId req)))
    (requests results).

(** [generateHtmlLinkageReport]: the failed requests, and the requests it
    lists as unlinked. *)
Definition failedRequests (results : ScanData) : list Request :=
  List.filter (λ req, bool_decide (r_status req = (-999)%Z)) (requests results).

Definition htmlUnlinkedRequests (results : ScanData) : list Request :=
  List.filter (λ req, negb (LinkageReport.actionMap_has results (r_actionId req))
                      && bool_decide (r_status req ≠ (-999)%Z))
    (requests results).

(** The requests shown against an action in the table of all actions. *)
Definition relatedRequests (results : ScanData) (action : Action) : list Request :=
  List.filter (λ r, bool_decide (r_actionId r = a_actionId action)) (requests results).

(** [ids.reduce((acc, id) => { acc[prefix] = (acc[prefix] || 0) + 1 }, {})]
    with [prefix = id.split('_')[0]]: the table of id patterns, its keys in
    the order they first occur.  This is the object the code builds as long
    as no key is a canonical numeric string, which an object lists first, or
    a property of [Object.prototype], which [acc[prefix]] would find; the
    ids of a scan give the keys [action], [http] and [failed]. *)
Definition pattern (actionId : string) : string :=
  nth 0 (Js.split "_" actionId) "".

Definition tally (keys : list string) : list (string * nat) :=
  foldl (λ acc key, Js.map_set key (default 0 (Js.map_get key acc) + 1) acc) [] keys.

End Report.

(** ** Shape of the states a scan reaches *)

Module Shape.

#[global] Instance PartType_eq_dec : EqDecision PartType.
Proof. solve_decision. Defined.

(** The id [createResourcePart] gives the [n]-th part of a type. *)
Definition resource_part_id (ty : PartType) (n : nat) : string :=
  ("part_" ++ RequestMonitor.type_name ty ++ "_" ++ Js.numeral (Z.of_nat n))%string.

(** A part is the main document part, which holds the actions, or a
    resource part numbered within the counter of its type, which holds
    none. *)
Definition part_shape (counter : gmap string nat) (p : Part) : Prop :=
  (p_id p = "part_html_main" ∧ p_type p = html)
  ∨ (p_actions p = [] ∧ p_type p ≠ html
     ∧ ∃ n, p_id p = resource_part_id (p_type p) n
            ∧ 1 ≤ n ≤ default 0 (counter !! RequestMonitor.type_name (p_type p))).

(** An id of a request record: that of a recorded action, or a synthetic
    one. *)
Definition request_id_shape (agg : ResultAggregator.t) (id : string) : Prop :=
  id ∈ ResultAggregator.actionIdSet agg
  ∨ ∃ prefix now rand,
      prefix ∈ ["http"; "failed"] ∧ id = RequestMonitor.synthetic prefix now rand.

Record wellformed (s : Scan.state) : Prop := mk_wellformed {
  wf_current :
    __currentActionId (Scan.window s) = last (__actionIdStack (Scan.window s));
  wf_stack : ∀ id,
    id ∈ __actionIdStack (Scan.window s) →
    id ∈ ResultAggregator.actionIdSet (Scan.aggregator s);
  wf_xhrs : ∀ xhr x id,
    xhrs (Scan.window s) !! xhr = Some x → _capturedActionId x = Some id →
    id ∈ ResultAggregator.actionIdSet (Scan.aggregator s);
  wf_keys : NoDup (map fst (Scan.mappings s));
  wf_mappings : ∀ url id,
    (url, id) ∈ Scan.mappings s →
    id ∈ ResultAggregator.actionIdSet (Scan.aggregator s);
  wf_requests : ∀ r,
    r ∈ Scan.ledger s → request_id_shape (Scan.aggregator s) (r_actionId r);
  wf_part_ids :
    NoDup (map p_id (parts (ResultAggregator.scanData (Scan.aggregator s))));
  wf_parts :
    Forall (part_shape (RequestMonitor.resourcePartCounter (Scan.monitor s)))
      (parts (ResultAggregator.scanData (Scan.aggregator s)));
  wf_actions : ∀ id,
    id ∈ ResultAggregator.actionIdSet (Scan.aggregator s)
    ↔ id ∈ map a_actionId
             (LinkageReport.actions (ResultAggregator.scanData (Scan.aggregator s))) }.

(** The action a cause event reports. *)
Definition action_of (e : Scan.Event) : option Action :=
  match e with
  | Scan.ValueRead inputId now rand =>
      Some {| a_actionId := InputMonitor.actionId now rand;
              a_type := "input.value"; a_data := inputId |}
  | Scan.HandlerFired actionType elementId now rand =>
      Some {| a_actionId := InputMonitor.actionId now rand;
              a_type := actionType; a_data := elementId |}
  | _ => None
  end.

(** The resource type a request observed by the host is filed under. *)
Definition resource_of (e : Scan.Event) : option PartType :=
  match e with
  | Scan.OnRequest _ _ resourceType _ _ _ =>
      match default other (RequestMonitor.resourceTypeMap resourceType) with
      | html => None
      | ty => Some ty
      end
  | _ => None
  end.

(** A string in which the separator does not occur. *)
Fixpoint no_sep (sep : ascii) (s : string) : Prop :=
  match s with
  | EmptyString => True
  | String c s' => Ascii.eqb c sep = false ∧ no_sep sep s'
  end.

(** How many of the requests the host observed were filed under a type. *)
Definition requests_of_type (ty : PartType) (trace : list Scan.Event) : nat :=
  length (filter (λ e, resource_of e = Some ty) trace).

(** The part [createResourcePart] creates for the [n]-th request of a type. *)
Definition resource_part (ty : PartType) (n : nat) : Part :=
  {| p_id := resource_part_id ty n; p_type := ty; p_actions := [] |}.

(** The call a page event makes to the network, as the page wrote it. *)
Definition original_call (e : Scan.Event) : option Call :=
  match e with
  | Scan.Fetch input => Some (CallOriginalFetch input)
  | Scan.XhrOpen xhr method url => Some (CallOriginalOpen xhr method url)
  | Scan.XhrSend xhr => Some (CallOriginalSend xhr)
  | _ => None
  end.

End Shape.

(** ** src/monitors/inputMonitor.ts, the wrapper of [addEventListener] *)

Module Listeners.

(** The classes the wrapper tells apart with [instanceof]. *)
Inductive Class :=
| InputElement | TextAreaElement | SelectElement | FormElement | OtherTarget.

(** An event target: its class, its [id] and [name] (empty when it has
    none), its tag name in lower case, and its position among the elements
    of a tag in the document, which is -1 when it is not among them. *)
Record Target := mkTarget {
  class : Class;
  t_id : string;
  t_name : string;
  tag : string;
  position : Z }.

(** [this.id ? `id=...` : this.name ? `name=...` : `element=<tag>[<index>]`] *)
Definition describe (tagName : string) (target : Target) : string :=
  if decide (t_id target ≠ "") then ("id=" ++ t_id target)%string
  else if decide (t_name target ≠ "") then ("name=" ++ t_name target)%string
  else ("element=" ++ tagName ++ "[" ++ Js.numeral (position target) ++ "]")%string.

(** A function a listener can be: one the page wrote, or one [wrapHandler]
    returned around another function. *)
Inductive Handler :=
| Original (f : nat)
| Wrapped (actionType elementId : string) (handler : Handler).

(** The second argument of [addEventListener]: a function, an object, or
    anything else.  An object is given by its identity; its [handleEvent]
    is a property the wrapper assigns to. *)
Inductive Listener :=
| ListenerFunction (handler : Handler)
| ListenerObject (object : nat)
| ListenerOther.

(** One call: [this], [type] and [listener]. *)
Record Registration := mkRegistration {
  g_target : Target;
  g_type : string;
  g_listener : Listener }.

(** [handleEvent] holds the [handleEvent] property of the listener objects
    on which it is a function; [registered] lists the calls that reached the
    original [addEventListener]. *)
Record t := mk {
  handleEvent : gmap nat Handler;
  registered : list Registration }.

(** The action type and element description a listener is wrapped with, when
    the target and the event type are among those monitored. *)
Definition monitored (target : Target) (type : string) : option (string * string) :=
  match class target with
  | InputElement | TextAreaElement | SelectElement =>
      if decide (type ∈ ["change"; "input"; "keyup"; "keydown"])
      then Some (("input.addEventListener." ++ type)%string, describe (tag target) target)
      else None
  | FormElement =>
      if decide (type = "submit")
      then Some ("form.addEventListener.submit", describe "form" target)
      else None
  | OtherTarget => None
  end.

(** The two branches on [typeof listener]: a function is replaced by its
    wrapper, an object keeps its identity and has its [handleEvent]
    reassigned. *)
Definition wrap (actionType elementId : string) (listener : Listener) (st : t) :
    Listener * t :=
  match listener with
  | ListenerFunction handler =>
      (ListenerFunction (Wrapped actionType elementId handler), st)
  | ListenerObject object =>
      match handleEvent st !! object with
      | Some orig =>
          (listener,
           {| handleEvent := <[object := Wrapped actionType elementId orig]> (handleEvent st);
              registered := registered st |})
      | None => (listener, st)
      end
  | ListenerOther => (listener, st)
  end.

(** [EventTarget.prototype.addEventListener] *)
Definition addEventListener (call : Registration) (st : t) : t :=
  let '(listener, st) :=
    match monitored (g_target call) (g_type call) with
    | Some (actionType, elementId) => wrap actionType elementId (g_listener call) st
    | None => (g_listener call, st)
    end in
  {| handleEvent := handleEvent st;
     registered := registered st
                   ++ [ {| g_target := g_target call; g_type := g_type call;
                           g_listener := listener |} ] |}.

Definition addEventListeners (st : t) (calls : list Registration) : t :=
  foldl (λ st call, addEventListener call st) st calls.

(** The function the browser calls for a registered listener. *)
Definition callee (st : t) (listener : Listener) : option Handler :=
  match listener with
  | ListenerFunction handler => Some handler
  | ListenerObject object => handleEvent st !! object
  | ListenerOther => None
  end.

(** The causes one call of a handler fires before the page's own function
    runs, the outermost wrapper first; each wrapper draws its own clock and
    random suffix. *)
Fixpoint fire (handler : Handler) (draws : list (Z * string)) : list Scan.Event :=
  match handler, draws with
  | Wrapped actionType elementId inner, (now, rand) :: draws =>
      Scan.HandlerFired actionType elementId now rand :: fire inner draws
  | _, _ => []
  end.

(** The wrappers the calls among [calls] that pass the object put around its
    [handleEvent], in the order of the calls. *)
Definition wrappers_of (object : nat) (calls : list Registration) : list (string * string) :=
  omap (λ call,
          match g_listener call with
          | ListenerObject object' =>
              if decide (object' = object) then monitored (g_target call) (g_type call)
              else None
          | _ => None
          end) calls.

Definition wrap_all (handler : Handler) (wrappers : list (string * string)) : Handler :=
  foldl (λ handler w, Wrapped w.1 w.2 handler) handler wrappers.

End Listeners.

(** ** src/monitors/requestMonitor.ts, the wrappers argument by argument *)

Module Forward.

(** An argument of a call, as far as the wrappers look at it: [undefined],
    [null], a string, a [URL] with its [href], a [Request] with its [url],
    or any other value with what [toString()] gives on it, if it returns.
    Objects carry an identity. *)
Inductive Value :=
| Undefined
| Null
| Str (s : string)
| Url (href : string)
| Req (identity : nat) (url : string)
| Obj (identity : nat) (string : option string).

(** [arguments[i]], which is [undefined] beyond the arguments passed. *)
Definition arg (i : nat) (args : list Value) : Value := nth i args Undefined.

(** The URL the wrapper of [fetch] extracts from [input]: the string, the
    [href], the [url], and [String(input)] of anything else. *)
Definition fetch_url (input : Value) : option string :=
  match input with
  | Undefined => Some "undefined"
  | Null => Some "null"
  | Str s => Some s
  | Url href => Some href
  | Req _ url => Some url
  | Obj _ string => string
  end.

(** [url.toString()], a [TypeError] on [undefined] and [null]. *)
Definition to_string (url : Value) : option string :=
  match url with
  | Undefined | Null => None
  | Str s => Some s
  | Url href => Some href
  | Req _ _ => Some "[object Request]"
  | Obj _ string => string
  end.

(** What a wrapper does that leaves it, in program order: a call of the
    binding [reportRequestMapping], a call of an original function with its
    [this] and its arguments, or an exception going up to the page. *)
Inductive Step :=
| Report (url actionId : string)
| OriginalFetch (args : list Value)
| OriginalOpen (this : nat) (args : list Value)
| OriginalSend (this : nat) (args : list Value)
| Throw.

Definition report (url : string) (actionId : option string) (w : Window) : list Step :=
  match truthy actionId with
  | Some id => if exposed_reportRequestMapping w then [Report url id] else []
  | None => []
  end.

(** [window.fetch = function (input, init)]: the original is called as
    [originalFetch(input, init)]. *)
Definition fetch (args : list Value) (w : Window) : Window * list Step :=
  match fetch_url (arg 0 args) with
  | Some url =>
      (w, report url (__currentActionId w) w ++ [OriginalFetch [arg 0 args; arg 1 args]])
  | None => (w, [Throw])
  end.

(** [XMLHttpRequest.prototype.open]: the id is captured, then the URL is
    converted, then the original is called as
    [originalOpen.apply(this, arguments)].  An object that has no
    [_requestUrl] yet is given the string [RequestMonitor.send] reads it
    as. *)
Definition open (this : nat) (args : list Value) (w : Window) : Window * list Step :=
  let captured (url : string) :=
    {| __actionIdStack := __actionIdStack w;
       __currentActionId := __currentActionId w;
       exposed_reportInputAccess := exposed_reportInputAccess w;
       exposed_reportRequestMapping := exposed_reportRequestMapping w;
       xhrs := <[this := {| _capturedActionId := __currentActionId w;
                            _requestUrl := url |}]> (xhrs w) |} in
  match to_string (arg 1 args) with
  | Some url => (captured url, [OriginalOpen this args])
  | None =>
      (captured (default "undefined" (_requestUrl <$> xhrs w !! this)), [Throw])
  end.

(** [XMLHttpRequest.prototype.send]: the original is called as
    [originalSend.apply(this, arguments)]. *)
Definition send (this : nat) (args : list Value) (w : Window) : Window * list Step :=
  let actionId := xhrs w !! this ≫= _capturedActionId in
  let url := default "undefined" (_requestUrl <$> xhrs w !! this) in
  (w, report url actionId w ++ [OriginalSend this args]).

(** A call the page makes of one of the three wrapped functions. *)
Inductive PageCall :=
| PageFetch (args : list Value)
| PageOpen (this : nat) (args : list Value)
| PageSend (this : nat) (args : list Value).

Definition call (c : PageCall) (w : Window) : Window * list Step :=
  match c with
  | PageFetch args => fetch args w
  | PageOpen this args => open this args w
  | PageSend this args => send this args w
  end.

(** The page after a sequence of calls, and all they did in order. *)
Definition run (w : Window) (calls : list PageCall) : Window * list Step :=
  foldl (λ acc c, let '(w', steps) := call c acc.1 in (w', acc.2 ++ steps)) (w, []) calls.

Definition is_original (s : Step) : bool :=
  match s with
  | OriginalFetch _ | OriginalOpen _ _ | OriginalSend _ _ => true
  | Report _ _ | Throw => false
  end.

Definition is_throw (s : Step) : bool :=
  match s with
  | Throw => true
  | _ => false
  end.

(** The wrappers of [RequestMonitor] take the URL of a call as a string.
    These give, for a call and for what it does, the event and the calls of
    that description: the arguments are forgotten but for the URL and the
    method. *)
Definition input_of (v : Value) : FetchInput :=
  match v with
  | Str s => InputString s
  | Url href => InputURL href
  | Req _ url => InputRequest url
  | Undefined => InputOther "undefined"
  | Null => InputOther "null"
  | Obj _ string => InputOther (default "" string)
  end.

Definition text (v : Value) : string := default "" (to_string v).

Definition event_of (c : PageCall) : Scan.Event :=
  match c with
  | PageFetch args => Scan.Fetch (input_of (arg 0 args))
  | PageOpen this args => Scan.XhrOpen this (text (arg 0 args)) (text (arg 1 args))
  | PageSend this _ => Scan.XhrSend this
  end.

Definition erase (s : Step) : option Call :=
  match s with
  | Report url actionId => Some (CallReportRequestMapping url actionId)
  | OriginalFetch args => Some (CallOriginalFetch (input_of (arg 0 args)))
  | OriginalOpen this args =>
      Some (CallOriginalOpen this (text (arg 0 args)) (text (arg 1 args)))
  | OriginalSend this _ => Some (CallOriginalSend this)
  | Throw => None
  end.

End Forward.

(** * Properties *)

(** ** The ledger: parts and actions *)

Section Ledger.
Import ResultAggregator.

Lemma find_part_app (partId : string) (ps : list Part) (p : Part) :
  find_part partId (ps ++ [p]) =
    match find_part partId ps with
    | Some found => Some found
    | None => if decide (p_id p = partId) then Some (length ps, p) else None
    end.
Proof.
  unfold find_part. induction ps as [|q ps IH]; simpl.
  - by case_decide.
  - destruct (decide (p_id q = partId)); [done|]. rewrite IH.
    destruct (list_find _ ps) as [[]|]; [done|]. by case_decide.
Qed.

Lemma find_part_alter (partId : string) (f : Part → Part) (j : nat) (ps : list Part) :
  (∀ q, p_id (f q) = p_id q) →
  find_part partId (alter f j ps) =
    (λ found : nat * Part,
       (found.1, if decide (found.1 = j) then f found.2 else found.2))
      <$> find_part partId ps.
Proof.
  unfold find_part. intros Hf. revert j.
  induction ps as [|q ps IH]; intros j; [done|].
  destruct j as [|j]; simpl.
  - rewrite Hf. destruct (decide (p_id q = partId)); [done|].
    destruct (list_find _ ps) as [[k r]|]; simpl; done.
  - destruct (decide (p_id q = partId)); [done|].
    change (list_alter f j ps) with (alter f j ps). rewrite IH.
    destruct (list_find _ ps) as [[k r]|]; simpl; [|done].
    f_equal. f_equal. repeat case_decide; done || lia.
Qed.

Lemma find_part_id (partId : string) (ps : list Part) i p :
  find_part partId ps = Some (i, p) → p_id p = partId.
Proof. unfold find_part. by intros (_ & ? & _)%list_find_Some. Qed.

Lemma find_part_lt (partId : string) (ps : list Part) i p :
  find_part partId ps = Some (i, p) → ps !! i = Some p.
Proof. unfold find_part. by intros (? & _)%list_find_Some. Qed.

Lemma addAction_new partId action partType agg :
  find_part partId (parts (scanData agg)) = None →
  parts (scanData (addAction partId action partType agg)) =
    parts (scanData agg) ++
      [ {| p_id := partId; p_type := default html partType; p_actions := [action] |} ].
Proof.
  intros Hfind. unfold addAction. rewrite Hfind. simpl.
  rewrite alter_app_r_alt by done. by rewrite Nat.sub_diag.
Qed.

Lemma addAction_actionIdSet partId action partType agg :
  actionIdSet (addAction partId action partType agg) =
    {[ a_actionId action ]} ∪ actionIdSet agg.
Proof. unfold addAction. by destruct (find_part _ _) as [[]|]. Qed.

Lemma addAction_requests partId action partType agg :
  requests (scanData (addAction partId action partType agg)) = requests (scanData agg).
Proof. unfold addAction. by destruct (find_part _ _) as [[]|]. Qed.

Lemma addResourcePart_present partId partType url agg found :
  find_part partId (parts (scanData agg)) = Some found →
  addResourcePart partId partType url agg = agg.
Proof. intros Hfind. unfold addResourcePart. by rewrite Hfind. Qed.

Lemma write_keeps_part partId w agg i p :
  find_part partId (parts (scanData agg)) = Some (i, p) →
  find_part partId (parts (scanData (write agg w))) =
    Some (i, {| p_id := p_id p; p_type := p_type p;
                p_actions := p_actions p ++ actions_for partId [w] |}).
Proof.
  intros Hfind.
  assert (Hsame : Some (i, p) = Some (i, {| p_id := p_id p; p_type := p_type p;
                                          p_actions := p_actions p ++ [] |})).
  { destruct p. simpl. by rewrite app_nil_r. }
  destruct w as [partId' action partType|partId' partType url|request]; simpl.
  - unfold addAction.
    destruct (find_part partId' _) as [[j q]|] eqn:Hfind'; simpl.
    + rewrite find_part_alter by done. rewrite Hfind. simpl.
      destruct (decide (partId' = partId)) as [->|Hne].
      * rewrite Hfind in Hfind'. injection Hfind' as -> ->. by case_decide.
      * case_decide as Hij; [|done]. subst j.
        pose proof (find_part_id _ _ _ _ Hfind').
        pose proof (find_part_id _ _ _ _ Hfind).
        apply find_part_lt in Hfind'. apply find_part_lt in Hfind.
        congruence.
    + rewrite find_part_alter by done. rewrite find_part_app, Hfind. simpl.
      pose proof (lookup_lt_Some _ _ _ (find_part_lt _ _ _ _ Hfind)) as Hlt.
      case_decide; [lia|].
      case_decide; [congruence|done].
  - unfold addResourcePart.
    destruct (find_part partId' _) as [[j q]|] eqn:Hfind'; simpl; [by rewrite Hfind|].
    by rewrite find_part_app, Hfind.
  - by rewrite Hfind.
Qed.

Lemma writes_keep_part partId ws agg i p :
  find_part partId (parts (scanData agg)) = Some (i, p) →
  find_part partId (parts (scanData (foldl write agg ws))) =
    Some (i, {| p_id := p_id p; p_type := p_type p;
                p_actions := p_actions p ++ actions_for partId ws |}).
Proof.
  revert agg p. induction ws as [|w ws IH]; intros agg p Hfind; simpl.
  - rewrite Hfind. destruct p. simpl. by rewrite app_nil_r.
  - erewrite IH by by apply write_keeps_part.
    simpl. do 3 f_equal. rewrite <- app_assoc. f_equal.
    unfold actions_for. simpl. by destruct (match w with AddAction _ _ _ => _ | _ => _ end).
Qed.

(** C8: registering a resource part a second time under the same id, whatever
    type and URL the second call passes, returns the ledger of the first
    call: same parts, same action lists, same types, same requests. *)
Theorem addResourcePart_idempotent (agg : t) (partId : string)
    (partType partType' : PartType) (url url' : string) :
  addResourcePart partId partType' url'
    (addResourcePart partId partType url agg)
  = addResourcePart partId partType url agg.
Proof.
  unfold addResourcePart at 2 3.
  destruct (find_part partId (parts (scanData agg))) as [found|] eqn:Hfind.
  - by eapply addResourcePart_present.
  - eapply addResourcePart_present. simpl.
    rewrite find_part_app, Hfind. simpl. by case_decide.
Qed.

(** C10: [addAction] on a part id the ledger does not have appends a new part
    of that id, of type html unless one is given, holding the action; after
    any further writes to the ledger that part is still found at the same
    position with the same type, and its actions are the first one followed
    by those of the later [addAction] calls for that id, in call order. *)
Theorem addAction_creates_then_appends (agg : t) (partId : string)
    (action : Action) (partType : option PartType) (later : list Write) :
  find_part partId (parts (scanData agg)) = None →
  let agg1 := addAction partId action partType agg in
  parts (scanData agg1) =
    parts (scanData agg) ++
      [ {| p_id := partId; p_type := default html partType;
           p_actions := [action] |} ]
  ∧ a_actionId action ∈ actionIdSet agg1
  ∧ find_part partId (parts (scanData (foldl write agg1 later))) =
      Some (length (parts (scanData agg)),
            {| p_id := partId; p_type := default html partType;
               p_actions := action :: actions_for partId later |}).
Proof.
  intros Hnone agg1.
  assert (Hparts := addAction_new partId action partType agg Hnone).
  split_and!; [done|subst agg1; rewrite addAction_actionIdSet; set_solver|].
  fold agg1 in Hparts.
  assert (Hfind1 : find_part partId (parts (scanData agg1)) =
            Some (length (parts (scanData agg)),
                  {| p_id := partId; p_type := default html partType;
                     p_actions := [action] |})).
  { rewrite Hparts, find_part_app, Hnone. simpl. by case_decide. }
  by rewrite (writes_keep_part _ later _ _ _ Hfind1).
Qed.

Lemma addAction_creates_then_appends_witness :
  let a k := {| a_actionId := k; a_type := "input.value"; a_data := "id=user" |} in
  find_part "part_html_main"
    (parts (scanData (foldl write (addAction "part_html_main" (a "action_1_a") None new)
       [AddResourcePart "part_js_1" js "https://x/a.js";
        AddAction "part_html_main" (a "action_2_b") (Some css);
        AddAction "part_js_1" (a "action_3_c") None;
        AddAction "part_html_main" (a "action_4_d") None]))) =
  Some (0, {| p_id := "part_html_main"; p_type := html;
              p_actions := [a "action_1_a"; a "action_2_b"; a "action_4_d"] |}).
Proof.
  intros a.
  exact (proj2 (proj2 (addAction_creates_then_appends new "part_html_main"
                         (a "action_1_a") None _ eq_refl))).
Defined.
End Ledger.

(** ** Linkage statistics *)

Section Linkage.
Import ResultAggregator.

Lemma linked_le_total (agg : t) :
  (linkedRequests (validateLinkage agg) ≤ length (requests (scanData agg)))%nat.
Proof. simpl. apply List.filter_length_le. Qed.

Lemma linked_plus_unlinked (agg : t) :
  (linkedRequests (validateLinkage agg) + unlinkedRequests (validateLinkage agg))%nat
  = length (requests (scanData agg)).
Proof. pose proof (linked_le_total agg). simpl in *. lia. Qed.

(** With at least one request the rate is a finite number between 0 and 100. *)
Lemma linkageRate_bounds (agg : t) :
  requests (scanData agg) ≠ [] →
  ∃ q, linkageRate (getLinkageStats agg) = Js.Finite q ∧ (0 <= q)%Q ∧ (q <= 100)%Q.
Proof.
  intros Hne. pose proof (linked_le_total agg) as Hle.
  unfold getLinkageStats. cbn [linkageRate].
  destruct (length (requests (scanData agg))) as [|n] eqn:Hlen.
  { by destruct (requests (scanData agg)). }
  eexists. split; [reflexivity|].
  rewrite <- Pos.of_nat_succ.
  unfold Qle. cbn [Qnum Qden Qmult].
  rewrite Pos.mul_1_r, Zpos_P_of_succ_nat. split; lia.
Qed.

(** C2: on a ledger without requests [getLinkageStats] divides zero by zero:
    its [linkageRate] is NaN, not 0; the report generator, which guards the
    division, gives 0 on the same data. *)
Theorem linkageRate_without_requests (agg : t) :
  requests (scanData agg) = [] →
  linkageRate (getLinkageStats agg) = Js.NaN
  ∧ linkageRate (getLinkageStats agg) ≠ Js.Finite 0
  ∧ LinkageReport.linkageRate (getResults agg) = Js.Finite 0.
Proof.
  intros Hnone. unfold getLinkageStats, LinkageReport.linkageRate, getResults.
  cbn [linkageRate validateLinkage linkedRequests]. rewrite Hnone. by simpl.
Qed.

Lemma linkageRate_without_requests_witness :
  linkageRate (getLinkageStats new) = Js.NaN
  ∧ linkageRate (getLinkageStats new) ≠ Js.Finite 0
  ∧ LinkageReport.linkageRate (getResults new) = Js.Finite 0.
Proof. apply (linkageRate_without_requests new). reflexivity. Defined.

End Linkage.

(** ** The context stack *)

Section Context.
Import InputMonitor Scan.

Lemma context_cleanup_other (id : string) (w : Window) :
  last (__actionIdStack w) ≠ Some id → context_cleanup id w = w.
Proof.
  intros Hne. unfold context_cleanup.
  rewrite bool_decide_eq_false_2; [done|]. by intros [_ ?].
Qed.

Lemma context_cleanup_top (id : string) (w : Window) :
  last (__actionIdStack w) = Some id →
  __actionIdStack (context_cleanup id w) = removelast (__actionIdStack w)
  ∧ __currentActionId (context_cleanup id w) = last (removelast (__actionIdStack w)).
Proof.
  intros Htop. unfold context_cleanup.
  rewrite bool_decide_eq_true_2; [done|]. split; [|done].
  destruct (__actionIdStack w); [done|simpl; lia].
Qed.

Lemma perform_window (s : state) (c : Call) : window (perform s c) = window s.
Proof. by destruct c. Qed.

Lemma perform_all_window (calls : list Call) (s : state) :
  window (foldl perform s calls) = window s.
Proof.
  revert s. induction calls as [|c calls IH]; intros s; simpl; [done|].
  by rewrite IH, perform_window.
Qed.

Lemma hook_window (h : Window → Window * list Call) (s : state) :
  window (hook h s) = (h (window s)).1.
Proof. unfold hook. destruct (h (window s)). by rewrite perform_all_window. Qed.

Lemma cause_window (s : state) (e : Event) (id : string) :
  cause_id e = Some id → window (step s e) = push_context id (window s).
Proof.
  destruct e; simpl; intros [= <-]; by rewrite hook_window.
Qed.

Lemma set_window_same (s : state) : set_window (window s) s = s.
Proof. by destruct s. Qed.

(** C7: when a cause [A] and then a cause [B] of another id have been pushed,
    the timer of [A] changes nothing and [B] stays the current context; in
    any state, a timer that changes the stack found its own id on top and
    removed exactly that entry. *)
Theorem guarded_pop (s : state) (eA eB : Event) (A B : string) :
  cause_id eA = Some A → cause_id eB = Some B → A ≠ B →
  let sAB := run s [eA; eB] in
  step sAB (TimerFired A) = sAB
  ∧ __currentActionId (window sAB) = Some B
  ∧ last (__actionIdStack (window sAB)) = Some B
  ∧ ∀ (s' : state) (id : string),
      __actionIdStack (window (step s' (TimerFired id))) ≠ __actionIdStack (window s') →
      last (__actionIdStack (window s')) = Some id
      ∧ __actionIdStack (window (step s' (TimerFired id)))
        = removelast (__actionIdStack (window s')).
Proof.
  intros HA HB Hne sAB.
  assert (Hw : window sAB = push_context B (push_context A (window s))).
  { unfold sAB. simpl. by rewrite (cause_window _ _ _ HB), (cause_window _ _ _ HA). }
  assert (Htop : last (__actionIdStack (window sAB)) = Some B).
  { rewrite Hw. simpl. apply last_snoc. }
  split_and!.
  - simpl. rewrite context_cleanup_other; [apply set_window_same|].
    rewrite Htop. congruence.
  - by rewrite Hw.
  - done.
  - intros s' id Hchanged. simpl in *.
    destruct (decide (last (__actionIdStack (window s')) = Some id)) as [Htop'|Hother].
    + split; [done|]. by apply context_cleanup_top.
    + by rewrite context_cleanup_other in Hchanged.
Qed.

Lemma guarded_pop_witness :
  let sAB := run init [ValueRead "id=user" 1000 "aaa";
                       HandlerFired "input.addEventListener.change" "id=pw" 1001 "bbb"] in
  step sAB (TimerFired "action_1000_aaa") = sAB
  ∧ __currentActionId (window sAB) = Some "action_1001_bbb".
Proof.
  pose proof (guarded_pop init (ValueRead "id=user" 1000 "aaa")
                (HandlerFired "input.addEventListener.change" "id=pw" 1001 "bbb")
                "action_1000_aaa" "action_1001_bbb" eq_refl eq_refl) as H.
  destruct H as (H1 & H2 & _); [by vm_compute|].
  split; [exact H1|exact H2].
Defined.

End Context.

(** ** The Mapping Store *)

Section MappingStore.
Context {V : Type}.
Implicit Types (m : list (string * V)) (k : string) (v : V).

Lemma map_get_app k m1 m2 :
  Js.map_get k (m1 ++ m2) =
    match Js.map_get k m1 with
    | Some v => Some v
    | None => Js.map_get k m2
    end.
Proof.
  induction m1 as [|[k' v'] m1 IH]; simpl; [done|]. by case_decide.
Qed.

Lemma map_set_absent k v m :
  Js.map_get k m = None → Js.map_set k v m = m ++ [(k, v)].
Proof.
  induction m as [|[k' v'] m IH]; simpl; [done|].
  case_decide; [done|]. intros ?. by rewrite IH.
Qed.

Lemma map_set_present_length k v m :
  is_Some (Js.map_get k m) → length (Js.map_set k v m) = length m.
Proof.
  induction m as [|[k' v'] m IH]; simpl; [by intros [? [=]]|].
  case_decide; [done|]. intros ?. simpl. by rewrite IH.
Qed.

Lemma map_get_set_eq k v m : Js.map_get k (Js.map_set k v m) = Some v.
Proof.
  induction m as [|[k' v'] m IH]; simpl.
  - by rewrite decide_True.
  - case_decide; simpl; [by rewrite decide_True|by rewrite decide_False].
Qed.

Lemma map_get_set_ne k k' v m :
  k ≠ k' → Js.map_get k' (Js.map_set k v m) = Js.map_get k' m.
Proof.
  intros Hne. induction m as [|[k'' v''] m IH]; simpl.
  - by rewrite decide_False.
  - destruct (decide (k'' = k)) as [->|]; simpl.
    + by rewrite !decide_False.
    + by rewrite IH.
Qed.

Lemma map_get_drop_absent k m n :
  Js.map_get k m = None → Js.map_get k (drop n m) = None.
Proof.
  revert n. induction m as [|[k' v'] m IH]; intros [|n]; simpl; try done.
  case_decide; [done|]. apply IH.
Qed.

Lemma length_slice_last {A} (n : nat) (l : list A) :
  length (Js.slice_last n l) = n `min` length l.
Proof. unfold Js.slice_last. rewrite length_drop. lia. Qed.

Lemma slice_last_snoc {A} (n : nat) (l : list A) (x : A) :
  Js.slice_last (S n) (l ++ [x]) = Js.slice_last n l ++ [x].
Proof.
  unfold Js.slice_last. rewrite length_app. simpl.
  rewrite drop_app_le by lia. f_equal. f_equal. lia.
Qed.

End MappingStore.

Section Report.
Import RequestMonitor.
Implicit Types (m : list (string * string)).

Lemma reportRequestMapping_capacity url id m :
  length m ≤ 1000 → length (reportRequestMapping url id m) ≤ 1000.
Proof.
  intros Hle. unfold reportRequestMapping. case_bool_decide as Hover.
  - rewrite length_slice_last. lia.
  - lia.
Qed.

Lemma reportRequestMapping_get url id m :
  length m ≤ 1000 → Js.map_get url (reportRequestMapping url id m) = Some id.
Proof.
  intros Hle. unfold reportRequestMapping. case_bool_decide as Hover.
  - destruct (Js.map_get url m) as [old|] eqn:Hget.
    + rewrite map_set_present_length in Hover by eauto. lia.
    + rewrite map_set_absent by done.
      change 500 with (S 499). rewrite slice_last_snoc, map_get_app.
      unfold Js.slice_last. rewrite map_get_drop_absent by done.
      simpl. by rewrite decide_True.
  - apply map_get_set_eq.
Qed.

(** On a store within capacity, an insert that evicts is the insert of a new
    URL into a full store. *)
Lemma eviction_is_of_new_url url id m :
  length m ≤ 1000 → 1000 < length (Js.map_set url id m) →
  Js.map_get url m = None ∧ length m = 1000.
Proof.
  intros Hle Hover. destruct (Js.map_get url m) as [old|] eqn:Hget.
  - rewrite map_set_present_length in Hover by eauto. lia.
  - rewrite map_set_absent, length_app in Hover by done. simpl in Hover.
    split; [done|lia].
Qed.

End Report.

(** ** What one step does to each part of the state *)

Section Steps.
Import Scan.
Implicit Types (s : state) (e : Event) (c : Call).

Lemma hook_eq (h : Window → Window * list Call) s :
  hook h s = foldl perform (set_window (h (window s)).1 s) (h (window s)).2.
Proof. unfold hook. by destruct (h (window s)). Qed.

Lemma createResourcePart_monitor url ty m agg :
  RequestMonitor.pendingRequests (RequestMonitor.createResourcePart url ty m agg).1
    = RequestMonitor.pendingRequests m
  ∧ RequestMonitor.urlActionMappings (RequestMonitor.createResourcePart url ty m agg).1
    = RequestMonitor.urlActionMappings m.
Proof.
  unfold RequestMonitor.createResourcePart.
  by destruct (default other _).
Qed.

Lemma createResourcePart_ledger url ty m agg :
  requests (ResultAggregator.scanData (RequestMonitor.createResourcePart url ty m agg).2)
    = requests (ResultAggregator.scanData agg)
  ∧ ResultAggregator.actionIdSet (RequestMonitor.createResourcePart url ty m agg).2
    = ResultAggregator.actionIdSet agg.
Proof.
  unfold RequestMonitor.createResourcePart.
  destruct (default other _); simpl; try done;
    unfold ResultAggregator.addResourcePart;
    by destruct (ResultAggregator.find_part _ _).
Qed.

(** *** The ledger of requests *)

Lemma perform_ledger s c : ledger (perform s c) = ledger s.
Proof.
  destruct c; try done. unfold ledger. simpl.
  apply addAction_requests.
Qed.

Lemma perform_all_ledger (cs : list Call) s : ledger (foldl perform s cs) = ledger s.
Proof.
  revert s. induction cs as [|c cs IH]; intros s; simpl; [done|].
  by rewrite IH, perform_ledger.
Qed.

Lemma map_has_get {V} k (m : list (string * V)) (d alt : V) :
  (if Js.map_has k m then default d (Js.map_get k m) else alt)
  = default alt (Js.map_get k m).
Proof.
  unfold Js.map_has. by destruct (Js.map_get k m).
Qed.

Lemma step_ledger s e :
  ledger (step s e) =
    match e with
    | OnRequest requestId url resourceType method now rand =>
        ledger s ++
          [ {| r_actionId :=
                 default (RequestMonitor.synthetic "http" now rand) (mapping url s);
               r_url := url; r_requestSource := resourceType;
               r_method := method; r_status := -1 |} ]
    | OnResponse requestId url status =>
        match pending s !! requestId with
        | Some i => alter (RequestMonitor.set_status status) i (ledger s)
        | None =>
            match list_find (λ r, r_url r = url ∧ r_status r = (-1)%Z) (ledger s) with
            | Some (j, _) => alter (RequestMonitor.set_status status) j (ledger s)
            | None => ledger s
            end
        end
    | OnRequestFailed requestId url resourceType method now rand =>
        match pending s !! requestId with
        | Some i => alter (RequestMonitor.set_status (-999)) i (ledger s)
        | None =>
            ledger s ++
              [ {| r_actionId :=
                     default (RequestMonitor.synthetic "failed" now rand) (mapping url s);
                   r_url := url; r_requestSource := resourceType;
                   r_method := method; r_status := -999 |} ]
        end
    | _ => ledger s
    end.
Proof.
  destruct e; simpl;
    try (rewrite hook_eq; by rewrite perform_all_ledger); try done.
  - unfold ledger, mapping, mappings. simpl.
    unfold RequestMonitor.on_request.
    pose proof (createResourcePart_ledger url resourceType (monitor s) (aggregator s)) as [Hl _].
    destruct (RequestMonitor.createResourcePart _ _ _ _) as [m' agg'].
    simpl in *. by rewrite Hl, map_has_get.
  - unfold ledger, pending. simpl. unfold RequestMonitor.on_response.
    destruct (_ !! requestId); [done|]. simpl.
    unfold ResultAggregator.getResults.
    by destruct (list_find _ _) as [[]|].
  - unfold ledger, pending, mapping, mappings. simpl.
    unfold RequestMonitor.on_requestfailed.
    destruct (_ !! requestId); [done|]. simpl. by rewrite map_has_get.
Qed.

(** *** The pending requests *)

Lemma perform_pending s c : pending (perform s c) = pending s.
Proof. by destruct c. Qed.

Lemma perform_all_pending (cs : list Call) s : pending (foldl perform s cs) = pending s.
Proof.
  revert s. induction cs as [|c cs IH]; intros s; simpl; [done|].
  by rewrite IH, perform_pending.
Qed.

Lemma step_pending s e :
  pending (step s e) =
    match e with
    | OnRequest requestId _ _ _ _ _ => <[requestId := length (ledger s)]> (pending s)
    | OnResponse requestId _ _ | OnRequestFailed requestId _ _ _ _ _ =>
        delete requestId (pending s)
    | Sweep now =>
        filter (λ entry : string * nat,
                  (RequestMonitor.is_stale (now - 5 * 60 * 1000) <$> ledger s !! entry.2)
                  ≠ Some true) (pending s)
    | _ => pending s
    end.
Proof.
  destruct e; simpl;
    try (rewrite hook_eq; by rewrite perform_all_pending); try done.
  - unfold ledger, pending. simpl. unfold RequestMonitor.on_request.
    pose proof (createResourcePart_ledger url resourceType (monitor s) (aggregator s)) as [Hl _].
    pose proof (createResourcePart_monitor url resourceType (monitor s) (aggregator s)) as [Hp _].
    destruct (RequestMonitor.createResourcePart _ _ _ _) as [m' agg'].
    simpl in *. by rewrite Hl, Hp.
  - unfold pending. simpl. unfold RequestMonitor.on_response.
    destruct (_ !! requestId) eqn:Hp; [done|]. simpl.
    rewrite delete_id by done.
    unfold ResultAggregator.getResults. by destruct (list_find _ _) as [[]|].
  - unfold pending. simpl. unfold RequestMonitor.on_requestfailed.
    destruct (_ !! requestId) eqn:Hp; [done|]. simpl. by rewrite delete_id.
Qed.

(** *** The Mapping Store *)

Lemma step_mappings s e :
  mappings (step s e) =
    match e with
    | Fetch input =>
        match truthy (__currentActionId (window s)) with
        | Some id =>
            if exposed_reportRequestMapping (window s)
            then RequestMonitor.reportRequestMapping
                   (RequestMonitor.fetch_url input) id (mappings s)
            else mappings s
        | None => mappings s
        end
    | XhrSend xhr =>
        match truthy (xhrs (window s) !! xhr ≫= _capturedActionId) with
        | Some id =>
            if exposed_reportRequestMapping (window s)
            then RequestMonitor.reportRequestMapping
                   (default "undefined" (_requestUrl <$> xhrs (window s) !! xhr))
                   id (mappings s)
            else mappings s
        | None => mappings s
        end
    | Sweep now =>
        if bool_decide (50 < length (mappings s))
        then Js.slice_last 25 (mappings s)
        else mappings s
    | _ => mappings s
    end.
Proof.
  destruct e; simpl; try done.
  - rewrite hook_eq. simpl. unfold InputMonitor.report.
    by destruct (exposed_reportInputAccess _).
  - rewrite hook_eq. simpl. unfold InputMonitor.report.
    by destruct (exposed_reportInputAccess _).
  - rewrite hook_eq. simpl.
    destruct (truthy _); [|done]. by destruct (exposed_reportRequestMapping _).
  - rewrite hook_eq. simpl.
    destruct (truthy _); [|done]. by destruct (exposed_reportRequestMapping _).
  - unfold mappings. simpl. unfold RequestMonitor.on_request.
    pose proof (createResourcePart_monitor url resourceType (monitor s) (aggregator s)) as [_ Hm].
    by destruct (RequestMonitor.createResourcePart _ _ _ _) as [m' agg'].
  - unfold mappings. simpl. unfold RequestMonitor.on_response.
    destruct (_ !! requestId); [done|]. by destruct (list_find _ _) as [[]|].
  - unfold mappings. simpl. unfold RequestMonitor.on_requestfailed.
    by destruct (_ !! requestId).
Qed.

(** *** The ids of the recorded actions *)

Lemma step_actionIdSet s e :
  ResultAggregator.actionIdSet (aggregator (step s e)) =
    match cause_id e with
    | Some id =>
        if exposed_reportInputAccess (window s)
        then {[ id ]} ∪ ResultAggregator.actionIdSet (aggregator s)
        else ResultAggregator.actionIdSet (aggregator s)
    | None => ResultAggregator.actionIdSet (aggregator s)
    end.
Proof.
  destruct e; simpl; try done.
  - rewrite hook_eq. simpl. unfold InputMonitor.report.
    destruct (exposed_reportInputAccess _); simpl; [|done].
    unfold InputMonitor.reportInputAccess. by rewrite addAction_actionIdSet.
  - rewrite hook_eq. simpl. unfold InputMonitor.report.
    destruct (exposed_reportInputAccess _); simpl; [|done].
    unfold InputMonitor.reportInputAccess. by rewrite addAction_actionIdSet.
  - rewrite hook_eq. simpl.
    destruct (truthy _); [|done]. by destruct (exposed_reportRequestMapping _).
  - rewrite hook_eq. simpl.
    destruct (truthy _); [|done]. by destruct (exposed_reportRequestMapping _).
  - unfold RequestMonitor.on_request.
    pose proof (createResourcePart_ledger url resourceType (monitor s) (aggregator s)) as [_ Hm].
    by destruct (RequestMonitor.createResourcePart _ _ _ _) as [m' agg'].
  - unfold RequestMonitor.on_response.
    destruct (_ !! requestId); [done|]. simpl. by destruct (list_find _ _) as [[]|].
  - unfold RequestMonitor.on_requestfailed.
    by destruct (_ !! requestId).
Qed.

(** *** The page *)

Lemma step_window s e :
  window (step s e) =
    match e with
    | ValueRead _ now rand | HandlerFired _ _ now rand =>
        InputMonitor.push_context (InputMonitor.actionId now rand) (window s)
    | TimerFired id => InputMonitor.context_cleanup id (window s)
    | XhrOpen xhr method url => (RequestMonitor.open xhr method url (window s)).1
    | _ => window s
    end.
Proof. destruct e; simpl; try done; by rewrite hook_window. Qed.

End Steps.

(** ** The invariant of runs *)

Section Invariant.
Import Scan.
Implicit Types (s : state) (e : Event).

Lemma actionId_prefix (now : Z) (rand : string) :
  String.prefix "action_" (InputMonitor.actionId now rand) = true.
Proof. unfold InputMonitor.actionId. simpl. by destruct (Js.numeral now ++ _)%string. Qed.

Lemma invariant_init : invariant init.
Proof.
  split; try done. simpl. lia.
Qed.

Lemma step_exposed s e :
  exposed_reportInputAccess (window (step s e)) = exposed_reportInputAccess (window s)
  ∧ exposed_reportRequestMapping (window (step s e))
    = exposed_reportRequestMapping (window s).
Proof.
  rewrite step_window. destruct e; try done.
  simpl. unfold InputMonitor.context_cleanup. by case_bool_decide.
Qed.

Lemma step_ledger_length s e : length (ledger s) ≤ length (ledger (step s e)).
Proof.
  rewrite step_ledger. destruct e; try done.
  - rewrite length_app. lia.
  - destruct (pending s !! requestId); [by rewrite length_alter|].
    destruct (list_find _ _) as [[]|]; [by rewrite length_alter|done].
  - destruct (pending s !! requestId); [by rewrite length_alter|].
    rewrite length_app. lia.
Qed.

Lemma step_pending_old s e requestId i :
  pending (step s e) !! requestId = Some i →
  pending s !! requestId = Some i
  ∨ i = length (ledger s) ∧ ∃ url ty method now rand,
      e = OnRequest requestId url ty method now rand.
Proof.
  rewrite step_pending. destruct e; try by left.
  - destruct (decide (requestId0 = requestId)) as [->|Hne].
    + rewrite lookup_insert_eq. intros [= <-]. right. eauto 10.
    + rewrite lookup_insert_ne by done. by left.
  - intros [_ ?]%lookup_delete_Some. by left.
  - intros [_ ?]%lookup_delete_Some. by left.
  - intros [? _]%map_lookup_filter_Some. by left.
Qed.

Lemma invariant_step s e : invariant s → invariant (step s e).
Proof.
  intros [Hin Hmap Hcap Hlt Hinj Hids].
  pose proof (step_exposed s e) as [Hin' Hmap'].
  split.
  - by rewrite Hin'.
  - by rewrite Hmap'.
  - rewrite step_mappings. destruct e; try done.
    + destruct (truthy _); [|done]. destruct (exposed_reportRequestMapping _); [|done].
      by apply reportRequestMapping_capacity.
    + destruct (truthy _); [|done]. destruct (exposed_reportRequestMapping _); [|done].
      by apply reportRequestMapping_capacity.
    + case_bool_decide; [|done]. rewrite length_slice_last. lia.
  - intros requestId i Hp.
    pose proof (step_ledger_length s e).
    destruct (step_pending_old _ _ _ _ Hp) as [Hold|[-> (?&?&?&?&?&->)]].
    + apply Hlt in Hold. lia.
    + rewrite step_ledger, length_app. simpl. lia.
  - intros r1 r2 i Hp1 Hp2.
    destruct (step_pending_old _ _ _ _ Hp1) as [Hold1|[-> (?&?&?&?&?&->)]].
    + destruct (step_pending_old _ _ _ _ Hp2) as [Hold2|[-> (?&?&?&?&?&->)]]; [by eauto|].
      apply Hlt in Hold1. lia.
    + rewrite step_pending in Hp2.
      destruct (decide (r1 = r2)) as [|Hne]; [done|].
      rewrite lookup_insert_ne in Hp2 by done. apply Hlt in Hp2. lia.
  - intros id. rewrite step_actionIdSet.
    destruct (cause_id e) as [id'|] eqn:Hcause; [|by auto].
    destruct (exposed_reportInputAccess _); [|by auto].
    intros [->%elem_of_singleton|?]%elem_of_union; [|by auto].
    destruct e; simpl in Hcause; try done; injection Hcause as <-;
      apply actionId_prefix.
Qed.

Lemma invariant_run s (trace : list Event) : invariant s → invariant (run s trace).
Proof.
  revert s. induction trace as [|e trace IH]; intros s Hinv; [done|].
  simpl. by apply IH, invariant_step.
Qed.

Lemma invariant_reachable (trace : list Event) : invariant (run init trace).
Proof. apply invariant_run, invariant_init. Qed.

Lemma run_app s (t1 t2 : list Event) : run s (t1 ++ t2) = run (run s t1) t2.
Proof. apply foldl_app. Qed.

Lemma run_snoc s (t : list Event) e : run s (t ++ [e]) = step (run s t) e.
Proof. by rewrite run_app. Qed.

Lemma always_app (P : state → Event → Prop) s (t1 t2 : list Event) :
  always P s (t1 ++ t2) ↔ always P s t1 ∧ always P (run s t1) t2.
Proof.
  revert s. induction t1 as [|e t1 IH]; intros s; simpl; [tauto|].
  rewrite IH. tauto.
Qed.

End Invariant.

(** ** Eviction in the Mapping Store *)

Section Eviction.
Import Scan.

(** C6: in every run the store holds at most 1000 entries, its capacity.  An
    insert that triggers the eviction is the insert of a URL the store does
    not have yet, and it leaves 500 entries: the 499 latest of the store in
    insertion order, followed by the new one; what is dropped is the older
    front.  (A report for a URL already in the store rewrites its entry where
    it stands and evicts nothing.) *)
Theorem eviction_keeps_most_recent (trace : list Event) (url id : string) :
  let m := mappings (run init trace) in
  1000 < length (Js.map_set url id m) →
  let m' := RequestMonitor.reportRequestMapping url id m in
  length m ≤ 1000
  ∧ Js.map_get url m = None
  ∧ length m' = 500
  ∧ length m' ≤ 1000
  ∧ m' = drop 501 m ++ [(url, id)]
  ∧ Js.map_set url id m = take 501 m ++ m'
  ∧ Js.map_get url m' = Some id.
Proof.
  intros m Hover m'.
  pose proof (inv_capacity _ (invariant_reachable trace)) as Hcap. fold m in Hcap.
  destruct (eviction_is_of_new_url url id m Hcap Hover) as [Hnew Hfull].
  assert (Hm' : m' = drop 501 m ++ [(url, id)]).
  { unfold m', RequestMonitor.reportRequestMapping.
    rewrite bool_decide_eq_true_2 by done.
    rewrite map_set_absent by done. change 500 with (S 499).
    rewrite slice_last_snoc. unfold Js.slice_last. by rewrite Hfull. }
  split_and!; try done.
  - rewrite Hm', length_app, length_drop, Hfull. simpl. lia.
  - rewrite Hm', length_app, length_drop, Hfull. simpl. lia.
  - rewrite Hm', map_set_absent, app_assoc, take_drop by done. done.
  - by apply reportRequestMapping_get.
Qed.

Lemma eviction_keeps_most_recent_witness :
  let trace :=
    ValueRead "id=user" 1 "a"
    :: map (λ i, Fetch (InputString (Js.numeral (Z.of_nat i)))) (seq 0 1000) in
  length (RequestMonitor.reportRequestMapping "https://api.x/data" "action_1_a"
            (mappings (run init trace))) = 500.
Proof.
  intros trace.
  refine (proj1 (proj2 (proj2 (eviction_keeps_most_recent trace "https://api.x/data"
                                 "action_1_a" _)))).
  apply Nat.ltb_lt. vm_compute. reflexivity.
Defined.

(** The periodic sweep trims a store of more than 50 entries to its 25
    latest. *)
Lemma sweep_keeps_latest (s : state) (now : Z) :
  let m := mappings s in
  let m' := mappings (step s (Sweep now)) in
  length m' ≤ 50
  ∧ (50 < length m → m' = drop (length m - 25) m ∧ length m' = 25)
  ∧ (length m ≤ 50 → m' = m).
Proof.
  intros m m'. unfold m'. rewrite step_mappings. fold m.
  case_bool_decide as Hover.
  - rewrite length_slice_last. split_and!; [lia| |lia].
    intros _. split; [done|lia].
  - split_and!; [lia|lia|done].
Qed.

End Eviction.

(** ** Reporting before dispatch *)

Section Dispatch.
Import Scan.
Implicit Types (s : state) (e : Event).

Lemma observers_keep_mappings s (later : list Event) :
  always observer s later → mappings (run s later) = mappings s.
Proof.
  revert s. induction later as [|e later IH]; intros s; simpl; [done|].
  intros [Hobs Hlater]. rewrite IH by done.
  rewrite step_mappings. by destruct e.
Qed.



End Dispatch.

(** ** From a cause to the request it provokes *)

Section Causality.
Import Scan.
Implicit Types (s : state) (e : Event).

Lemma cause_id_truthy e (A : string) : cause_id e = Some A → truthy (Some A) = Some A.
Proof. destruct e; simpl; try done; by intros [= <-]. Qed.


(** While no other cause fires and its timer does not, a cause stays the
    current context and the top of the stack. *)
Lemma quiet_keeps_current (A : string) (pre : list Event) s :
  __currentActionId (window s) = Some A →
  last (__actionIdStack (window s)) = Some A →
  always (quiet A) s pre →
  __currentActionId (window (run s pre)) = Some A
  ∧ last (__actionIdStack (window (run s pre))) = Some A.
Proof.
  revert s. induction pre as [|e pre IH]; intros s Hcur Htop; simpl; [done|].
  intros [[Hnocause Hnotimer] Hpre]. apply IH; [..|done]; rewrite step_window.
  - destruct e; try done.
    rewrite context_cleanup_other; [done|]. rewrite Htop. congruence.
  - destruct e; try done.
    rewrite context_cleanup_other; [done|]. rewrite Htop. congruence.
Qed.

Lemma kept_mapping (url : string) (mid : list Event) s :
  always (keeps_mapping url) s mid → mapping url (run s mid) = mapping url s.
Proof.
  revert s. induction mid as [|e mid IH]; intros s; simpl; [done|].
  intros [Hkeep Hmid]. by rewrite IH.
Qed.


Lemma fetch_reports s (input : FetchInput) (A : string) :
  invariant s → truthy (__currentActionId (window s)) = Some A →
  calls s (Fetch input)
  = [CallReportRequestMapping (RequestMonitor.fetch_url input) A; CallOriginalFetch input]
  ∧ mapping (RequestMonitor.fetch_url input) (step s (Fetch input)) = Some A.
Proof.
  intros Hinv Hcur. unfold mapping. rewrite step_mappings. simpl.
  rewrite Hcur, (inv_mapping_exposed _ Hinv). split; [done|].
  apply reportRequestMapping_get, Hinv.
Qed.


Lemma request_takes_mapping s (url A requestId resourceType method : string)
    (now : Z) (rand : string) :
  mapping url s = Some A →
  ledger (step s (OnRequest requestId url resourceType method now rand))
  = ledger s ++ [ {| r_actionId := A; r_url := url; r_requestSource := resourceType;
                     r_method := method; r_status := -1 |} ].
Proof. intros Hmap. by rewrite step_ledger, Hmap. Qed.




End Causality.

(** ** Reporting before dispatch, and what becomes of the report *)

Section ReportBeforeDispatch.
Import Scan.
Implicit Types (s : state) (e : Event).





End ReportBeforeDispatch.

(** ** The life of a request record *)

Section Lifecycle.
Import Scan.
Implicit Types (s : state) (e : Event) (r : Request).

Lemma pending_unresolved_init : pending_unresolved init.
Proof. intros requestId i. unfold pending. simpl. by rewrite lookup_empty. Qed.

Lemma pending_unresolved_step s e :
  invariant s → pending_unresolved s → resolves_cleanly s e →
  pending_unresolved (step s e).
Proof.
  intros Hinv Hun Hclean requestId i. rewrite step_pending, step_ledger.
  destruct e; try by apply Hun.
  - destruct (decide (requestId0 = requestId)) as [->|Hne].
    + rewrite lookup_insert_eq. intros [= <-].
      by rewrite lookup_app_r, Nat.sub_diag.
    + rewrite lookup_insert_ne by done. intros Hp.
      rewrite lookup_app_l by by eapply inv_pending_lt. by eapply Hun.
  - intros [Hne Hp]%lookup_delete_Some. destruct Hclean as [_ Hclean].
    destruct (pending s !! requestId0) as [i0|] eqn:Hp0.
    + rewrite list_lookup_alter_ne; [by eapply Hun|].
      intros ->. by eapply Hne, inv_pending_inj.
    + destruct (list_find _ _) as [[j rj]|] eqn:Hfind; [|by eapply Hun].
      rewrite list_lookup_alter_ne; [by eapply Hun|].
      intros ->. by eapply Hclean.
  - intros [Hne Hp]%lookup_delete_Some.
    destruct (pending s !! requestId0) as [i0|] eqn:Hp0.
    + rewrite list_lookup_alter_ne; [by eapply Hun|].
      intros ->. by eapply Hne, inv_pending_inj.
    + rewrite lookup_app_l by by eapply inv_pending_lt. by eapply Hun.
  - intros [Hp _]%map_lookup_filter_Some. by eapply Hun.
Qed.

(** What one clean step does to a record already in the ledger. *)
Lemma clean_step_record s e i r :
  pending_unresolved s → resolves_cleanly s e →
  ledger s !! i = Some r →
  ∃ r', ledger (step s e) !! i = Some r'
    ∧ r_actionId r' = r_actionId r ∧ r_url r' = r_url r
    ∧ r_requestSource r' = r_requestSource r ∧ r_method r' = r_method r
    ∧ (r_status r ≠ (-1)%Z → r_status r' = r_status r)
    ∧ (r_status r' ≠ r_status r →
       r_status r = (-1)%Z ∧ (r_status r' = (-999)%Z ∨ (0 ≤ r_status r')%Z)).
Proof.
  intros Hun Hclean Hr.
  assert (Hsame : ∃ r', Some r = Some r'
    ∧ r_actionId r' = r_actionId r ∧ r_url r' = r_url r
    ∧ r_requestSource r' = r_requestSource r ∧ r_method r' = r_method r
    ∧ (r_status r ≠ (-1)%Z → r_status r' = r_status r)
    ∧ (r_status r' ≠ r_status r →
       r_status r = (-1)%Z ∧ (r_status r' = (-999)%Z ∨ (0 ≤ r_status r')%Z)))
    by (exists r; by split_and!).
  assert (Hwrite : ∀ j status,
    (j = i → r_status r = (-1)%Z) → (status = (-999)%Z ∨ (0 ≤ status)%Z) →
    ∃ r', alter (RequestMonitor.set_status status) j (ledger s) !! i = Some r'
    ∧ r_actionId r' = r_actionId r ∧ r_url r' = r_url r
    ∧ r_requestSource r' = r_requestSource r ∧ r_method r' = r_method r
    ∧ (r_status r ≠ (-1)%Z → r_status r' = r_status r)
    ∧ (r_status r' ≠ r_status r →
       r_status r = (-1)%Z ∧ (r_status r' = (-999)%Z ∨ (0 ≤ r_status r')%Z))).
  { intros j status Hj Hstatus. destruct (decide (j = i)) as [->|Hne].
    - rewrite list_lookup_alter_eq, Hr. simpl. eexists. split; [done|].
      split_and!; try done. { by rewrite Hj. } by split; [apply Hj|].
    - rewrite list_lookup_alter_ne, Hr by done. apply Hsame. }
  rewrite step_ledger. destruct e; try by rewrite Hr.
  - rewrite lookup_app_l, Hr by by eapply lookup_lt_Some. apply Hsame.
  - destruct Hclean as [Hstatus _].
    destruct (pending s !! requestId) as [i0|] eqn:Hp0.
    + apply Hwrite; [|by right]. intros ->.
      specialize (Hun _ _ Hp0). rewrite Hr in Hun. by injection Hun.
    + destruct (list_find _ _) as [[j rj]|] eqn:Hfind; [|by rewrite Hr].
      apply Hwrite; [|by right]. intros ->.
      apply list_find_Some in Hfind as (Hj & [_ Hst] & _). congruence.
  - destruct (pending s !! requestId) as [i0|] eqn:Hp0.
    + apply Hwrite; [|by left]. intros ->.
      specialize (Hun _ _ Hp0). rewrite Hr in Hun. by injection Hun.
    + rewrite lookup_app_l, Hr by by eapply lookup_lt_Some. apply Hsame.
Qed.

(** The records a step adds: unresolved from the request observer, failed
    from the fallback of the failure observer. *)
Lemma step_new_record s e i r' :
  length (ledger s) ≤ i → ledger (step s e) !! i = Some r' →
  i = length (ledger s)
  ∧ (r_status r' = (-1)%Z ∧ (∃ requestId url ty verb now rand,
                               e = OnRequest requestId url ty verb now rand)
     ∨ r_status r' = (-999)%Z ∧ (∃ requestId url ty verb now rand,
                                   e = OnRequestFailed requestId url ty verb now rand
                                   ∧ pending s !! requestId = None)).
Proof.
  intros Hi. rewrite step_ledger.
  assert (Hnone : ledger s !! i = None) by by apply lookup_ge_None.
  assert (Hnone' : ∀ j status,
            alter (RequestMonitor.set_status status) j (ledger s) !! i = None).
  { intros. apply lookup_ge_None. by rewrite length_alter. }
  destruct e; try by rewrite Hnone.
  - intros Hr. assert (i = length (ledger s)) as ->.
    { apply lookup_lt_Some in Hr. rewrite length_app in Hr. simpl in Hr. lia. }
    rewrite lookup_app_r, Nat.sub_diag in Hr by done. injection Hr as <-.
    split; [done|]. left. split; [done|]. eauto 10.
  - destruct (pending s !! requestId); [by rewrite Hnone'|].
    destruct (list_find _ _) as [[]|]; [by rewrite Hnone'|by rewrite Hnone].
  - destruct (pending s !! requestId) eqn:Hp; [by rewrite Hnone'|].
    intros Hr. assert (i = length (ledger s)) as ->.
    { apply lookup_lt_Some in Hr. rewrite length_app in Hr. simpl in Hr. lia. }
    rewrite lookup_app_r, Nat.sub_diag in Hr by done. injection Hr as <-.
    split; [done|]. right. split; [done|]. eauto 10.
Qed.

Lemma clean_run_record (later : list Event) s i r :
  invariant s → pending_unresolved s → always resolves_cleanly s later →
  ledger s !! i = Some r →
  ∃ r', ledger (run s later) !! i = Some r'
    ∧ r_actionId r' = r_actionId r ∧ r_url r' = r_url r
    ∧ r_requestSource r' = r_requestSource r ∧ r_method r' = r_method r
    ∧ (r_status r ≠ (-1)%Z → r_status r' = r_status r)
    ∧ (r_status r' ≠ r_status r →
       r_status r = (-1)%Z ∧ (r_status r' = (-999)%Z ∨ (0 ≤ r_status r')%Z)).
Proof.
  revert s r. induction later as [|e later IH]; intros s r Hinv Hun Hclean Hr.
  { exists r. by split_and!. }
  destruct Hclean as [Hclean Hlater].
  destruct (clean_step_record s e i r Hun Hclean Hr)
    as (r1 & Hr1 & Ha1 & Hu1 & Hs1 & Hm1 & Hfinal1 & Hwrite1).
  destruct (IH (step s e) r1) as (r2 & Hr2 & Ha2 & Hu2 & Hs2 & Hm2 & Hfinal2 & Hwrite2);
    [by apply invariant_step|by apply pending_unresolved_step|done..|].
  exists r2. split; [done|]. split_and!; try congruence.
  - intros Hterminal. rewrite Hfinal2; [by apply Hfinal1|].
    rewrite Hfinal1; done.
  - intros Hchanged. destruct (decide (r_status r1 = r_status r)) as [Heq|Hne].
    + rewrite <- Heq. apply Hwrite2. congruence.
    + destruct (Hwrite1 Hne) as [Hstart Hend]. split; [done|].
      rewrite Hfinal2; [done|]. lia.
Qed.

(** C4, as the code has it.  Take a run in which responses carry HTTP
    statuses and a response matched by URL never lands on a record that a
    transport id still answers for.  Then a record in the ledger keeps its
    action id, URL, source and method for ever; once its status is not -1
    the status never changes again; and when the status changes it changes
    from -1 to -999 or to the HTTP status.  A record enters the ledger
    with status -1 when the request observer creates it, and with -999 when
    the failure observer creates it for a transport id it does not know. *)
Theorem status_written_once (trace later : list Event) :
  always resolves_cleanly init (trace ++ later) →
  let s := run init trace in
  (∀ i r, ledger s !! i = Some r →
     ∃ r', ledger (run s later) !! i = Some r'
       ∧ r_actionId r' = r_actionId r ∧ r_url r' = r_url r
       ∧ r_requestSource r' = r_requestSource r ∧ r_method r' = r_method r
       ∧ (r_status r ≠ (-1)%Z → r_status r' = r_status r)
       ∧ (r_status r' ≠ r_status r →
          r_status r = (-1)%Z ∧ (r_status r' = (-999)%Z ∨ (0 ≤ r_status r')%Z)))
  ∧ (∀ e i r', length (ledger s) ≤ i → ledger (step s e) !! i = Some r' →
       i = length (ledger s)
       ∧ (r_status r' = (-1)%Z ∧ (∃ requestId url ty verb now rand,
                                    e = OnRequest requestId url ty verb now rand)
          ∨ r_status r' = (-999)%Z ∧ (∃ requestId url ty verb now rand,
                                        e = OnRequestFailed requestId url ty verb now rand
                                        ∧ pending s !! requestId = None))).
Proof.
  intros [Htrace Hlater]%always_app s. split.
  - intros i r Hr. apply clean_run_record; try done.
    + apply invariant_reachable.
    + clear Hlater Hr. unfold s. clear s.
      induction trace as [|e trace IH] using rev_ind; [apply pending_unresolved_init|].
      apply always_app in Htrace as [Htrace [He _]].
      rewrite run_snoc. apply pending_unresolved_step; [apply invariant_reachable|by apply IH|done].
  - intros e i r'. apply step_new_record.
Qed.

Lemma status_written_once_witness :
  let url := "https://api.x/data" in
  let trace := [ValueRead "id=username" 1000 "aaa"; Fetch (InputString url);
                OnRequest "R1" url "fetch" "GET" 1002 "zzz";
                OnResponse "R1" url 200] in
  let later := [OnResponse "R1" url 404;
                OnRequestFailed "R1" url "fetch" "GET" 1003 "yyy";
                OnResponse "R9" url 500] in
  r_status <$> ledger (run init trace) !! 0 = Some 200%Z
  ∧ r_status <$> ledger (run (run init trace) later) !! 0 = Some 200%Z.
Proof.
  intros url trace later.
  assert (Hclean : always resolves_cleanly init (trace ++ later)).
  { simpl. split_and!; try done; try lia; by vm_compute. }
  destruct (status_written_once trace later Hclean) as [Hfinal _].
  destruct (Hfinal 0 _ eq_refl) as (r' & Hr' & _ & _ & _ & _ & Hsame & _).
  split; [reflexivity|]. rewrite Hr'. simpl. f_equal. by apply Hsame.
Defined.

(** C4, as stated, fails twice.  A response whose transport id is not pending
    is matched by URL to the first unresolved record of that URL, which stays
    pending under its own id, so the response of that id writes its status a
    second time: -1, then 200, then 404.  And a failure whose transport id is
    not pending creates its record at -999, not at -1. *)
Lemma status_written_twice :
  let url := "https://api.x/poll" in
  let first := [OnRequest "R1" url "xhr" "GET" 1000 "aaa"] in
  let second := first ++ [OnResponse "R7" url 200] in
  let third := second ++ [OnResponse "R1" url 404] in
  r_status <$> ledger (run init first) !! 0 = Some (-1)%Z
  ∧ r_status <$> ledger (run init second) !! 0 = Some 200%Z
  ∧ r_status <$> ledger (run init third) !! 0 = Some 404%Z
  ∧ r_status <$> ledger (run init [OnRequestFailed "R2" url "xhr" "GET" 1001 "bbb"]) !! 0
    = Some (-999)%Z.
Proof. by vm_compute. Qed.

End Lifecycle.

(** ** Blocked calls *)

Section Blocked.
Import Scan.
Implicit Types (s : state) (e : Event) (r : Request).

(** Splits a membership in an explicit list of calls into its cases. *)
Local Ltac members H :=
  repeat first
    [ apply elem_of_app in H as [H|H]
    | apply elem_of_cons in H as [H|H]
    | apply elem_of_nil in H; destruct H ].

Lemma report_lands s e (url A : string) :
  invariant s → CallReportRequestMapping url A ∈ calls s e →
  mapping url (step s e) = Some A.
Proof.
  intros Hinv Hin. unfold mapping. rewrite step_mappings.
  pose proof (inv_mapping_exposed _ Hinv) as Hexposed.
  pose proof (inv_capacity _ Hinv) as Hcap.
  destruct e; simpl in Hin; try by apply elem_of_nil in Hin.
  - unfold InputMonitor.report in Hin.
    destruct (exposed_reportInputAccess _); by members Hin.
  - unfold InputMonitor.report in Hin.
    destruct (exposed_reportInputAccess _); by members Hin.
  - rewrite Hexposed in *.
    destruct (truthy _) as [id|]; members Hin; try done.
    injection Hin as -> ->. by apply reportRequestMapping_get.
  - by members Hin.
  - rewrite Hexposed in *.
    destruct (truthy _) as [id|]; members Hin; try done.
    injection Hin as -> ->. by apply reportRequestMapping_get.
Qed.

Lemma step_keeps_actions s e (id : string) :
  id ∈ ResultAggregator.actionIdSet (aggregator s) →
  id ∈ ResultAggregator.actionIdSet (aggregator (step s e)).
Proof.
  rewrite step_actionIdSet. destruct (cause_id e); [|done].
  destruct (exposed_reportInputAccess _); [|done].
  intros ?. apply elem_of_union. by right.
Qed.

Lemma run_keeps_actions (trace : list Event) s (id : string) :
  id ∈ ResultAggregator.actionIdSet (aggregator s) →
  id ∈ ResultAggregator.actionIdSet (aggregator (run s trace)).
Proof.
  revert s. induction trace as [|e trace IH]; intros s Hin; [done|].
  simpl. by apply IH, step_keeps_actions.
Qed.

Lemma kept_pending (requestId : string) (between : list Event) s :
  always (keeps_pending requestId) s between →
  pending (run s between) !! requestId = pending s !! requestId.
Proof.
  revert s. induction between as [|e between IH]; intros s; simpl; [done|].
  intros [Hkeep Hbetween]. by rewrite IH.
Qed.

(** Whatever happens, a record stays where it is in the ledger and only its
    status can change. *)
Lemma step_same_request s e i r :
  ledger s !! i = Some r →
  ∃ status, ledger (step s e) !! i = Some (RequestMonitor.set_status status r).
Proof.
  intros Hr.
  assert (Hsame : ∃ status, Some r = Some (RequestMonitor.set_status status r)).
  { exists (r_status r). by destruct r. }
  assert (Hwrite : ∀ j status', ∃ status,
    alter (RequestMonitor.set_status status') j (ledger s) !! i
    = Some (RequestMonitor.set_status status r)).
  { intros j status'. destruct (decide (j = i)) as [->|Hne].
    - rewrite list_lookup_alter_eq, Hr. by exists status'.
    - by rewrite list_lookup_alter_ne, Hr. }
  rewrite step_ledger. destruct e; try by rewrite Hr.
  - by rewrite lookup_app_l, Hr by by eapply lookup_lt_Some.
  - destruct (pending s !! requestId); [done|].
    destruct (list_find _ _) as [[]|]; [done|by rewrite Hr].
  - destruct (pending s !! requestId); [done|].
    by rewrite lookup_app_l, Hr by by eapply lookup_lt_Some.
Qed.

Lemma run_same_request (trace : list Event) s i r :
  ledger s !! i = Some r →
  ∃ status, ledger (run s trace) !! i = Some (RequestMonitor.set_status status r).
Proof.
  revert s r. induction trace as [|e trace IH]; intros s r Hr; simpl.
  { exists (r_status r). by destruct r. }
  destruct (step_same_request s e i r Hr) as [status1 Hr1].
  destruct (IH _ _ Hr1) as [status2 Hr2]. by exists status2.
Qed.

(** C5, as the code has it.  A call reports a URL under the id [A] of a
    recorded action.  Provided the Mapping Store still answers the URL with
    [A] when the host observes the operation ([mid]): if the request observer
    sees it and its record is still pending when the failure arrives
    ([between]), that record, created at the end of the ledger, now has
    status -999 and the id [A]; if only the failure observer sees it, the
    record it appends has both.  Either record counts as linked.  The
    observers are total functions: a failure is a status in the ledger. *)
Theorem blocked_call_is_recorded (history mid : list Event) (call : Event)
    (url A : string) :
  let s0 := run init history in
  A ∈ ResultAggregator.actionIdSet (aggregator s0) →
  CallReportRequestMapping url A ∈ calls s0 call →
  let s1 := step s0 call in
  always (keeps_mapping url) s1 mid →
  let s2 := run s1 mid in
  (∀ (requestId ty verb : string) (now : Z) (rand : string) (between : list Event)
     (ty' verb' : string) (now' : Z) (rand' : string),
     let s3 := step s2 (OnRequest requestId url ty verb now rand) in
     always (keeps_pending requestId) s3 between →
     let s4 := step (run s3 between)
                 (OnRequestFailed requestId url ty' verb' now' rand') in
     let r := {| r_actionId := A; r_url := url; r_requestSource := ty;
                 r_method := verb; r_status := -999 |} in
     ledger s4 !! length (ledger s2) = Some r
     ∧ ResultAggregator.is_linked (aggregator s4) r = true)
  ∧ (∀ (requestId ty verb : string) (now : Z) (rand : string),
       pending s2 !! requestId = None →
       let s3 := step s2 (OnRequestFailed requestId url ty verb now rand) in
       let r := {| r_actionId := A; r_url := url; r_requestSource := ty;
                   r_method := verb; r_status := -999 |} in
       last (ledger s3) = Some r
       ∧ ResultAggregator.is_linked (aggregator s3) r = true).
Proof.
  intros s0 Haction Hreport s1 Hmid s2.
  assert (Hmap : mapping url s2 = Some A).
  { unfold s2. rewrite kept_mapping by done.
    apply report_lands; [apply invariant_reachable|done]. }
  assert (Hlinked : ∀ later r, r_actionId r = A →
            ResultAggregator.is_linked (aggregator (run s2 later)) r = true).
  { intros later r Hr. unfold ResultAggregator.is_linked.
    apply bool_decide_eq_true_2. rewrite Hr.
    do 2 apply run_keeps_actions. by apply step_keeps_actions. }
  split.
  - intros requestId ty verb now rand between ty' verb' now' rand' s3 Hbetween s4 r.
    split; [|unfold s4; rewrite <- run_snoc; by apply (Hlinked (_ :: _))].
    assert (Hcreated : ledger s3 !! length (ledger s2)
                       = Some (RequestMonitor.set_status (-1) r)).
    { unfold s3. rewrite (request_takes_mapping _ _ A) by done.
      by rewrite lookup_app_r, Nat.sub_diag. }
    destruct (run_same_request between _ _ _ Hcreated) as [status Hthen].
    assert (Hpending : pending (run s3 between) !! requestId = Some (length (ledger s2))).
    { rewrite kept_pending by done. unfold s3.
      by rewrite step_pending, lookup_insert_eq. }
    unfold s4. rewrite step_ledger, Hpending, list_lookup_alter_eq, Hthen. done.
  - intros requestId ty verb now rand Hnone s3 r.
    split; [|by apply (Hlinked [OnRequestFailed requestId url ty verb now rand])].
    unfold s3. by rewrite step_ledger, Hnone, Hmap, last_snoc.
Qed.

Lemma blocked_call_is_recorded_witness :
  let url := "https://evil.x/collect" in
  let history := [HandlerFired "form.addEventListener.submit" "id=login" 2000 "aaa";
                  XhrOpen 1 "POST" url] in
  let mid := [TimerFired "action_2000_aaa"] in
  let between := [ValueRead "id=card" 2001 "bbb";
                  Fetch (InputString "https://api.x/other");
                  OnRequest "R2" "https://api.x/other" "fetch" "GET" 2002 "zzz"] in
  let trace := history ++ [XhrSend 1] ++ mid
               ++ [OnRequest "R1" url "xhr" "POST" 2003 "yyy"] ++ between
               ++ [OnRequestFailed "R1" url "xhr" "POST" 2004 "xxx"] in
  ledger (run init trace) !! 0
  = Some {| r_actionId := "action_2000_aaa"; r_url := url; r_requestSource := "xhr";
            r_method := "POST"; r_status := -999 |}.
Proof.
  intros url history mid between trace.
  assert (Haction : "action_2000_aaa"
                    ∈ ResultAggregator.actionIdSet (aggregator (run init history))).
  { apply (bool_decide_unpack _). by vm_compute. }
  assert (Hreport : CallReportRequestMapping url "action_2000_aaa"
                    ∈ calls (run init history) (XhrSend 1)).
  { vm_compute. apply elem_of_cons. by left. }
  assert (Hmid : always (keeps_mapping url) (step (run init history) (XhrSend 1)) mid).
  { simpl. split; [by vm_compute|done]. }
  destruct (blocked_call_is_recorded history mid (XhrSend 1) url "action_2000_aaa"
              Haction Hreport Hmid) as [Hseen _].
  refine (proj1 (Hseen "R1" "xhr" "POST" 2003%Z "yyy" between "xhr" "POST" 2004%Z "xxx" _)).
  simpl. unfold keeps_pending. split_and!; by vm_compute.
Defined.

(** C5, as stated, fails: the URL of a call made under [A] is reported before
    dispatch, another cause [B] then reports the same URL, and only then does
    the host see the first request and its failure.  The ledger ends with one
    failed record, under the id of [B]; none has the id of [A]. *)
Lemma blocked_call_under_later_cause :
  let url := "https://evil.x/collect" in
  let eA := HandlerFired "form.addEventListener.submit" "id=login" 2000 "aaa" in
  let eB := ValueRead "id=card" 2001 "bbb" in
  let before := [eA; XhrOpen 1 "POST" url] in
  let trace := before ++ [XhrSend 1; eB; Fetch (InputString url);
                          OnRequest "R1" url "xhr" "POST" 2002 "zzz";
                          OnRequestFailed "R1" url "xhr" "POST" 2003 "yyy"] in
  cause_id eA = Some "action_2000_aaa"
  ∧ calls (run init before) (XhrSend 1)
    = [CallReportRequestMapping url "action_2000_aaa"; CallOriginalSend 1]
  ∧ ledger (run init trace)
    = [ {| r_actionId := "action_2001_bbb"; r_url := url; r_requestSource := "xhr";
           r_method := "POST"; r_status := -999 |} ]
  ∧ "action_2001_bbb" ≠ "action_2000_aaa".
Proof. by vm_compute. Qed.

End Blocked.

(** ** The model at work *)

Section Scenarios.
Import Scan.

Example split_action_id :
  Js.split "_" "action_1700000000000_k3j9x2a1b"
  = ["action"; "1700000000000"; "k3j9x2a1b"].
Proof. reflexivity. Qed.

Example parseInt_timestamp :
  Js.parseInt "1700000000000" = Some 1700000000000%Z
  ∧ Js.parseInt "k3j9x2a1b" = None
  ∧ Js.parseInt "  -42px" = Some (-42)%Z
  ∧ Js.parseInt "0x1F" = Some 31%Z.
Proof. by vm_compute. Qed.

Example numeral_of_zero_and_negative :
  Js.numeral 0 = "0" ∧ Js.numeral (-5) = "-5" ∧ Js.numeral 1700000000000 = "1700000000000".
Proof. by vm_compute. Qed.

Example map_set_keeps_position :
  Js.map_set "a" "3" [("a", "1"); ("b", "2")] = [("a", "3"); ("b", "2")]
  ∧ Js.map_set "c" "3" [("a", "1"); ("b", "2")] = [("a", "1"); ("b", "2"); ("c", "3")].
Proof. by vm_compute. Qed.

(** A value is read, the page fetches within the grace window, the response
    is 200: one linked request. *)
Example read_then_fetch :
  let url := "https://api.x/data" in
  let s := run init [ValueRead "id=username" 1 "a"; Fetch (InputString url);
                     OnRequest "R1" url "fetch" "GET" 2 "z";
                     OnResponse "R1" url 200; TimerFired "action_1_a"] in
  ledger s = [ {| r_actionId := "action_1_a"; r_url := url; r_requestSource := "fetch";
                  r_method := "GET"; r_status := 200 |} ]
  ∧ parts (ResultAggregator.scanData (aggregator s))
    = [ {| p_id := "part_html_main"; p_type := html;
           p_actions := [ {| a_actionId := "action_1_a"; a_type := "input.value";
                             a_data := "id=username" |} ] |};
        {| p_id := "part_other_1"; p_type := other; p_actions := [] |} ]
  ∧ ResultAggregator.linkageRate (ResultAggregator.getLinkageStats (aggregator s))
    = Js.Finite (100 # 1)
  ∧ __currentActionId (window s) = None
  ∧ pending s = ∅.
Proof. by vm_compute. Qed.

(** Three static resources load without a cause next to one linked request:
    three synthetic ids, a rate of 25. *)
Example static_resources_are_unlinked :
  let url := "https://api.x/data" in
  let s := run init [OnRequest "R1" "https://x/app.css" "stylesheet" "GET" 1 "a";
                     OnRequest "R2" "https://x/app.js" "script" "GET" 2 "b";
                     OnRequest "R3" "https://x/logo.png" "image" "GET" 3 "c";
                     ValueRead "id=username" 4 "d"; Fetch (InputString url);
                     OnRequest "R4" url "fetch" "GET" 5 "e"] in
  map r_actionId (ledger s) = ["http_1_a"; "http_2_b"; "http_3_c"; "action_4_d"]
  ∧ map p_id (parts (ResultAggregator.scanData (aggregator s)))
    = ["part_css_1"; "part_js_1"; "part_image_1"; "part_html_main"; "part_other_1"]
  ∧ ResultAggregator.validateLinkage (aggregator s)
    = {| ResultAggregator.linkedRequests := 1;
         ResultAggregator.unlinkedRequests := 3;
         ResultAggregator.totalActions := 1 |}
  ∧ ResultAggregator.linkageRate (ResultAggregator.getLinkageStats (aggregator s))
    = Js.Finite (100 # 4).
Proof. by vm_compute. Qed.

(** The sweep forgets a pending record whose id carries a timestamp older
    than five minutes, and keeps the record itself. *)
Example sweep_forgets_stale_pending :
  let s := run init [OnRequest "R1" "https://x/slow" "xhr" "GET" 1000 "a";
                     OnRequest "R2" "https://x/fast" "xhr" "GET" 400000 "b";
                     Sweep 400001] in
  map_to_list (pending s) = [("R2", 1)]
  ∧ map r_status (ledger s) = [(-1)%Z; (-1)%Z].
Proof. by vm_compute. Qed.

End Scenarios.

(** * Further properties *)
(** ** The shape of reachable states *)

Section StoreShape.
Context {V : Type}.
Implicit Types (m : list (string * V)) (k : string) (v : V).

Lemma map_get_None_keys k m : Js.map_get k m = None ↔ k ∉ map fst m.
Proof.
  induction m as [|[k' v'] m IH]; simpl.
  - split; [intros _ []%elem_of_nil|done].
  - rewrite not_elem_of_cons. destruct (decide (k' = k)) as [->|Hne].
    + split; [done|]. by intros [[] _].
    + rewrite IH. split; [by split|by intros [_ ?]].
Qed.

Lemma map_get_Some_elem k v m : Js.map_get k m = Some v → (k, v) ∈ m.
Proof.
  induction m as [|[k' v'] m IH]; simpl; [done|].
  destruct (decide (k' = k)) as [->|Hne].
  - intros [= ->]. by left.
  - intros ?. right. by apply IH.
Qed.

Lemma map_get_elem_NoDup k v m :
  NoDup (map fst m) → (k, v) ∈ m → Js.map_get k m = Some v.
Proof.
  induction m as [|[k' v'] m IH]; simpl.
  - by intros _ ?%elem_of_nil.
  - intros [Hk Hm]%NoDup_cons [[= -> ->]|Hin]%elem_of_cons.
    + by rewrite decide_True.
    + rewrite decide_False; [by apply IH|].
      intros ->. apply Hk. apply (list_elem_of_fmap_2 fst) in Hin. done.
Qed.

Lemma map_set_keys k v m :
  map fst (Js.map_set k v m)
  = if Js.map_get k m is Some _ then map fst m else map fst m ++ [k].
Proof.
  induction m as [|[k' v'] m IH]; simpl; [done|].
  destruct (decide (k' = k)) as [->|Hne]; simpl; [done|].
  rewrite IH. by destruct (Js.map_get k m).
Qed.

Lemma map_set_NoDup k v m : NoDup (map fst m) → NoDup (map fst (Js.map_set k v m)).
Proof.
  intros Hm. rewrite map_set_keys.
  destruct (Js.map_get k m) eqn:Hget; [done|].
  apply NoDup_app. split_and!; [done| |apply NoDup_singleton].
  intros k' Hin ->%list_elem_of_singleton. by apply map_get_None_keys in Hget.
Qed.

Lemma elem_of_map_set k v m (entry : string * V) :
  entry ∈ Js.map_set k v m → entry = (k, v) ∨ entry ∈ m.
Proof.
  induction m as [|[k' v'] m IH]; simpl.
  - intros ->%list_elem_of_singleton. by left.
  - destruct (decide (k' = k)) as [->|Hne].
    + intros [->|?]%elem_of_cons; [by left|]. right. by right.
    + intros [->|Hin]%elem_of_cons; [right; by left|].
      destruct (IH Hin) as [->|?]; [by left|]. right. by right.
Qed.

Lemma slice_last_NoDup (n : nat) m :
  NoDup (map fst m) → NoDup (map fst (Js.slice_last n m)).
Proof.
  unfold Js.slice_last. intros Hm.
  change (map fst (drop ?k m)) with (fst <$> drop k m). rewrite fmap_drop.
  eapply sublist_NoDup; [done|]. apply sublist_drop.
Qed.

Lemma elem_of_slice_last {A} (n : nat) (l : list A) (x : A) :
  x ∈ Js.slice_last n l → x ∈ l.
Proof. unfold Js.slice_last. intros Hin. by eapply subseteq_drop. Qed.

End StoreShape.

Section Numerals.

Lemma numeral_inj (n n' : Z) : Js.numeral n = Js.numeral n' → n = n'.
Proof.
  unfold Js.numeral. intros Heq. apply DecimalZ.to_int_inj.
  assert (Hsome : Some (Z.to_int n) = Some (Z.to_int n'))
    by by rewrite <- !NilEmpty.isi, Heq.
  by injection Hsome.
Qed.

Lemma resource_part_id_inj (ty ty' : PartType) (n n' : nat) :
  ty ≠ html → ty' ≠ html →
  Shape.resource_part_id ty n = Shape.resource_part_id ty' n' → ty = ty' ∧ n = n'.
Proof.
  unfold Shape.resource_part_id.
  intros Hty Hty' Heq.
  destruct ty, ty'; try done; simpl in Heq; try discriminate Heq;
    injection Heq as Heq; apply numeral_inj in Heq; (split; [done|lia]).
Qed.

Lemma resource_part_id_not_main (ty : PartType) (n : nat) :
  ty ≠ html → Shape.resource_part_id ty n ≠ "part_html_main".
Proof. unfold Shape.resource_part_id. by destruct ty. Qed.

Lemma type_name_inj (ty ty' : PartType) :
  RequestMonitor.type_name ty = RequestMonitor.type_name ty' → ty = ty'.
Proof. by destruct ty, ty'. Qed.

End Numerals.

Section ShapeSteps.
Import Scan.
Implicit Types (s : state) (e : Event).

Local Abbreviation parts_of s := (parts (ResultAggregator.scanData (aggregator s))).
Local Abbreviation counter_of s := (RequestMonitor.resourcePartCounter (monitor s)).

Lemma step_cause_aggregator s e (a : Action) :
  invariant s → Shape.action_of e = Some a →
  aggregator (step s e)
  = ResultAggregator.addAction "part_html_main" a (Some html) (aggregator s)
  ∧ counter_of (step s e) = counter_of s.
Proof.
  intros Hinv Ha. pose proof (inv_input_exposed _ Hinv) as Hexposed.
  destruct e; simpl in Ha; try done; injection Ha as <-; simpl;
    rewrite hook_eq; simpl; unfold InputMonitor.report; by rewrite Hexposed.
Qed.

Lemma createResourcePart_eq (url resourceType : string) (m : RequestMonitor.t)
    (agg : ResultAggregator.t) :
  let ty := default other (RequestMonitor.resourceTypeMap resourceType) in
  let n := default 0 (RequestMonitor.resourcePartCounter m
                        !! RequestMonitor.type_name ty) + 1 in
  RequestMonitor.createResourcePart url resourceType m agg
  = match ty with
    | html => (m, agg)
    | _ =>
        ({| RequestMonitor.resourcePartCounter :=
              <[RequestMonitor.type_name ty := n]>
                (RequestMonitor.resourcePartCounter m);
            RequestMonitor.pendingRequests := RequestMonitor.pendingRequests m;
            RequestMonitor.urlActionMappings := RequestMonitor.urlActionMappings m |},
         ResultAggregator.addResourcePart (Shape.resource_part_id ty n) ty url agg)
    end.
Proof.
  intros ty n. unfold RequestMonitor.createResourcePart. fold ty.
  by destruct ty.
Qed.

Lemma step_request_parts s (requestId url resourceType verb : string)
    (now : Z) (rand : string) :
  let e := OnRequest requestId url resourceType verb now rand in
  let ty := default other (RequestMonitor.resourceTypeMap resourceType) in
  let n := default 0 (counter_of s !! RequestMonitor.type_name ty) + 1 in
  match ty with
  | html => parts_of (step s e) = parts_of s ∧ counter_of (step s e) = counter_of s
  | _ =>
      parts_of (step s e)
      = parts (ResultAggregator.scanData
                 (ResultAggregator.addResourcePart
                    (Shape.resource_part_id ty n) ty url (aggregator s)))
      ∧ counter_of (step s e) = <[RequestMonitor.type_name ty := n]> (counter_of s)
  end.
Proof.
  intros e ty n. unfold e. simpl. unfold RequestMonitor.on_request.
  rewrite createResourcePart_eq. fold ty. fold n.
  by destruct ty.
Qed.

Lemma step_other_parts s e :
  Shape.action_of e = None →
  (∀ requestId url ty verb now rand, e ≠ OnRequest requestId url ty verb now rand) →
  parts_of (step s e) = parts_of s ∧ counter_of (step s e) = counter_of s.
Proof.
  intros Hcause Hrequest. destruct e; simpl in *; try done.
  - rewrite hook_eq. simpl.
    destruct (truthy _); [|done]. by destruct (exposed_reportRequestMapping _).
  - rewrite hook_eq. simpl.
    destruct (truthy _); [|done]. by destruct (exposed_reportRequestMapping _).
  - by edestruct Hrequest.
  - unfold RequestMonitor.on_response.
    destruct (_ !! requestId); [done|]. simpl. by destruct (list_find _ _) as [[]|].
  - unfold RequestMonitor.on_requestfailed. by destruct (_ !! requestId).
Qed.

End ShapeSteps.

Section ShapeInvariant.
Import Scan.
Implicit Types (s : state) (e : Event).

Local Abbreviation parts_of s := (parts (ResultAggregator.scanData (aggregator s))).
Local Abbreviation counter_of s := (RequestMonitor.resourcePartCounter (monitor s)).
Local Abbreviation recorded s := (ResultAggregator.actionIdSet (aggregator s)).
Local Arguments step : simpl never.

Lemma truthy_Some (v : option string) (id : string) : truthy v = Some id → v = Some id.
Proof.
  destruct v as [x|]; simpl; [|done]. by destruct (decide (x = "")); intros [= ->].
Qed.

Lemma elem_of_removelast {A} (l : list A) (x : A) : x ∈ removelast l → x ∈ l.
Proof.
  destruct (decide (l = [])) as [->|Hne]; [done|].
  intros Hin. rewrite (app_removelast_last x Hne). apply elem_of_app. by left.
Qed.

Lemma last_elem_of {A} (l : list A) (x : A) : last l = Some x → x ∈ l.
Proof. intros (l' & ->)%last_Some. apply elem_of_app. right. by left. Qed.

Lemma step_recorded_cause s e (id : string) :
  invariant s → cause_id e = Some id → id ∈ recorded (step s e).
Proof.
  intros Hinv Hcause. rewrite step_actionIdSet, Hcause, (inv_input_exposed _ Hinv).
  apply elem_of_union. left. by apply elem_of_singleton.
Qed.

Lemma wellformed_init : Shape.wellformed init.
Proof.
  split; simpl; try done; try apply NoDup_nil_2.
  - intros id []%elem_of_nil.
  - intros url id []%elem_of_nil.
  - intros r []%elem_of_nil.
  - intros id. split; [by intros ?%elem_of_empty|by intros ?%elem_of_nil].
Qed.

(** The page: current context, stack and captured ids. *)
Lemma step_page_shape s e :
  invariant s → Shape.wellformed s →
  __currentActionId (window (step s e)) = last (__actionIdStack (window (step s e)))
  ∧ (∀ id, id ∈ __actionIdStack (window (step s e)) → id ∈ recorded (step s e))
  ∧ (∀ xhr x id, xhrs (window (step s e)) !! xhr = Some x →
       _capturedActionId x = Some id → id ∈ recorded (step s e)).
Proof.
  intros Hinv Hwf.
  pose proof (Shape.wf_current _ Hwf) as Hcur.
  pose proof (Shape.wf_stack _ Hwf) as Hstack.
  pose proof (Shape.wf_xhrs _ Hwf) as Hxhrs.
  assert (Hkeep : ∀ id, id ∈ recorded s → id ∈ recorded (step s e))
    by (intros; by apply step_keeps_actions).
  rewrite step_window.
  destruct e; try (split_and!; [done|by eauto|by eauto]).
  - split_and!; simpl.
    + by rewrite last_snoc.
    + intros id [?|Hnew%list_elem_of_singleton]%elem_of_app; [by eauto|subst].
      by apply step_recorded_cause.
    + by eauto.
  - split_and!; simpl.
    + by rewrite last_snoc.
    + intros id [?|Hnew%list_elem_of_singleton]%elem_of_app; [by eauto|subst].
      by apply step_recorded_cause.
    + by eauto.
  - unfold InputMonitor.context_cleanup. case_bool_decide; simpl.
    + split_and!; [done| |by eauto].
      intros id ?%elem_of_removelast. by eauto.
    + split_and!; [done|by eauto|by eauto].
  - split_and!; simpl; [done|by eauto|].
    intros xhr' x id. destruct (decide (xhr = xhr')) as [->|Hne].
    + rewrite lookup_insert_eq. intros [= <-]. simpl. intros Hid.
      apply Hkeep, Hstack, last_elem_of. by rewrite <- Hcur.
    + rewrite lookup_insert_ne by done. by eauto.
Qed.

(** The Mapping Store: one entry per URL, each under a recorded id. *)
Lemma step_store_shape s e :
  invariant s → Shape.wellformed s →
  NoDup (map fst (mappings (step s e)))
  ∧ (∀ url id, (url, id) ∈ mappings (step s e) → id ∈ recorded (step s e)).
Proof.
  intros Hinv Hwf.
  pose proof (Shape.wf_keys _ Hwf) as Hkeys.
  pose proof (Shape.wf_mappings _ Hwf) as Hmap.
  assert (Hkeep : ∀ id, id ∈ recorded s → id ∈ recorded (step s e))
    by (intros; by apply step_keeps_actions).
  assert (Hreport : ∀ url id, id ∈ recorded s →
    NoDup (map fst (RequestMonitor.reportRequestMapping url id (mappings s)))
    ∧ (∀ url' id', (url', id') ∈ RequestMonitor.reportRequestMapping url id (mappings s) →
         id' ∈ recorded (step s e))).
  { intros url id Hid. unfold RequestMonitor.reportRequestMapping.
    assert (Hin : ∀ url' id', (url', id') ∈ Js.map_set url id (mappings s) →
                    id' ∈ recorded (step s e)).
    { intros url' id' [[= -> ->]|?]%elem_of_map_set; by eauto. }
    case_bool_decide.
    - split; [by apply slice_last_NoDup, map_set_NoDup|].
      intros url' id' ?%elem_of_slice_last. by eauto.
    - split; [by apply map_set_NoDup|done]. }
  rewrite step_mappings.
  destruct e; try (split; [done|by eauto]).
  - destruct (truthy _) as [id|] eqn:Htruthy; [|split; [done|by eauto]].
    destruct (exposed_reportRequestMapping _); [|split; [done|by eauto]].
    apply Hreport. apply truthy_Some in Htruthy.
    apply (Shape.wf_stack _ Hwf), last_elem_of.
    by rewrite <- (Shape.wf_current _ Hwf).
  - destruct (truthy _) as [id|] eqn:Htruthy; [|split; [done|by eauto]].
    destruct (exposed_reportRequestMapping _); [|split; [done|by eauto]].
    apply Hreport. apply truthy_Some in Htruthy.
    destruct (xhrs (window s) !! xhr) as [x|] eqn:Hx; [|done].
    by eapply (Shape.wf_xhrs _ Hwf).
  - case_bool_decide; [|split; [done|by eauto]].
    split; [by apply slice_last_NoDup|].
    intros url id ?%elem_of_slice_last. by eauto.
Qed.

Lemma request_id_shape_mono s e (id : string) :
  Shape.request_id_shape (aggregator s) id →
  Shape.request_id_shape (aggregator (step s e)) id.
Proof. intros [?|?]; [left; by apply step_keeps_actions|by right]. Qed.

Lemma elem_of_alter_status (status : Z) (i : nat) (l : list Request) (r : Request) :
  r ∈ alter (RequestMonitor.set_status status) i l →
  ∃ r', r' ∈ l ∧ r_actionId r = r_actionId r'.
Proof.
  intros (j & Hj)%list_elem_of_lookup_1. rewrite list_lookup_alter in Hj.
  case_decide.
  - subst j. destruct (l !! i) as [r'|] eqn:Hr'; simpl in Hj; [|done].
    injection Hj as <-.
    exists r'. split; [by eapply list_elem_of_lookup_2|done].
  - exists r. split; [by eapply list_elem_of_lookup_2|done].
Qed.

(** The ledger: every record under a recorded or a synthetic id. *)
Lemma step_requests_shape s e :
  Shape.wellformed s →
  ∀ r, r ∈ ledger (step s e) →
       Shape.request_id_shape (aggregator (step s e)) (r_actionId r).
Proof.
  intros Hwf.
  pose proof (Shape.wf_requests _ Hwf) as Hreq.
  assert (Hold : ∀ r r', r' ∈ ledger s → r_actionId r = r_actionId r' →
            Shape.request_id_shape (aggregator (step s e)) (r_actionId r)).
  { intros r r' Hin ->. by apply request_id_shape_mono, Hreq. }
  assert (Hfresh : ∀ prefix now rand url, prefix ∈ ["http"; "failed"] →
    Shape.request_id_shape (aggregator (step s e))
      (default (RequestMonitor.synthetic prefix now rand) (mapping url s))).
  { intros prefix now rand url Hprefix.
    destruct (mapping url s) as [id|] eqn:Hmap; simpl.
    - left. apply step_keeps_actions. eapply (Shape.wf_mappings _ Hwf).
      by apply map_get_Some_elem.
    - right. by eauto 10. }
  assert (Hhttp : "http" ∈ ["http"; "failed"]) by (apply elem_of_cons; by left).
  assert (Hfailed : "failed" ∈ ["http"; "failed"])
    by (apply elem_of_cons; right; apply elem_of_cons; by left).
  rewrite step_ledger. destruct e; try by eauto.
  - intros r [?|Hnew%list_elem_of_singleton]%elem_of_app; [by eauto|subst].
    by apply Hfresh.
  - destruct (pending s !! requestId).
    { intros r (r' & ? & ?)%elem_of_alter_status. by eauto. }
    destruct (list_find _ _) as [[j rj]|]; [|by eauto].
    intros r (r' & ? & ?)%elem_of_alter_status. by eauto.
  - destruct (pending s !! requestId).
    { intros r (r' & ? & ?)%elem_of_alter_status. by eauto. }
    intros r [?|Hnew%list_elem_of_singleton]%elem_of_app; [by eauto|subst].
    by apply Hfresh.
Qed.

End ShapeInvariant.

Section PartsShape.
Import Scan.
Implicit Types (s : state) (e : Event).

Local Abbreviation parts_of s := (parts (ResultAggregator.scanData (aggregator s))).
Local Abbreviation counter_of s := (RequestMonitor.resourcePartCounter (monitor s)).
Local Abbreviation recorded s := (ResultAggregator.actionIdSet (aggregator s)).
Local Abbreviation actions_of s :=
  (LinkageReport.actions (ResultAggregator.scanData (aggregator s))).
Local Arguments step : simpl never.

Lemma find_part_None_ids (partId : string) (ps : list Part) :
  ResultAggregator.find_part partId ps = None ↔ partId ∉ map p_id ps.
Proof.
  unfold ResultAggregator.find_part. rewrite list_find_None, Forall_forall.
  split.
  - intros Hall (p & -> & Hp)%list_elem_of_fmap. by eapply Hall.
  - intros Hno p Hp <-. apply Hno. by apply list_elem_of_fmap_2.
Qed.

Lemma alter_part_ids (f : Part → Part) (i : nat) (ps : list Part) :
  (∀ p, p_id (f p) = p_id p) → map p_id (alter f i ps) = map p_id ps.
Proof.
  intros Hf. revert i. induction ps as [|p ps IH]; intros [|i]; simpl; try done.
  - by rewrite Hf.
  - f_equal. apply IH.
Qed.

(** The actions of all parts after an action is pushed on the part at [i]. *)
Lemma actions_alter_push (a : Action) (i : nat) (ps : list Part) (p : Part) :
  ps !! i = Some p →
  concat (map p_actions (alter (ResultAggregator.push_action a) i ps))
  = concat (map p_actions (take i ps)) ++ (p_actions p ++ [a])
    ++ concat (map p_actions (drop (S i) ps)).
Proof.
  revert i. induction ps as [|q ps IH]; intros [|i]; simpl; try done.
  - by intros [= ->].
  - intros Hi.
    change (list_alter (ResultAggregator.push_action a) i ps)
      with (alter (ResultAggregator.push_action a) i ps).
    rewrite (IH _ Hi). apply app_assoc.
Qed.

Lemma actions_split (i : nat) (ps : list Part) (p : Part) :
  ps !! i = Some p →
  concat (map p_actions ps)
  = concat (map p_actions (take i ps)) ++ p_actions p
    ++ concat (map p_actions (drop (S i) ps)).
Proof.
  revert i. induction ps as [|q ps IH]; intros [|i]; simpl; try done.
  - by intros [= ->].
  - intros Hi. rewrite (IH _ Hi) at 1. apply app_assoc.
Qed.

Lemma addAction_actions_elem (partId : string) (a a' : Action)
    (partType : option PartType) (agg : ResultAggregator.t) :
  a' ∈ LinkageReport.actions (ResultAggregator.scanData
                                (ResultAggregator.addAction partId a partType agg))
  ↔ a' = a ∨ a' ∈ LinkageReport.actions (ResultAggregator.scanData agg).
Proof.
  unfold LinkageReport.actions, ResultAggregator.addAction.
  destruct (ResultAggregator.find_part _ _) as [[i p]|] eqn:Hfind; simpl.
  - apply find_part_lt in Hfind.
    rewrite (actions_alter_push _ _ _ _ Hfind), (actions_split _ _ _ Hfind).
    rewrite !elem_of_app, list_elem_of_singleton. tauto.
  - rewrite alter_app_r_alt, Nat.sub_diag by done. simpl.
    rewrite map_app, concat_app. simpl.
    rewrite !elem_of_app, list_elem_of_singleton. tauto.
Qed.

Lemma part_shape_mono (counter counter' : gmap string nat) (p : Part) :
  (∀ name, default 0 (counter !! name) ≤ default 0 (counter' !! name)) →
  Shape.part_shape counter p → Shape.part_shape counter' p.
Proof.
  intros Hle [?|(? & ? & n & ? & ? & ?)]; [by left|].
  right. split_and!; try done. exists n. split; [done|].
  specialize (Hle (RequestMonitor.type_name (p_type p))). lia.
Qed.

(** The id of the next resource part of a type is not in the ledger yet. *)
Lemma resource_part_fresh s (ty : PartType) :
  Shape.wellformed s → ty ≠ html →
  ResultAggregator.find_part
    (Shape.resource_part_id ty
       (default 0 (counter_of s !! RequestMonitor.type_name ty) + 1))
    (parts_of s) = None.
Proof.
  intros Hwf Hty. apply find_part_None_ids.
  intros (p & Hid & Hp)%list_elem_of_fmap.
  pose proof (Shape.wf_parts _ Hwf) as Hshape.
  rewrite Forall_forall in Hshape.
  destruct (Hshape p Hp) as [[Hmain _]|(_ & Hty' & n & Hn & _ & Hle)].
  - rewrite Hmain in Hid. by eapply resource_part_id_not_main.
  - rewrite Hn in Hid. apply resource_part_id_inj in Hid as [Htype Hnum]; [|done..].
    rewrite <- Htype in Hle. lia.
Qed.

Lemma step_parts_shape s e :
  invariant s → Shape.wellformed s →
  NoDup (map p_id (parts_of (step s e)))
  ∧ Forall (Shape.part_shape (counter_of (step s e))) (parts_of (step s e))
  ∧ (∀ id, id ∈ recorded (step s e) ↔ id ∈ map a_actionId (actions_of (step s e))).
Proof.
  intros Hinv Hwf.
  pose proof (Shape.wf_part_ids _ Hwf) as Hids.
  pose proof (Shape.wf_parts _ Hwf) as Hshape.
  pose proof (Shape.wf_actions _ Hwf) as Hactions.
  destruct (Shape.action_of e) as [a|] eqn:Ha.
  { (* a cause: the action goes to the main part *)
    destruct (step_cause_aggregator s e a Hinv Ha) as [-> ->].
    split_and!.
    - unfold ResultAggregator.addAction.
      destruct (ResultAggregator.find_part _ _) as [[i p]|] eqn:Hfind; simpl.
      + by rewrite alter_part_ids.
      + rewrite alter_app_r_alt, Nat.sub_diag by done. simpl.
        rewrite map_app. simpl. apply NoDup_app. split_and!; [done| |apply NoDup_singleton].
        intros id Hin ->%list_elem_of_singleton.
        by apply find_part_None_ids in Hfind.
    - unfold ResultAggregator.addAction.
      destruct (ResultAggregator.find_part _ _) as [[i p]|] eqn:Hfind; simpl.
      + apply Forall_alter; [done|]. intros p' Hp'.
        pose proof (find_part_lt _ _ _ _ Hfind) as Hp.
        assert (p' = p) as -> by congruence.
        left. split; [by apply find_part_id in Hfind|].
        rewrite Forall_forall in Hshape.
        destruct (Hshape p) as [[_ ?]|(_ & Hty & n & Hn & _)];
          [by eapply list_elem_of_lookup_2|done|].
        apply find_part_id in Hfind. rewrite Hfind in Hn.
        symmetry in Hn. by apply resource_part_id_not_main in Hn.
      + rewrite alter_app_r_alt, Nat.sub_diag by done. simpl.
        apply Forall_app. split; [done|]. apply Forall_singleton. by left.
    - intros id. rewrite addAction_actionIdSet, elem_of_union, elem_of_singleton.
      rewrite Hactions. rewrite !list_elem_of_fmap. split.
      + intros [->|(a' & -> & Ha')].
        * exists a. split; [done|]. apply addAction_actions_elem. by left.
        * exists a'. split; [done|]. apply addAction_actions_elem. by right.
      + intros (a' & -> & [->|Ha']%addAction_actions_elem); [by left|].
        right. by exists a'. }
  assert (Hsame : recorded (step s e) = recorded s).
  { rewrite step_actionIdSet. destruct e; try done; by simpl in Ha. }
  assert (Hcase : (∃ requestId url ty verb now rand,
                     e = OnRequest requestId url ty verb now rand)
                  ∨ (∀ requestId url ty verb now rand,
                       e ≠ OnRequest requestId url ty verb now rand)).
  { destruct e; (by left; eauto 10) || (by right). }
  destruct Hcase as [(requestId & url & rt & verb & now & rand & ->)|Hother].
  2:{ destruct (step_other_parts s e Ha) as [Hparts Hcounter]; [done|].
      rewrite Hsame. unfold LinkageReport.actions. by rewrite Hparts, Hcounter. }
  pose proof (step_request_parts s requestId url rt verb now rand) as Hstep.
  cbv zeta in Hstep.
  set (ty := default other (RequestMonitor.resourceTypeMap rt)) in *.
  assert (Hmono : ∀ name,
    default 0 (counter_of s !! name)
    ≤ default 0 (<[RequestMonitor.type_name ty :=
                     default 0 (counter_of s !! RequestMonitor.type_name ty) + 1]>
                   (counter_of s) !! name)).
  { intros name. destruct (decide (RequestMonitor.type_name ty = name)) as [<-|Hne].
    - rewrite lookup_insert_eq. simpl. lia.
    - by rewrite lookup_insert_ne. }
  assert (Hresource : ty ≠ html →
    parts_of (step s (OnRequest requestId url rt verb now rand))
    = parts_of s ++ [ {| p_id := Shape.resource_part_id ty
                             (default 0 (counter_of s !! RequestMonitor.type_name ty) + 1);
                         p_type := ty; p_actions := [] |} ]
    ∧ counter_of (step s (OnRequest requestId url rt verb now rand))
      = <[RequestMonitor.type_name ty :=
            default 0 (counter_of s !! RequestMonitor.type_name ty) + 1]> (counter_of s)).
  { intros Hty. pose proof (resource_part_fresh s ty Hwf Hty) as Hfresh.
    unfold ResultAggregator.addResourcePart in Hstep. rewrite Hfresh in Hstep.
    by destruct ty. }
  assert (Hhtml_or : ty = html ∨ ty ≠ html) by (destruct ty; (by left) || (by right)).
  destruct Hhtml_or as [Hhtml|Hty].
  { rewrite Hhtml in Hstep. destruct Hstep as [Hparts Hcounter].
    rewrite Hsame. unfold LinkageReport.actions. by rewrite Hparts, Hcounter. }
  destruct (Hresource Hty) as [Hparts Hcounter]. rewrite Hsame.
  unfold LinkageReport.actions. rewrite Hparts, Hcounter. split_and!.
  - rewrite map_app. simpl. apply NoDup_app. split_and!; [done| |apply NoDup_singleton].
    intros id Hin ->%list_elem_of_singleton.
    by apply (find_part_None_ids _ (parts_of s)) in Hin; [|apply resource_part_fresh].
  - apply Forall_app. split.
    + eapply Forall_impl; [done|]. intros p. by apply part_shape_mono.
    + apply Forall_singleton. right. simpl. split_and!; [done..|].
      eexists. split; [done|]. rewrite lookup_insert_eq. simpl. lia.
  - intros id. rewrite Hactions. unfold LinkageReport.actions.
    rewrite !map_app, concat_app. simpl. by rewrite app_nil_r.
Qed.

Lemma wellformed_step s e :
  invariant s → Shape.wellformed s → Shape.wellformed (step s e).
Proof.
  intros Hinv Hwf.
  destruct (step_page_shape s e Hinv Hwf) as (? & ? & ?).
  destruct (step_store_shape s e Hinv Hwf) as (? & ?).
  destruct (step_parts_shape s e Hinv Hwf) as (? & ? & ?).
  split; try done. by apply step_requests_shape.
Qed.

Lemma wellformed_run s (trace : list Event) :
  invariant s → Shape.wellformed s → Shape.wellformed (run s trace).
Proof.
  revert s. induction trace as [|e trace IH]; intros s Hinv Hwf; [done|].
  simpl. apply IH; [by apply invariant_step|by apply wellformed_step].
Qed.

Lemma wellformed_reachable (trace : list Event) : Shape.wellformed (run init trace).
Proof. apply wellformed_run; [apply invariant_init|apply wellformed_init]. Qed.

End PartsShape.

(** ** Synthetic ids and the linked count *)

Section Synthetic.
Import Scan.

Lemma action_prefix_excludes (id : string) :
  String.prefix "action_" id = true →
  String.prefix "http_" id = false ∧ String.prefix "failed_" id = false.
Proof.
  destruct id as [|c id]; [done|]. intros Haction.
  change (String.prefix "action_" (String c id))
    with (if ascii_dec "a" c then String.prefix "ction_" id else false) in Haction.
  destruct (ascii_dec "a" c) as [<-|]; [|done]. split; reflexivity.
Qed.

(** C9: an id made for a request without cause starts with [http_] or
    [failed_] and never with [action_], while every id of a recorded action
    starts with [action_]; so no recorded action has that id, and a request
    bearing it is not counted as linked but listed as unlinked.  In the
    ledger of every run the records [validateLinkage] counts as linked are
    those whose id starts with neither [http_] nor [failed_]: its linked
    count and the number of records with such an id add up to the number of
    records, its unlinked count is the number of records with such an id, and
    the numerator of the linkage rate of [getLinkageStats] is the number of
    the other records. *)
Theorem synthetic_ids_are_unlinked (trace : list Event) (prefix : string)
    (now : Z) (rand : string) :
  prefix ∈ ["http"; "failed"] →
  let id := RequestMonitor.synthetic prefix now rand in
  let agg := aggregator (run init trace) in
  let synthetic_id (r : Request) :=
    String.prefix "http_" (r_actionId r) || String.prefix "failed_" (r_actionId r) in
  let synthetic_count := length (List.filter synthetic_id (ledger (run init trace))) in
  String.prefix (prefix ++ "_") id = true
  ∧ String.prefix "action_" id = false
  ∧ (∀ a, a ∈ ResultAggregator.actionIdSet agg →
       String.prefix "action_" a = true ∧ a ≠ id)
  ∧ (∀ r, r ∈ ledger (run init trace) → r_actionId r = id →
       ResultAggregator.is_linked agg r = false
       ∧ r ∈ ResultAggregator.getUnlinkedRequests agg
       ∧ (r ∉ List.filter (ResultAggregator.is_linked agg) (ledger (run init trace)))
       ∧ synthetic_id r = true)
  ∧ (∀ r, r ∈ ledger (run init trace) →
       ResultAggregator.is_linked agg r = negb (synthetic_id r))
  ∧ ResultAggregator.linkedRequests (ResultAggregator.validateLinkage agg)
    + synthetic_count = length (ledger (run init trace))
  ∧ ResultAggregator.unlinkedRequests (ResultAggregator.validateLinkage agg)
    = synthetic_count
  ∧ ResultAggregator.linkageRate (ResultAggregator.getLinkageStats agg)
    = Js.times (Js.div_counts (length (ledger (run init trace)) - synthetic_count)
                  (length (ledger (run init trace)))) 100.
Proof.
  intros Hprefix id agg synthetic_id synthetic_count.
  assert (Hno : String.prefix "action_" id = false).
  { unfold id, RequestMonitor.synthetic.
    apply elem_of_cons in Hprefix as [->|Hprefix]; [done|].
    apply elem_of_cons in Hprefix as [->|Hprefix]; [done|].
    by apply elem_of_nil in Hprefix. }
  assert (Hids : ∀ a, a ∈ ResultAggregator.actionIdSet agg →
            String.prefix "action_" a = true ∧ a ≠ id).
  { intros a Ha. pose proof (inv_action_ids _ (invariant_reachable trace) a Ha).
    split; [done|]. intros ->. congruence. }
  assert (Hunlinked : ∀ r, r_actionId r = id → ResultAggregator.is_linked agg r = false).
  { intros r Hr. unfold ResultAggregator.is_linked.
    apply bool_decide_eq_false_2. rewrite Hr. intros Hin.
    by destruct (Hids _ Hin). }
  assert (Hown : String.prefix (prefix ++ "_") id = true).
  { unfold id, RequestMonitor.synthetic.
    apply elem_of_cons in Hprefix as [->|Hprefix];
      [simpl; by destruct (Js.numeral now ++ _)%string|].
    apply elem_of_cons in Hprefix as [->|Hprefix];
      [simpl; by destruct (Js.numeral now ++ _)%string|].
    by apply elem_of_nil in Hprefix. }
  assert (Hsynthetic : ∀ p t u, p ∈ ["http"; "failed"] → ∀ r,
            r_actionId r = RequestMonitor.synthetic p t u → synthetic_id r = true).
  { intros p t u Hp r Hr. unfold synthetic_id, RequestMonitor.synthetic in *. rewrite Hr.
    apply elem_of_cons in Hp as [->|Hp];
      [simpl; by destruct (Js.numeral t ++ _)%string|].
    apply elem_of_cons in Hp as [->|Hp];
      [simpl; by destruct (Js.numeral t ++ _)%string|].
    by apply elem_of_nil in Hp. }
  assert (Hsplit : ∀ r, r ∈ ledger (run init trace) →
            ResultAggregator.is_linked agg r = negb (synthetic_id r)).
  { intros r Hr.
    destruct (Shape.wf_requests _ (wellformed_reachable trace) r Hr)
      as [Hin|(p & t & u & Hp & Hr')].
    - destruct (action_prefix_excludes (r_actionId r)) as [Hh Hf].
      { by apply (inv_action_ids _ (invariant_reachable trace)). }
      unfold synthetic_id. rewrite Hh, Hf. by apply bool_decide_eq_true_2.
    - rewrite (Hsynthetic p t u Hp r Hr'). apply bool_decide_eq_false_2.
      intros Hin. apply (inv_action_ids _ (invariant_reachable trace)) in Hin.
      rewrite Hr' in Hin. unfold RequestMonitor.synthetic in Hin.
      apply elem_of_cons in Hp as [->|Hp]; [done|].
      apply elem_of_cons in Hp as [->|Hp]; [done|].
      by apply elem_of_nil in Hp. }
  assert (Hcount : ResultAggregator.linkedRequests (ResultAggregator.validateLinkage agg)
                   + synthetic_count = length (ledger (run init trace))).
  { unfold synthetic_count. simpl.
    rewrite <- (List.filter_length (ResultAggregator.is_linked agg) (ledger (run init trace))).
    f_equal. f_equal. apply List.filter_ext_in. intros r Hr%list_elem_of_In.
    rewrite (Hsplit r Hr). by destruct (synthetic_id r). }
  split_and!; try done.
  - intros r Hr Hid. split_and!.
    + by apply Hunlinked.
    + unfold ResultAggregator.getUnlinkedRequests.
      apply list_elem_of_In, filter_In. split; [by apply list_elem_of_In|].
      by rewrite Hunlinked.
    + intros [_ Hl]%list_elem_of_In%filter_In. by rewrite Hunlinked in Hl.
    + by apply (Hsynthetic prefix now rand).
  - unfold ResultAggregator.validateLinkage in *.
    cbn [ResultAggregator.linkedRequests ResultAggregator.unlinkedRequests] in *.
    change (requests (ResultAggregator.scanData agg)) with (ledger (run init trace)) in *.
    lia.
  - unfold ResultAggregator.getLinkageStats, ResultAggregator.validateLinkage in *.
    cbn [ResultAggregator.linkageRate ResultAggregator.linkedRequests] in *.
    change (requests (ResultAggregator.scanData agg)) with (ledger (run init trace)) in *.
    do 2 f_equal. lia.
Qed.

Lemma synthetic_ids_are_unlinked_witness :
  let trace := [ValueRead "id=user" 1000 "aaa";
                OnRequest "R1" "https://cdn.x/app.css" "stylesheet" "GET" 1001 "zzz"] in
  let r := {| r_actionId := "http_1001_zzz"; r_url := "https://cdn.x/app.css";
              r_requestSource := "stylesheet"; r_method := "GET"; r_status := -1 |} in
  ledger (run init trace) = [r]
  ∧ r ∈ ResultAggregator.getUnlinkedRequests (aggregator (run init trace))
  ∧ ResultAggregator.linkedRequests
      (ResultAggregator.validateLinkage (aggregator (run init trace))) + 1 = 1.
Proof.
  intros trace r. split; [reflexivity|].
  assert (Hp : "http" ∈ ["http"; "failed"]) by (apply elem_of_cons; by left).
  destruct (synthetic_ids_are_unlinked trace "http" 1001 "zzz" Hp)
    as (_ & _ & _ & H & _ & Hcount & _).
  split; [|exact Hcount].
  refine (proj1 (proj2 (H r _ eq_refl))).
  apply list_elem_of_In. left. reflexivity.
Defined.

End Synthetic.

(** ** Further properties of the statistics *)

Section Statistics.
Import ResultAggregator.

(** X1: the three numbers of [validateLinkage] and the two lists agree:
    linked and unlinked requests add up to the ledger, the unlinked count is
    the length of [getUnlinkedRequests], and the sample of [getLinkageStats]
    is the first five of that list at most, none of them linked. *)
Theorem linkage_counts_add_up (agg : t) :
  let v := validateLinkage agg in
  linkedRequests v + unlinkedRequests v = length (requests (scanData agg))
  ∧ unlinkedRequests v = length (getUnlinkedRequests agg)
  ∧ validation (getLinkageStats agg) = v
  ∧ length (unlinkedRequestSample (getLinkageStats agg)) = 5 `min` unlinkedRequests v
  ∧ unlinkedRequestSample (getLinkageStats agg) `prefix_of` getUnlinkedRequests agg
  ∧ ∀ r, r ∈ unlinkedRequestSample (getLinkageStats agg) →
         r ∈ requests (scanData agg) ∧ is_linked agg r = false.
Proof.
  intros v.
  pose proof (List.filter_length (is_linked agg) (requests (scanData agg))) as Hsum.
  assert (Hun : unlinkedRequests v = length (getUnlinkedRequests agg)).
  { unfold getUnlinkedRequests. simpl in *. lia. }
  split_and!; try done.
  - simpl in *. lia.
  - simpl. rewrite length_take. rewrite <- Hun. simpl. lia.
  - apply prefix_take.
  - intros r Hr. simpl in Hr. apply elem_of_take in Hr as (i & Hi & _).
    apply list_elem_of_lookup_2 in Hi.
    apply list_elem_of_In, filter_In in Hi as [Hin Hneg].
    split; [by apply list_elem_of_In|]. by apply negb_true_iff.
Qed.

(** X2: with at least one request in the ledger the linkage rate is a finite
    number between 0 and 100; it is 0 exactly when no request is linked and
    100 exactly when none is unlinked. *)
Theorem linkage_rate_in_range (agg : t) :
  requests (scanData agg) ≠ [] →
  ∃ q, linkageRate (getLinkageStats agg) = Js.Finite q
       ∧ (0 <= q)%Q ∧ (q <= 100)%Q
       ∧ ((q == 0)%Q ↔ linkedRequests (validateLinkage agg) = 0)
       ∧ ((q == 100)%Q ↔ unlinkedRequests (validateLinkage agg) = 0).
Proof.
  intros Hne. pose proof (linked_le_total agg) as Hle.
  unfold getLinkageStats. cbn [linkageRate].
  cbn [validateLinkage unlinkedRequests].
  set (linked := linkedRequests (validateLinkage agg)) in *.
  change (length (List.filter (is_linked agg) (requests (scanData agg)))) with linked.
  destruct (length (requests (scanData agg))) as [|n] eqn:Hlen.
  { by destruct (requests (scanData agg)). }
  eexists. split; [reflexivity|].
  rewrite <- Pos.of_nat_succ.
  unfold Qle, Qeq. cbn [Qnum Qden Qmult].
  rewrite Pos.mul_1_r, Zpos_P_of_succ_nat. split_and!; lia.
Qed.

Lemma linkage_rate_in_range_witness :
  let request id := {| r_actionId := id; r_url := "https://api.x/data";
                       r_requestSource := "fetch"; r_method := "GET";
                       r_status := 200 |} in
  let action := {| a_actionId := "action_1_a"; a_type := "input.value";
                   a_data := "id=user" |} in
  let agg := foldl write new [AddAction "part_html_main" action None;
                              AddRequest (request "action_1_a");
                              AddRequest (request "http_2_b")] in
  ∃ q, linkageRate (getLinkageStats agg) = Js.Finite q ∧ (0 <= q)%Q ∧ (q <= 100)%Q.
Proof.
  intros request action agg.
  destruct (linkage_rate_in_range agg) as (q & Hq & Hlo & Hhi & _); [done|].
  by exists q.
Defined.

End Statistics.

(** ** The lists of the two reports *)

Section Reports.

Lemma filter_split {A} (f g : A → bool) (l : list A) :
  length (List.filter f l)
  = length (List.filter (λ x, f x && g x) l)
    + length (List.filter (λ x, f x && negb (g x)) l).
Proof.
  induction l as [|x l IH]; simpl; [done|].
  destruct (f x), (g x); simpl; lia.
Qed.

(** X3: in the text report linked and unlinked requests add up to all
    requests.  The HTML report moves the failed ones out of its unlinked
    list, so its unlinked list is shorter by the failed requests no action
    answers for; its three lists still cover every request, and a failed
    request that is linked is in both the linked and the failed list. *)
Theorem report_lists_cover (results : ScanData) :
  length (LinkageReport.linkedRequests results)
    + length (Report.unlinkedRequests results) = length (requests results)
  ∧ length (Report.unlinkedRequests results)
    = length (Report.htmlUnlinkedRequests results)
      + length (List.filter
                  (λ req, negb (LinkageReport.actionMap_has results (r_actionId req)))
                  (Report.failedRequests results))
  ∧ (∀ r, r ∈ requests results →
       r ∈ LinkageReport.linkedRequests results
       ∨ r ∈ Report.failedRequests results
       ∨ r ∈ Report.htmlUnlinkedRequests results)
  ∧ (∀ r, r ∈ Report.htmlUnlinkedRequests results →
       (r ∉ LinkageReport.linkedRequests results)
       ∧ (r ∉ Report.failedRequests results))
  ∧ (∀ r, r ∈ requests results →
       LinkageReport.actionMap_has results (r_actionId r) = true →
       r_status r = (-999)%Z →
       r ∈ LinkageReport.linkedRequests results ∧ r ∈ Report.failedRequests results).
Proof.
  unfold LinkageReport.linkedRequests, Report.unlinkedRequests,
    Report.htmlUnlinkedRequests, Report.failedRequests.
  split_and!.
  - apply List.filter_length.
  - rewrite (filter_split _ (λ req, bool_decide (r_status req ≠ (-999)%Z))).
    f_equal. induction (requests results) as [|x l IH]; simpl; [done|].
    destruct (decide (r_status x = (-999)%Z)) as [Hst|Hst].
    + rewrite (bool_decide_eq_true_2 _ Hst), bool_decide_eq_false_2 by tauto.
      simpl. destruct (LinkageReport.actionMap_has _ _); simpl; by rewrite IH.
    + rewrite (bool_decide_eq_false_2 _ Hst), bool_decide_eq_true_2 by tauto.
      by rewrite andb_false_r.
  - intros r Hr. apply list_elem_of_In in Hr.
    destruct (LinkageReport.actionMap_has results (r_actionId r)) eqn:Hhas.
    { left. apply list_elem_of_In, filter_In. by split. }
    right. destruct (decide (r_status r = (-999)%Z)) as [Hst|Hst].
    + left. apply list_elem_of_In, filter_In. split; [done|].
      by apply bool_decide_eq_true_2.
    + right. apply list_elem_of_In, filter_In. split; [done|].
      rewrite Hhas. simpl. by apply bool_decide_eq_true_2.
  - intros r Hr. apply list_elem_of_In, filter_In in Hr as [_ [Hno Hst]%andb_true_iff].
    apply negb_true_iff in Hno. apply bool_decide_eq_true_1 in Hst. split.
    + intros Hin. apply list_elem_of_In, filter_In in Hin as [_ Hhas]. congruence.
    + intros Hin. apply list_elem_of_In, filter_In in Hin as [_ Hf].
      by apply bool_decide_eq_true_1 in Hf.
  - intros r Hr Hhas Hst. apply list_elem_of_In in Hr. split.
    + apply list_elem_of_In, filter_In. by split.
    + apply list_elem_of_In, filter_In. split; [done|]. by apply bool_decide_eq_true_2.
Qed.

End Reports.

(** ** The context of the page, in every run *)

Section ContextShape.
Import Scan.
Implicit Types (s : state) (e : Event).
Local Arguments step : simpl never.

(** X4: in every state a run reaches, the current action id is the top of
    the stack of action ids, and there is none exactly when the stack is
    empty; every id on the stack, and every id an [XMLHttpRequest] captured
    when it was opened, is the id of an action the ledger holds. *)
Theorem current_is_top_of_stack (trace : list Event) :
  let w := window (run init trace) in
  let agg := aggregator (run init trace) in
  __currentActionId w = last (__actionIdStack w)
  ∧ (__currentActionId w = None ↔ __actionIdStack w = [])
  ∧ (∀ id, id ∈ __actionIdStack w → id ∈ ResultAggregator.actionIdSet agg)
  ∧ (∀ xhr x id, xhrs w !! xhr = Some x → _capturedActionId x = Some id →
                 id ∈ ResultAggregator.actionIdSet agg).
Proof.
  intros w agg. pose proof (wellformed_reachable trace) as Hwf.
  pose proof (Shape.wf_current _ Hwf) as Hcur. fold w in Hcur.
  split_and!; [done| |apply Hwf..]. rewrite Hcur. apply last_None.
Qed.

Lemma push_then_cleanup (id : string) (w : Window) :
  __currentActionId w = last (__actionIdStack w) →
  InputMonitor.context_cleanup id (InputMonitor.push_context id w) = w.
Proof.
  intros Hcur. unfold InputMonitor.context_cleanup. simpl.
  rewrite bool_decide_eq_true_2.
  - rewrite removelast_last, <- Hcur. by destruct w.
  - rewrite last_snoc, length_app. simpl. split; [lia|done].
Qed.

(** X5: a cause followed by its own timer leaves the page as it was: same
    stack, same current id.  So do two nested causes whose timers fire in the
    reverse order of the causes. *)
Theorem cause_and_timer_cancel (trace : list Event) (eA eB : Event) (A B : string) :
  cause_id eA = Some A → cause_id eB = Some B →
  let s := run init trace in
  window (run s [eA; TimerFired A]) = window s
  ∧ window (run s [eA; eB; TimerFired B; TimerFired A]) = window s.
Proof.
  intros HA HB s.
  pose proof (Shape.wf_current _ (wellformed_reachable trace)) as Hcur. fold s in Hcur.
  assert (Hone : ∀ s' e id, cause_id e = Some id →
            __currentActionId (window s') = last (__actionIdStack (window s')) →
            window (run s' [e; TimerFired id]) = window s').
  { intros s' e id He Hcur'.
    change (run s' [e; TimerFired id]) with (step (step s' e) (TimerFired id)).
    rewrite step_window, (cause_window _ _ _ He).
    by apply push_then_cleanup. }
  split; [by apply Hone|].
  change (run s [eA; eB; TimerFired B; TimerFired A])
    with (step (run (step s eA) [eB; TimerFired B]) (TimerFired A)).
  rewrite step_window, Hone, (cause_window _ _ _ HA); [by apply push_then_cleanup|done|].
  rewrite (cause_window _ _ _ HA). simpl. by rewrite last_snoc.
Qed.

Lemma cause_and_timer_cancel_witness :
  let s := run init [ValueRead "id=user" 1000 "aaa"] in
  window (run s [HandlerFired "form.addEventListener.submit" "id=login" 1001 "bbb";
                 ValueRead "id=password" 1002 "ccc";
                 TimerFired "action_1002_ccc"; TimerFired "action_1001_bbb"])
  = window s.
Proof.
  exact (proj2 (cause_and_timer_cancel [ValueRead "id=user" 1000 "aaa"]
                  (HandlerFired "form.addEventListener.submit" "id=login" 1001 "bbb")
                  (ValueRead "id=password" 1002 "ccc")
                  "action_1001_bbb" "action_1002_ccc" eq_refl eq_refl)).
Defined.

(** X6: when the timer of an earlier cause [A] fires while a later cause [B]
    is on top, and the timer of [B] fires after it, [A] is left on the stack
    and becomes the current id again.  It stays current through any steps in
    which no cause fires, a [fetch] made then is reported under [A], and the
    host files a request of that URL under [A]. *)
Theorem early_timer_leaves_cause_behind (trace later : list Event)
    (eA eB : Event) (A B : string) (input : FetchInput) :
  cause_id eA = Some A → cause_id eB = Some B → A ≠ B →
  let s := run init trace in
  let s' := run s [eA; eB; TimerFired A; TimerFired B] in
  always (quiet A) s' later →
  window s' = InputMonitor.push_context A (window s)
  ∧ __currentActionId (window (run s' later)) = Some A
  ∧ calls (run s' later) (Fetch input)
    = [CallReportRequestMapping (RequestMonitor.fetch_url input) A;
       CallOriginalFetch input]
  ∧ mapping (RequestMonitor.fetch_url input) (step (run s' later) (Fetch input))
    = Some A.
Proof.
  intros HA HB Hne s s' Hquiet.
  assert (Hw : window s' = InputMonitor.push_context A (window s)).
  { unfold s'.
    change (run s [eA; eB; TimerFired A; TimerFired B])
      with (step (step (run s [eA; eB]) (TimerFired A)) (TimerFired B)).
    assert (Hw2 : window (run s [eA; eB])
                  = InputMonitor.push_context B (InputMonitor.push_context A (window s))).
    { change (run s [eA; eB]) with (step (step s eA) eB).
      by rewrite (cause_window _ _ _ HB), (cause_window _ _ _ HA). }
    rewrite !step_window, Hw2.
    rewrite (context_cleanup_other A); [|simpl; rewrite last_snoc; congruence].
    unfold InputMonitor.context_cleanup. simpl.
    rewrite bool_decide_eq_true_2.
    - by rewrite removelast_last, last_snoc.
    - rewrite last_snoc, length_app. simpl. split; [lia|done]. }
  assert (Hcur : __currentActionId (window (run s' later)) = Some A).
  { apply quiet_keeps_current; [rewrite Hw; simpl..|done]; [done|by rewrite last_snoc]. }
  split_and!; [done..| |].
  - apply fetch_reports.
    + unfold s', s. rewrite <- !run_app. apply invariant_reachable.
    + rewrite Hcur. by eapply cause_id_truthy.
  - apply fetch_reports.
    + unfold s', s. rewrite <- !run_app. apply invariant_reachable.
    + rewrite Hcur. by eapply cause_id_truthy.
Qed.

Lemma early_timer_leaves_cause_behind_witness :
  let s' := run init [ValueRead "id=user" 1000 "aaa";
                      HandlerFired "form.addEventListener.submit" "id=login" 1001 "bbb";
                      TimerFired "action_1000_aaa"; TimerFired "action_1001_bbb"] in
  let later := [XhrOpen 1 "GET" "https://t.example/a"] in
  calls (run s' later) (Fetch (InputString "https://t.example/b"))
  = [CallReportRequestMapping "https://t.example/b" "action_1000_aaa";
     CallOriginalFetch (InputString "https://t.example/b")].
Proof.
  refine (proj1 (proj2 (proj2
    (early_timer_leaves_cause_behind [] [XhrOpen 1 "GET" "https://t.example/a"]
       (ValueRead "id=user" 1000 "aaa")
       (HandlerFired "form.addEventListener.submit" "id=login" 1001 "bbb")
       "action_1000_aaa" "action_1001_bbb" (InputString "https://t.example/b")
       eq_refl eq_refl _ _)))).
  - discriminate.
  - simpl. split; [split; [reflexivity|discriminate]|exact I].
Defined.

End ContextShape.

(** ** The network calls of the page *)

Section Transport.
Import Scan.
Implicit Types (s : state) (e : Event).

Lemma step_transport s e :
  transport (step s e)
  = transport s ++ match Shape.original_call e with Some c => [c] | None => [] end.
Proof.
  destruct e; simpl; rewrite ?hook_eq; simpl; rewrite ?app_nil_r; try done.
  - unfold InputMonitor.report. by destruct (exposed_reportInputAccess _); simpl; rewrite ?app_nil_r.
  - unfold InputMonitor.report. by destruct (exposed_reportInputAccess _); simpl; rewrite ?app_nil_r.
  - destruct (truthy _); [|done]. by destruct (exposed_reportRequestMapping _).
  - destruct (truthy _); [|done]. by destruct (exposed_reportRequestMapping _).
Qed.

(** In a run the calls that reach the network are one for each [fetch],
    [open] and [send] of the page, in the order of the page; a [fetch] or a
    [send] leaves the page's globals and the ledger as they are. *)
Lemma transport_of_run (s : state) (trace : list Event) :
  transport (run s trace) = transport s ++ omap Shape.original_call trace
  ∧ ∀ e, (∃ input, e = Fetch input) ∨ (∃ xhr, e = XhrSend xhr) →
         window (step s e) = window s ∧ aggregator (step s e) = aggregator s.
Proof.
  split.
  - revert s. induction trace as [|e trace IH]; intros s; simpl; [by rewrite app_nil_r|].
    rewrite IH, step_transport, <- app_assoc. by destruct (Shape.original_call e).
  - intros e [[input ->]|[xhr ->]]; (split; [by rewrite step_window|]);
      simpl; rewrite hook_eq; simpl;
      (destruct (truthy _); [|done]); by destruct (exposed_reportRequestMapping _).
Qed.

End Transport.

(** ** The network calls of the page, argument by argument *)

Section Forwarding.
Import Forward.
Implicit Types (w : Window) (c : PageCall) (calls : list PageCall).

Lemma run_snoc_call w calls c :
  Forward.run w (calls ++ [c])
  = ((call c (Forward.run w calls).1).1,
     (Forward.run w calls).2 ++ (call c (Forward.run w calls).1).2).
Proof.
  unfold Forward.run. rewrite foldl_app. simpl.
  by destruct (call c _).
Qed.

Lemma originals_of_report (url : string) (id : option string) w :
  List.filter is_original (report url id w) = []
  ∧ List.filter is_throw (report url id w) = [].
Proof.
  unfold report. destruct (truthy id); [|done].
  by destruct (exposed_reportRequestMapping w).
Qed.

(** What of a call reaches the original function. *)
Lemma originals_of_call c w :
  List.filter is_original (call c w).2
  = match c with
    | PageFetch args =>
        if fetch_url (arg 0 args) is Some _
        then [OriginalFetch [arg 0 args; arg 1 args]] else []
    | PageOpen this args =>
        if to_string (arg 1 args) is Some _ then [OriginalOpen this args] else []
    | PageSend this args => [OriginalSend this args]
    end.
Proof.
  destruct c as [args|this args|this args]; simpl.
  - unfold fetch. destruct (fetch_url _); [|done]. simpl.
    by rewrite List.filter_app, (proj1 (originals_of_report _ _ _)).
  - unfold open. by destruct (to_string _).
  - unfold send. simpl.
    by rewrite List.filter_app, (proj1 (originals_of_report _ _ _)).
Qed.

Lemma throws_of_call c w :
  List.filter is_throw (call c w).2
  = match c with
    | PageFetch args => if fetch_url (arg 0 args) is Some _ then [] else [Throw]
    | PageOpen this args => if to_string (arg 1 args) is Some _ then [] else [Throw]
    | PageSend _ _ => []
    end.
Proof.
  destruct c as [args|this args|this args]; simpl.
  - unfold fetch. destruct (fetch_url _); [|done]. simpl.
    by rewrite List.filter_app, (proj2 (originals_of_report _ _ _)).
  - unfold open. by destruct (to_string _).
  - unfold send. simpl.
    by rewrite List.filter_app, (proj2 (originals_of_report _ _ _)).
Qed.

(** X7: whatever the page's globals, over any sequence of calls of [fetch],
    [open] and [send] with any arguments: the original functions are called
    once for each call of the page whose URL conversion returns, in the
    order of the page's calls and by nothing else; the original [open] and
    [send] get the page's [this] and its argument list as it is, the
    original [fetch] the first two arguments of the page.  A call of [fetch]
    whose input cannot be turned into a string, and a call of [open] whose
    URL is [undefined], [null] or has a [toString] that throws, ends in an
    exception before the original function is reached.  A [fetch] and a
    [send] leave the page's globals as they are. *)
Theorem network_calls_pass_through w calls :
  List.filter is_original (Forward.run w calls).2
  = omap (λ c, match c with
               | PageFetch args =>
                   if fetch_url (arg 0 args) is Some _
                   then Some (OriginalFetch [arg 0 args; arg 1 args]) else None
               | PageOpen this args =>
                   if to_string (arg 1 args) is Some _
                   then Some (OriginalOpen this args) else None
               | PageSend this args => Some (OriginalSend this args)
               end) calls
  ∧ length (List.filter is_throw (Forward.run w calls).2)
    = length (List.filter
                (λ c, match c with
                      | PageFetch args => bool_decide (fetch_url (arg 0 args) = None)
                      | PageOpen _ args => bool_decide (to_string (arg 1 args) = None)
                      | PageSend _ _ => false
                      end) calls)
  ∧ (∀ url, to_string url = None
            ↔ url = Undefined ∨ url = Null ∨ ∃ identity, url = Obj identity None)
  ∧ (∀ input, fetch_url input = None ↔ ∃ identity, input = Obj identity None)
  ∧ (∀ args, (fetch args w).1 = w)
  ∧ (∀ this args, (send this args w).1 = w).
Proof.
  split_and!.
  - induction calls as [|c calls IH] using rev_ind; [done|].
    rewrite run_snoc_call, omap_app. cbn [snd].
    rewrite List.filter_app, IH, originals_of_call. f_equal.
    destruct c as [args|this args|this args]; simpl; [| |done].
    + by destruct (fetch_url _).
    + by destruct (to_string _).
  - induction calls as [|c calls IH] using rev_ind; [done|].
    rewrite run_snoc_call. cbn [snd].
    rewrite !List.filter_app, !length_app, IH, throws_of_call. f_equal.
    destruct c as [args|this args|this args]; simpl; [| |done].
    + by destruct (fetch_url _).
    + by destruct (to_string _).
  - intros [| | | | |identity [string|]]; simpl; split; try done;
      try (by intros [?|[?|[? ?]]]); eauto.
  - intros [| | | | |identity [string|]]; simpl; split; try done;
      try (by intros [? ?]); eauto.
  - intros args. unfold fetch. by destruct (fetch_url _).
  - done.
Qed.

(** The wrappers of [RequestMonitor], which take the URL as a string, are
    these with the arguments forgotten, on every call whose URL conversion
    returns: same globals afterwards, same calls in the same order. *)
Lemma string_wrappers_forget_arguments c w :
  List.filter is_throw (call c w).2 = [] →
  (call c w).1
  = match Forward.event_of c with
    | Scan.XhrOpen xhr method url => (RequestMonitor.open xhr method url w).1
    | _ => w
    end
  ∧ omap erase (call c w).2
    = match Forward.event_of c with
      | Scan.Fetch input => (RequestMonitor.fetch input w).2
      | Scan.XhrOpen xhr method url => (RequestMonitor.open xhr method url w).2
      | Scan.XhrSend xhr => (RequestMonitor.send xhr w).2
      | _ => []
      end.
Proof.
  rewrite throws_of_call.
  assert (Hreport : ∀ url id,
            omap erase (report url id w)
            = match truthy id with
              | Some id =>
                  if exposed_reportRequestMapping w
                  then [CallReportRequestMapping url id] else []
              | None => []
              end).
  { intros url id. unfold report. destruct (truthy id); [|done].
    by destruct (exposed_reportRequestMapping w). }
  destruct c as [args|this args|this args]; simpl.
  - unfold fetch. destruct (fetch_url (arg 0 args)) as [url|] eqn:Hurl; [|done].
    intros _. split; [done|]. simpl. rewrite omap_app, Hreport. simpl.
    assert (Hsame : RequestMonitor.fetch_url (input_of (arg 0 args)) = url).
    { destruct (arg 0 args) as [| | | | |identity string]; simpl in *; try congruence.
      by rewrite Hurl. }
    by rewrite Hsame.
  - unfold open. destruct (to_string (arg 1 args)) as [url|] eqn:Hurl; [|done].
    intros _. simpl. unfold text. by rewrite Hurl.
  - intros _. split; [done|]. unfold send. simpl. by rewrite omap_app, Hreport.
Qed.

End Forwarding.

(** ** The parts of the ledger, in every run *)

Section PartsOfRuns.
Import Scan.
Implicit Types (s : state) (e : Event).
Local Arguments step : simpl never.

Local Abbreviation parts_of s := (parts (ResultAggregator.scanData (aggregator s))).
Local Abbreviation counter_of s := (RequestMonitor.resourcePartCounter (monitor s)).

Lemma filter_alter_out {A} (P : A → Prop) `{!∀ x, Decision (P x)}
    (f : A → A) (i : nat) (l : list A) :
  (∀ x, l !! i = Some x → ¬ P x ∧ ¬ P (f x)) →
  filter P (alter f i l) = filter P l.
Proof.
  revert i. induction l as [|y l IH]; intros [|i] Hout; simpl; try done.
  - destruct (Hout y eq_refl) as [Hy Hfy].
    by rewrite !filter_cons_False.
  - change (list_alter f i l) with (alter f i l).
    rewrite !filter_cons, IH; [done|]. intros x Hx. by apply Hout.
Qed.

Lemma main_part_is_html s (i : nat) (p : Part) :
  Shape.wellformed s →
  ResultAggregator.find_part "part_html_main" (parts_of s) = Some (i, p) →
  p_type p = html.
Proof.
  intros Hwf Hfind. pose proof (Shape.wf_parts _ Hwf) as Hshape.
  rewrite Forall_forall in Hshape.
  pose proof (find_part_id _ _ _ _ Hfind) as Hid.
  apply find_part_lt in Hfind.
  destruct (Hshape p) as [[_ Hty]|(_ & Hty & n & Hn & _)]; [by eapply list_elem_of_lookup_2|done|].
  rewrite Hid in Hn. symmetry in Hn. by apply resource_part_id_not_main in Hn.
Qed.

(** What one step does to the parts and to the counters. *)
Lemma step_parts s e :
  Shape.wellformed s → invariant s →
  match Shape.action_of e, Shape.resource_of e with
  | Some a, _ =>
      parts_of (step s e)
      = parts (ResultAggregator.scanData
                 (ResultAggregator.addAction "part_html_main" a (Some html) (aggregator s)))
      ∧ counter_of (step s e) = counter_of s
  | None, Some ty =>
      let n := default 0 (counter_of s !! RequestMonitor.type_name ty) + 1 in
      ty ≠ html
      ∧ parts_of (step s e) = parts_of s ++ [Shape.resource_part ty n]
      ∧ counter_of (step s e) = <[RequestMonitor.type_name ty := n]> (counter_of s)
  | None, None =>
      parts_of (step s e) = parts_of s ∧ counter_of (step s e) = counter_of s
  end.
Proof.
  intros Hwf Hinv.
  destruct (Shape.action_of e) as [a|] eqn:Ha.
  { destruct (step_cause_aggregator s e a Hinv Ha) as [-> ->]. done. }
  destruct e as [| | | | | |requestId url resourceType method now rand| | |];
    try done; try (by cbv beta iota delta [Shape.resource_of]; apply step_other_parts).
  pose proof (step_request_parts s requestId url resourceType method now rand) as Hstep.
  cbv zeta in Hstep. unfold Shape.resource_of.
  destruct (default other (RequestMonitor.resourceTypeMap resourceType)) eqn:Hty;
    cbv beta iota zeta; try done;
    destruct Hstep as [-> ->]; (split; [done|]); (split; [|done]);
    unfold ResultAggregator.addResourcePart;
    by rewrite (resource_part_fresh s _ Hwf).
Qed.

Lemma counter_counts_requests (trace : list Event) (ty : PartType) :
  ty ≠ html →
  default 0 (counter_of (run init trace) !! RequestMonitor.type_name ty)
  = Shape.requests_of_type ty trace.
Proof.
  intros Hty. unfold Shape.requests_of_type.
  induction trace as [|e trace IH] using rev_ind; [done|].
  rewrite run_snoc, filter_app, length_app, <- IH.
  pose proof (step_parts (run init trace) e (wellformed_reachable trace)
                (invariant_reachable trace)) as Hstep.
  destruct (Shape.action_of e) as [a|] eqn:Ha.
  { destruct Hstep as [_ ->].
    assert (Shape.resource_of e = None) as Hres by by destruct e.
    rewrite filter_cons_False; [simpl; lia|]. by rewrite Hres. }
  destruct (Shape.resource_of e) as [ty'|] eqn:Hres.
  - destruct Hstep as (_ & _ & ->).
    destruct (decide (ty' = ty)) as [->|Hne].
    + rewrite lookup_insert_eq, filter_cons_True by done. simpl. lia.
    + rewrite lookup_insert_ne by (by intros ?%type_name_inj).
      rewrite filter_cons_False by (rewrite Hres; congruence). simpl. lia.
  - destruct Hstep as [_ ->]. rewrite filter_cons_False by (by rewrite Hres). simpl. lia.
Qed.

(** X8: in every run the parts of a resource type are the parts
    [part_<type>_1], ..., [part_<type>_k] in this order, [k] being the number
    of requests of that type the host has observed, each without actions; and
    no two parts of the ledger share an id. *)
Theorem resource_parts_are_numbered (trace : list Event) (ty : PartType) :
  ty ≠ html →
  filter (λ p, p_type p = ty) (parts_of (run init trace))
  = map (Shape.resource_part ty) (seq 1 (Shape.requests_of_type ty trace))
  ∧ NoDup (map p_id (parts_of (run init trace))).
Proof.
  intros Hty. split; [|apply (Shape.wf_part_ids _ (wellformed_reachable trace))].
  induction trace as [|e trace IH] using rev_ind; [done|].
  pose proof (counter_counts_requests trace ty Hty) as Hcount.
  unfold Shape.requests_of_type in *.
  rewrite run_snoc, filter_app, length_app, seq_app, map_app, <- IH.
  pose proof (step_parts (run init trace) e (wellformed_reachable trace)
                (invariant_reachable trace)) as Hstep.
  destruct (Shape.action_of e) as [a|] eqn:Ha.
  { destruct Hstep as [-> _].
    assert (Shape.resource_of e = None) as Hres by by destruct e.
    rewrite (filter_cons_False _ e) by (by rewrite Hres). simpl. rewrite app_nil_r.
    unfold ResultAggregator.addAction.
    destruct (ResultAggregator.find_part _ _) as [[i p]|] eqn:Hfind; simpl.
    - apply filter_alter_out. intros x Hx.
      pose proof (main_part_is_html _ _ _ (wellformed_reachable trace) Hfind) as Hhtml.
      apply find_part_lt in Hfind. simplify_eq. simpl. rewrite Hhtml. naive_solver.
    - rewrite alter_app_r_alt, Nat.sub_diag by done. simpl.
      rewrite filter_app, filter_cons_False by (simpl; congruence).
      by rewrite filter_nil, app_nil_r. }
  destruct (Shape.resource_of e) as [ty'|] eqn:Hres.
  - destruct Hstep as (_ & -> & _). rewrite filter_app. f_equal.
    destruct (decide (ty' = ty)) as [->|Hne].
    + rewrite (filter_cons_True _ e) by done.
      rewrite filter_cons_True by done. simpl. rewrite Hcount.
      do 2 f_equal. lia.
    + rewrite (filter_cons_False _ e) by (rewrite Hres; congruence).
      by rewrite filter_cons_False by done.
  - destruct Hstep as [-> _]. rewrite (filter_cons_False _ e) by (by rewrite Hres).
    simpl. by rewrite app_nil_r.
Qed.

Lemma resource_parts_are_numbered_witness :
  filter (λ p, p_type p = js)
    (parts_of (run init [OnRequest "1" "https://cdn.example/a.js" "script" "GET" 5 "r1";
                         ValueRead "id=user" 6 "r2";
                         OnRequest "2" "https://cdn.example/b.js" "script" "GET" 7 "r3"]))
  = [Shape.resource_part js 1; Shape.resource_part js 2].
Proof.
  exact (proj1 (resource_parts_are_numbered
                  [OnRequest "1" "https://cdn.example/a.js" "script" "GET" 5 "r1";
                   ValueRead "id=user" 6 "r2";
                   OnRequest "2" "https://cdn.example/b.js" "script" "GET" 7 "r3"]
                  js ltac:(discriminate))).
Defined.

Lemma others_hold_no_action (i : nat) (ps : list Part) (p : Part)
    (counter : gmap string nat) :
  NoDup (map p_id ps) → Forall (Shape.part_shape counter) ps →
  ps !! i = Some p → p_id p = "part_html_main" →
  concat (map p_actions (take i ps)) = []
  ∧ concat (map p_actions (drop (S i) ps)) = [].
Proof.
  intros Hnodup Hshape Hi Hid.
  assert (Hother : ∀ j q, ps !! j = Some q → j ≠ i → p_actions q = []).
  { intros j q Hj Hne. rewrite Forall_forall in Hshape.
    destruct (Hshape q) as [[Hmain _]|[Hnone _]]; [by eapply list_elem_of_lookup_2| |done].
    destruct Hne. eapply NoDup_lookup; [done|..].
    - by rewrite list_lookup_fmap, Hj; simpl; rewrite Hmain.
    - by rewrite list_lookup_fmap, Hi; simpl; rewrite Hid. }
  assert (Hnil : ∀ l : list Part, Forall (λ q, p_actions q = []) l →
                 concat (map p_actions l) = []).
  { induction 1 as [|q l Hq _ IH]; simpl; [done|]. by rewrite Hq, IH. }
  split; apply Hnil, Forall_forall; intros q Hq;
    apply list_elem_of_lookup in Hq as [j Hj].
  - apply lookup_take_Some in Hj as [Hj Hlt]. apply (Hother j q Hj). lia.
  - rewrite lookup_drop in Hj. apply (Hother _ q Hj). lia.
Qed.

Lemma addAction_main_actions s (a : Action) :
  Shape.wellformed s →
  LinkageReport.actions
    (ResultAggregator.scanData
       (ResultAggregator.addAction "part_html_main" a (Some html) (aggregator s)))
  = LinkageReport.actions (ResultAggregator.scanData (aggregator s)) ++ [a].
Proof.
  intros Hwf. unfold LinkageReport.actions, ResultAggregator.addAction.
  destruct (ResultAggregator.find_part _ _) as [[i p]|] eqn:Hfind; simpl.
  - pose proof (find_part_id _ _ _ _ Hfind) as Hid. apply find_part_lt in Hfind.
    destruct (others_hold_no_action i _ p _ (Shape.wf_part_ids _ Hwf)
                (Shape.wf_parts _ Hwf) Hfind Hid) as [Hbefore Hafter].
    rewrite (actions_alter_push _ _ _ _ Hfind), (actions_split _ _ _ Hfind).
    rewrite Hbefore, Hafter. simpl. by rewrite !app_nil_r.
  - rewrite alter_app_r_alt, Nat.sub_diag by done. simpl.
    rewrite !map_app, !concat_app. simpl. by rewrite ?app_nil_r.
Qed.

Lemma actions_of_run (trace : list Event) :
  LinkageReport.actions (ResultAggregator.scanData (aggregator (run init trace)))
  = omap Shape.action_of trace.
Proof.
  induction trace as [|e trace IH] using rev_ind; [done|].
  rewrite run_snoc, omap_app, <- IH.
  pose proof (step_parts (run init trace) e (wellformed_reachable trace)
                (invariant_reachable trace)) as Hstep.
  destruct (Shape.action_of e) as [a|] eqn:Ha.
  { simpl. rewrite Ha.
    destruct (step_cause_aggregator _ e a (invariant_reachable trace) Ha) as [-> _].
    apply addAction_main_actions, wellformed_reachable. }
  simpl. rewrite Ha, app_nil_r. unfold LinkageReport.actions.
  destruct (Shape.resource_of e) as [ty'|].
  - destruct Hstep as (_ & -> & _). rewrite map_app, concat_app. simpl.
    by rewrite app_nil_r.
  - by destruct Hstep as [-> _].
Qed.

Lemma recorded_ids_of_run (trace : list Event) (id : string) :
  id ∈ ResultAggregator.actionIdSet (aggregator (run init trace))
  ↔ id ∈ map a_actionId (omap Shape.action_of trace).
Proof.
  rewrite <- actions_of_run. apply (Shape.wf_actions _ (wellformed_reachable trace)).
Qed.

(** X9: in every run the actions of the ledger are those the causes reported,
    one for each cause and in the order the causes fired, all of them held by
    the part [part_html_main]; the ids the aggregator tracks are the ids of
    these actions. *)
Theorem actions_are_the_causes (trace : list Event) :
  let agg := aggregator (run init trace) in
  LinkageReport.actions (ResultAggregator.scanData agg) = omap Shape.action_of trace
  ∧ (∀ p, p ∈ parts (ResultAggregator.scanData agg) →
          p_id p ≠ "part_html_main" → p_actions p = [])
  ∧ ∀ id, id ∈ ResultAggregator.actionIdSet agg
          ↔ id ∈ map a_actionId (omap Shape.action_of trace).
Proof.
  intros agg. split_and!; [apply actions_of_run| |apply recorded_ids_of_run].
  intros p Hp Hid.
  pose proof (Shape.wf_parts _ (wellformed_reachable trace)) as Hshape.
  rewrite Forall_forall in Hshape. by destruct (Hshape p Hp) as [[? _]|[? _]].
Qed.

End PartsOfRuns.

(** ** The Mapping Store and the linkage of records, in every run *)

Section StoreOfRuns.
Import Scan.
Implicit Types (s : state) (e : Event).
Local Arguments step : simpl never.

Lemma synthetic_not_action (prefix : string) (now : Z) (rand : string) :
  prefix ∈ ["http"; "failed"] →
  String.prefix "action_" (RequestMonitor.synthetic prefix now rand) = false.
Proof.
  unfold RequestMonitor.synthetic. intros Hprefix.
  apply elem_of_cons in Hprefix as [->|Hprefix]; [done|].
  apply elem_of_cons in Hprefix as [->|Hprefix]; [done|].
  by apply elem_of_nil in Hprefix.
Qed.

(** X10: in every run the Mapping Store holds at most one entry for a URL and
    at most 1000 entries, a lookup answers with an id exactly when the store
    holds that entry, and every id it holds is the id of a recorded
    action. *)
Theorem mapping_store_holds_recorded_actions (trace : list Event) :
  let s := run init trace in
  NoDup (map fst (mappings s))
  ∧ length (mappings s) ≤ 1000
  ∧ ∀ url id,
      (mapping url s = Some id ↔ (url, id) ∈ mappings s)
      ∧ (mapping url s = Some id →
         id ∈ ResultAggregator.actionIdSet (aggregator s)
         ∧ String.prefix "action_" id = true).
Proof.
  intros s.
  pose proof (wellformed_reachable trace) as Hwf.
  pose proof (invariant_reachable trace) as Hinv. fold s in Hwf, Hinv.
  split_and!; [apply Hwf|apply Hinv|]. intros url id. split.
  - split; [apply map_get_Some_elem|apply map_get_elem_NoDup, Hwf].
  - intros Hin%map_get_Some_elem.
    pose proof (Shape.wf_mappings _ Hwf _ _ Hin) as Hid.
    split; [done|]. by apply (inv_action_ids _ Hinv).
Qed.

(** X11: the record the host creates for a request it observes is linked
    exactly when the Mapping Store answers for the URL of the request at that
    moment, and nothing that happens later changes this: its id is then the
    id of a recorded action and stays one, and otherwise it is an id no
    action ever has. *)
Theorem request_is_linked_iff_mapped (trace later : list Event)
    (requestId url resourceType method : string) (now : Z) (rand : string) :
  let s := run init trace in
  let e := OnRequest requestId url resourceType method now rand in
  let id := default (RequestMonitor.synthetic "http" now rand) (mapping url s) in
  ledger (step s e)
  = ledger s ++ [ {| r_actionId := id; r_url := url; r_requestSource := resourceType;
                     r_method := method; r_status := -1 |} ]
  ∧ (id ∈ ResultAggregator.actionIdSet (aggregator (run (step s e) later))
     ↔ is_Some (mapping url s)).
Proof.
  intros s e id. split; [by rewrite step_ledger|].
  unfold id. destruct (mapping url s) as [A|] eqn:Hmap; simpl.
  - split; [by eexists|]. intros _.
    apply run_keeps_actions, step_keeps_actions.
    apply (Shape.wf_mappings _ (wellformed_reachable trace) url).
    by apply map_get_Some_elem.
  - split; [|by intros [? ?]]. intros Hin. exfalso.
    assert (Hreach : run (step s e) later = run init (trace ++ e :: later)).
    { by rewrite run_app. }
    rewrite Hreach in Hin.
    apply (inv_action_ids _ (invariant_reachable _)) in Hin.
    rewrite synthetic_not_action in Hin; [done|]. by left.
Qed.

End StoreOfRuns.

(** ** Ids taken apart: [split] and [parseInt] on the ids the scan makes *)

Section Timestamps.

Lemma string_app_nil_r (s : string) : (s ++ "")%string = s.
Proof.
  induction s as [|c s IH]; [done|].
  change (String c (s ++ "")%string = String c s). by rewrite IH.
Qed.

Lemma string_app_assoc (s1 s2 s3 : string) :
  ((s1 ++ s2) ++ s3)%string = (s1 ++ s2 ++ s3)%string.
Proof.
  induction s1 as [|c s1 IH]; [done|].
  change (String c ((s1 ++ s2) ++ s3)%string = String c (s1 ++ s2 ++ s3)%string).
  by rewrite IH.
Qed.

Lemma split_go_app (sep : ascii) (a b cur : string) :
  Shape.no_sep sep a →
  Js.split_go sep (a ++ String sep b) cur = (cur ++ a)%string :: Js.split_go sep b "".
Proof.
  revert cur. induction a as [|c a IH]; intros cur.
  - intros _. change ("" ++ String sep b)%string with (String sep b). simpl.
    by rewrite Ascii.eqb_refl, string_app_nil_r.
  - intros [Hc Ha].
    change (String c a ++ String sep b)%string with (String c (a ++ String sep b)).
    simpl. rewrite Hc, (IH _ Ha), string_app_assoc. done.
Qed.

Lemma uint_no_sep (d : Decimal.uint) : Shape.no_sep "_" (NilEmpty.string_of_uint d).
Proof. induction d; simpl; done. Qed.

Lemma numeral_no_sep (n : Z) : Shape.no_sep "_" (Js.numeral n).
Proof.
  unfold Js.numeral. destruct (Z.to_int n); simpl; [|split; [done|]]; apply uint_no_sep.
Qed.

(** The parts of an id [<prefix>_<timestamp>_<random>]. *)
Lemma split_synthetic (prefix : string) (now : Z) (rand : string) :
  Shape.no_sep "_" prefix →
  Js.split "_" (RequestMonitor.synthetic prefix now rand)
  = prefix :: Js.numeral now :: Js.split "_" rand.
Proof.
  intros Hprefix. unfold Js.split, RequestMonitor.synthetic.
  change (prefix ++ "_" ++ Js.numeral now ++ "_" ++ rand)%string
    with (prefix ++ String "_" (Js.numeral now ++ String "_" rand))%string.
  rewrite split_go_app by done. simpl. f_equal.
  by rewrite split_go_app by apply numeral_no_sep.
Qed.

Lemma digits_step (c : ascii) (v : N) (s : string) (acc : option N) :
  Js.digit 10 c = Some v →
  Js.digits 10 (String c s) acc = Js.digits 10 s (Some (default 0 acc * 10 + v)%N).
Proof.
  intros Hc.
  change (Js.digits 10 (String c s) acc)
    with (match Js.digit 10 c with
          | Some d => Js.digits 10 s (Some (default 0 acc * 10 + d)%N)
          | None => acc
          end).
  by rewrite Hc.
Qed.

Lemma digits_acc (d : Decimal.uint) (acc : positive) :
  Js.digits 10 (NilEmpty.string_of_uint d) (Some (N.pos acc))
  = Some (N.pos (Pos.of_uint_acc d acc)).
Proof.
  revert acc. induction d; intros acc; [done|..];
    simpl Pos.of_uint_acc; rewrite <- IHd; simpl NilEmpty.string_of_uint;
    (erewrite digits_step by (vm_compute; reflexivity));
    do 2 f_equal; simpl default; lia.
Qed.

Lemma digits_zero (d : Decimal.uint) :
  Js.digits 10 (NilEmpty.string_of_uint d) (Some 0%N) = Some (Pos.of_uint d).
Proof.
  induction d; [done|..]; simpl NilEmpty.string_of_uint;
    (erewrite digits_step by (vm_compute; reflexivity)); simpl default;
    [apply IHd|..]; apply (digits_acc d).
Qed.

(** [parseInt] on a string that starts with a digit other than [0], with or
    without a minus sign before it. *)
Lemma parseInt_digit (c : ascii) (k : positive) (s : string) :
  (c, k) ∈ [("1"%char, 1%positive); ("2"%char, 2%positive); ("3"%char, 3%positive);
            ("4"%char, 4%positive); ("5"%char, 5%positive); ("6"%char, 6%positive);
            ("7"%char, 7%positive); ("8"%char, 8%positive); ("9"%char, 9%positive)] →
  Js.parseInt (String c s) = option_map Z.of_N (Js.digits 10 s (Some (N.pos k)))
  ∧ Js.parseInt (String "-" (String c s))
    = option_map (λ n, - Z.of_N n)%Z (Js.digits 10 s (Some (N.pos k))).
Proof.
  intros Hc.
  repeat (apply elem_of_cons in Hc as [[= -> ->]|Hc]; [split; reflexivity|]).
  by apply elem_of_nil in Hc.
Qed.

(** The same when a [0] comes first and a digit follows: no [0x] prefix. *)
Lemma parseInt_zero_digit (c : ascii) (s : string) :
  c ∈ ["0"; "1"; "2"; "3"; "4"; "5"; "6"; "7"; "8"; "9"]%char →
  Js.parseInt (String "0" (String c s))
  = option_map Z.of_N (Js.digits 10 (String c s) (Some 0%N))
  ∧ Js.parseInt (String "-" (String "0" (String c s)))
    = option_map (λ n, - Z.of_N n)%Z (Js.digits 10 (String c s) (Some 0%N)).
Proof.
  intros Hc.
  repeat (apply elem_of_cons in Hc as [->|Hc]; [split; reflexivity|]).
  by apply elem_of_nil in Hc.
Qed.

(** [parseInt] reads back the decimal numeral of a positive number, with or
    without a minus sign before it. *)
Lemma parseInt_positive (p : positive) :
  Js.parseInt (NilEmpty.string_of_uint (Pos.to_uint p)) = Some (Z.pos p)
  ∧ Js.parseInt (String "-" (NilEmpty.string_of_uint (Pos.to_uint p))) = Some (Z.neg p).
Proof.
  pose proof (DecimalPos.Unsigned.of_to p) as Hback.
  pose proof (Unsigned.to_uint_nonnil p) as Hnonnil.
  pose proof (Unsigned.to_uint_nonzero p) as Hnonzero.
  destruct (Pos.to_uint p) as [|d|d|d|d|d|d|d|d|d|d]; [done|..].
  2-10: simpl NilEmpty.string_of_uint;
    (edestruct parseInt_digit as [-> ->];
       [repeat first [apply list_elem_of_here | apply list_elem_of_further]|]);
    rewrite digits_acc; simpl in Hback |- *; injection Hback as ->; done.
  destruct d as [|d|d|d|d|d|d|d|d|d|d]; [done|..];
    simpl NilEmpty.string_of_uint;
    (edestruct parseInt_zero_digit as [-> ->];
       [repeat first [apply list_elem_of_here | apply list_elem_of_further]|]);
    match goal with
    | |- context [Js.digits 10 (String ?c (NilEmpty.string_of_uint ?u)) _] =>
        match type of Hback with
        | Pos.of_uint (Decimal.D0 ?v) = _ =>
            change (String c (NilEmpty.string_of_uint u))
              with (NilEmpty.string_of_uint v)
        end
    end;
    rewrite digits_zero; change (Pos.of_uint (Decimal.D0 ?v)) with (Pos.of_uint v) in Hback;
    rewrite Hback; done.
Qed.

Lemma parseInt_numeral (n : Z) : Js.parseInt (Js.numeral n) = Some n.
Proof.
  unfold Js.numeral. destruct n as [|p|p]; [done|..]; simpl; apply parseInt_positive.
Qed.

(** The sweep's test on a record whose id has a timestamp. *)
Lemma is_stale_timestamp (fiveMinutesAgo : Z) (r : Request)
    (prefix : string) (now : Z) (rand : string) :
  Shape.no_sep "_" prefix →
  r_actionId r = RequestMonitor.synthetic prefix now rand →
  RequestMonitor.is_stale fiveMinutesAgo r
  = bool_decide (now ≠ 0%Z ∧ (now < fiveMinutesAgo)%Z).
Proof.
  intros Hprefix Hid. unfold RequestMonitor.is_stale.
  rewrite Hid, split_synthetic by done.
  change (nth 1 (prefix :: Js.numeral now :: Js.split "_" rand) "")
    with (Js.numeral now).
  rewrite parseInt_numeral, bool_decide_eq_true_2; [done|].
  simpl length. lia.
Qed.

Lemma pattern_synthetic (prefix : string) (now : Z) (rand : string) :
  Shape.no_sep "_" prefix →
  Report.pattern (RequestMonitor.synthetic prefix now rand) = prefix.
Proof. intros Hprefix. unfold Report.pattern. by rewrite split_synthetic. Qed.

End Timestamps.

(** ** The sweep *)

Section SweepOfRuns.
Import Scan.
Implicit Types (s : state) (e : Event).
Local Arguments step : simpl never.

Lemma action_of_cause e (a : Action) :
  Shape.action_of e = Some a → cause_id e = Some (a_actionId a).
Proof. destruct e; simpl; try done; by intros [= <-]. Qed.

(** The ids of the records of a run: made by a cause of the run, or made for
    a request or a failure without cause. *)
Lemma record_id_shape (trace : list Event) (r : Request) :
  r ∈ ledger (run init trace) →
  (r_actionId r ∈ ResultAggregator.actionIdSet (aggregator (run init trace))
   ∧ ∃ e now rand, e ∈ trace ∧ cause_id e = Some (InputMonitor.actionId now rand)
                   ∧ r_actionId r = RequestMonitor.synthetic "action" now rand)
  ∨ (∃ prefix now rand, prefix ∈ ["http"; "failed"]
                        ∧ r_actionId r = RequestMonitor.synthetic prefix now rand).
Proof.
  intros Hr.
  destruct (Shape.wf_requests _ (wellformed_reachable trace) r Hr) as [Hid|Hsyn];
    [left; split; [done|]|by right].
  apply recorded_ids_of_run in Hid.
  apply list_elem_of_fmap in Hid as (a & Hid & Ha).
  apply list_elem_of_omap in Ha as (e & He & Ha).
  pose proof (action_of_cause e a Ha) as Hcause. rewrite <- Hid in Hcause.
  assert (∃ now rand, cause_id e = Some (InputMonitor.actionId now rand))
    as (now & rand & Hc) by (destruct e; try done; simpl; eauto).
  exists e, now, rand. split_and!; [done..|].
  change (RequestMonitor.synthetic "action" now rand)
    with (InputMonitor.actionId now rand). congruence.
Qed.

(** X12: in every run, a record some transport id still answers for has an
    id with a timestamp in it: the time of the cause it is linked to, or the
    time the host made the id.  The sweep forgets the transport id exactly
    when that timestamp is not 0 and more than five minutes before the
    sweep; the record itself stays in the ledger. *)
Theorem sweep_judges_by_timestamp (trace : list Event) (now : Z)
    (requestId : string) (i : nat) :
  let s := run init trace in
  pending s !! requestId = Some i →
  ∃ r prefix timestamp rand,
    ledger s !! i = Some r
    ∧ prefix ∈ ["action"; "http"; "failed"]
    ∧ r_actionId r = RequestMonitor.synthetic prefix timestamp rand
    ∧ (prefix = "action" →
       ∃ e, e ∈ trace ∧ cause_id e = Some (InputMonitor.actionId timestamp rand))
    ∧ pending (step s (Sweep now)) !! requestId
      = (if bool_decide (timestamp ≠ 0 ∧ timestamp < now - 5 * 60 * 1000)%Z
         then None else Some i)
    ∧ ledger (step s (Sweep now)) = ledger s.
Proof.
  intros s Hp.
  pose proof (inv_pending_lt _ (invariant_reachable trace) _ _ Hp) as Hlt.
  apply lookup_lt_is_Some in Hlt as [r Hr]. fold s in Hr.
  assert (Hshape : ∃ prefix timestamp rand,
            prefix ∈ ["action"; "http"; "failed"]
            ∧ r_actionId r = RequestMonitor.synthetic prefix timestamp rand
            ∧ (prefix = "action" →
               ∃ e, e ∈ trace
                    ∧ cause_id e = Some (InputMonitor.actionId timestamp rand))).
  { destruct (record_id_shape trace r) as
      [(_ & e & ts & rand & He & Hc & Hid)|(prefix & ts & rand & Hprefix & Hid)].
    - by eapply list_elem_of_lookup_2.
    - exists "action", ts, rand. split_and!; [by left|done|]. intros _. by exists e.
    - exists prefix, ts, rand. split_and!; [by right|done|].
      intros ->. apply elem_of_cons in Hprefix as [?|Hprefix]; [done|].
      apply elem_of_cons in Hprefix as [?|Hprefix]; [done|].
      by apply elem_of_nil in Hprefix. }
  destruct Hshape as (prefix & ts & rand & Hprefix & Hid & Hcause).
  exists r, prefix, ts, rand. split_and!; [done..| |by rewrite step_ledger].
  assert (Hsep : Shape.no_sep "_" prefix).
  { repeat (apply elem_of_cons in Hprefix as [->|Hprefix]; [by vm_compute|]).
    by apply elem_of_nil in Hprefix. }
  pose proof (is_stale_timestamp (now - 5 * 60 * 1000) r prefix ts rand Hsep Hid)
    as Hstale.
  rewrite step_pending. fold s. case_bool_decide as Hold.
  - apply map_lookup_filter_None. right. intros i' Hi'. simpl.
    rewrite Hp in Hi'. injection Hi' as <-. rewrite Hr. simpl. rewrite Hstale.
    intros Hne. by apply Hne.
  - apply map_lookup_filter_Some. split; [done|]. simpl. rewrite Hr. simpl.
    rewrite Hstale. by intros [=].
Qed.

Lemma sweep_judges_by_timestamp_witness :
  let trace := [ValueRead "id=card" 1000 "abc"; Fetch (InputString "https://t.example/c");
                OnRequest "R1" "https://t.example/c" "fetch" "POST" 200000 "xyz"] in
  ∃ r prefix timestamp rand,
    ledger (run init trace) !! 0 = Some r
    ∧ prefix ∈ ["action"; "http"; "failed"]
    ∧ r_actionId r = RequestMonitor.synthetic prefix timestamp rand
    ∧ (prefix = "action" →
       ∃ e, e ∈ trace ∧ cause_id e = Some (InputMonitor.actionId timestamp rand))
    ∧ pending (step (run init trace) (Sweep 400000)) !! "R1"
      = (if bool_decide (timestamp ≠ 0 ∧ timestamp < 400000 - 5 * 60 * 1000)%Z
         then None else Some 0)
    ∧ ledger (step (run init trace) (Sweep 400000)) = ledger (run init trace).
Proof.
  exact (sweep_judges_by_timestamp
           [ValueRead "id=card" 1000 "abc"; Fetch (InputString "https://t.example/c");
            OnRequest "R1" "https://t.example/c" "fetch" "POST" 200000 "xyz"]
           400000 "R1" 0 eq_refl).
Defined.

Lemma cleanup_idempotent (now : Z) (m : RequestMonitor.t) (agg : ResultAggregator.t) :
  RequestMonitor.cleanup now (RequestMonitor.cleanup now m agg) agg
  = RequestMonitor.cleanup now m agg.
Proof.
  unfold RequestMonitor.cleanup. simpl. f_equal.
  - rewrite map_filter_filter. apply map_filter_ext. intros k v _. simpl. tauto.
  - destruct (decide (50 < length (RequestMonitor.urlActionMappings m))) as [Hover|Hunder].
    + rewrite (bool_decide_eq_true_2 _ Hover).
      rewrite bool_decide_eq_false_2; [done|]. rewrite length_slice_last. lia.
    + by rewrite !(bool_decide_eq_false_2 _ Hunder).
Qed.

(** X13: the sweep touches neither the page, the ledger nor the calls that
    went to the network; it forgets transport ids but never adds or redirects
    one; it leaves a Mapping Store of at most 50 entries as it is and cuts a
    larger one down to its 25 newest entries, which keep their answers; and a
    second sweep at the same time changes nothing. *)
Theorem sweep_only_forgets (s : state) (now : Z) :
  let s' := step s (Sweep now) in
  window s' = window s ∧ aggregator s' = aggregator s ∧ transport s' = transport s
  ∧ pending s' ⊆ pending s
  ∧ (length (mappings s) ≤ 50 → mappings s' = mappings s)
  ∧ (50 < length (mappings s) →
     mappings s' = drop (length (mappings s) - 25) (mappings s))
  ∧ (NoDup (map fst (mappings s)) →
     ∀ url id, mapping url s' = Some id → mapping url s = Some id)
  ∧ step s' (Sweep now) = s'.
Proof.
  intros s'.
  assert (Hagg : aggregator s' = aggregator s) by done.
  assert (Hledger : ledger s' = ledger s) by done.
  assert (Hpending : pending s' = filter (λ entry : string * nat,
            (RequestMonitor.is_stale (now - 5 * 60 * 1000) <$> ledger s !! entry.2)
            ≠ Some true) (pending s)) by (unfold s'; by rewrite step_pending).
  destruct (sweep_keeps_latest s now) as (Hle & Hcut & Hsame). fold s' in Hle, Hcut, Hsame.
  split_and!; try done.
  - rewrite Hpending. apply map_filter_subseteq.
  - intros Hover. by destruct (Hcut Hover).
  - intros Hnodup url id Hget. unfold mapping in *.
    apply map_get_elem_NoDup; [done|]. apply map_get_Some_elem in Hget.
    destruct (decide (50 < length (mappings s))) as [Hover|Hunder].
    + destruct (Hcut Hover) as [Heq _]. rewrite Heq in Hget.
      by eapply subseteq_drop.
    + rewrite Hsame in Hget by lia. done.
  - unfold s'. change (step (step s (Sweep now)) (Sweep now))
      with (set_host (RequestMonitor.cleanup now
                        (RequestMonitor.cleanup now (monitor s) (aggregator s))
                        (aggregator s), aggregator s) (step s (Sweep now))).
    by rewrite cleanup_idempotent.
Qed.

End SweepOfRuns.

(** ** The reports on the ledger of a run *)

Section ReportsOfRuns.
Import Scan.
Implicit Types (s : state) (e : Event).

Lemma actionMap_has_linked (trace : list Event) (r : Request) :
  let agg := aggregator (run init trace) in
  LinkageReport.actionMap_has (ResultAggregator.getResults agg) (r_actionId r)
  = ResultAggregator.is_linked agg r.
Proof.
  intros agg. unfold LinkageReport.actionMap_has, ResultAggregator.is_linked.
  apply bool_decide_ext. symmetry.
  apply (Shape.wf_actions _ (wellformed_reachable trace)).
Qed.

(** X14: on the results of any run the linkage report and the aggregator
    agree: the report, which looks ids up among the actions of the parts,
    finds the same linked and unlinked requests as the aggregator, which
    looks them up in its set of ids, and when there is a request it computes
    the same rate; and the table of actions shows a request against some
    action exactly when the request is linked. *)
Theorem report_agrees_with_aggregator (trace : list Event) :
  let agg := aggregator (run init trace) in
  let results := ResultAggregator.getResults agg in
  LinkageReport.linkedRequests results
  = List.filter (ResultAggregator.is_linked agg) (requests results)
  ∧ Report.unlinkedRequests results = ResultAggregator.getUnlinkedRequests agg
  ∧ length (LinkageReport.linkedRequests results)
    = ResultAggregator.linkedRequests (ResultAggregator.validateLinkage agg)
  ∧ (requests results ≠ [] →
     LinkageReport.linkageRate results
     = ResultAggregator.linkageRate (ResultAggregator.getLinkageStats agg))
  ∧ (∀ r, r ∈ requests results →
       (ResultAggregator.is_linked agg r = true
        ↔ ∃ a, a ∈ LinkageReport.actions results
               ∧ r ∈ Report.relatedRequests results a)).
Proof.
  intros agg results.
  assert (Hlinked : LinkageReport.linkedRequests results
                    = List.filter (ResultAggregator.is_linked agg) (requests results)).
  { unfold LinkageReport.linkedRequests. apply List.filter_ext.
    intros r. apply (actionMap_has_linked trace). }
  split_and!; [done| |by rewrite Hlinked| |].
  - unfold Report.unlinkedRequests, ResultAggregator.getUnlinkedRequests.
    apply List.filter_ext. intros r. f_equal. apply (actionMap_has_linked trace).
  - intros Hsome. unfold LinkageReport.linkageRate.
    rewrite bool_decide_eq_true_2, Hlinked; [done|].
    destruct (requests results); [done|simpl; lia].
  - intros r Hr. rewrite <- (actionMap_has_linked trace).
    unfold LinkageReport.actionMap_has, Report.relatedRequests.
    rewrite bool_decide_eq_true, list_elem_of_fmap. fold agg results.
    split.
    + intros (a & Hid & Ha). exists a. split; [done|].
      apply list_elem_of_In, filter_In. split; [by apply list_elem_of_In|].
      by apply bool_decide_eq_true_2.
    + intros (a & Ha & [_ Hid%bool_decide_eq_true]%list_elem_of_In%filter_In).
      by exists a.
Qed.

(** X15: in every run a request record is linked exactly when its id starts
    with [action_]; the pattern the reports file an id under is [action],
    [http] or [failed], and it is [action] exactly for the linked records. *)
Theorem linked_iff_action_prefix (trace : list Event) (r : Request) :
  let agg := aggregator (run init trace) in
  r ∈ ledger (run init trace) →
  ResultAggregator.is_linked agg r = String.prefix "action_" (r_actionId r)
  ∧ Report.pattern (r_actionId r) ∈ ["action"; "http"; "failed"]
  ∧ (Report.pattern (r_actionId r) = "action" ↔ ResultAggregator.is_linked agg r = true).
Proof.
  intros agg Hr.
  pose proof (Shape.wf_requests _ (wellformed_reachable trace) r Hr) as Hshape.
  destruct (record_id_shape trace r Hr) as
    [(Hin & e & ts & rand & He & Hc & Hid)|(prefix & ts & rand & Hprefix & Hid)].
  - assert (Hlinked : ResultAggregator.is_linked agg r = true)
      by by apply bool_decide_eq_true_2.
    rewrite Hlinked, Hid, pattern_synthetic by done.
    split_and!; [symmetry; apply actionId_prefix|by left|done].
  - assert (Hno : String.prefix "action_" (r_actionId r) = false).
    { rewrite Hid. by apply synthetic_not_action. }
    assert (Hunlinked : ResultAggregator.is_linked agg r = false).
    { apply bool_decide_eq_false_2. intros Hin.
      apply (inv_action_ids _ (invariant_reachable trace)) in Hin. congruence. }
    assert (Hsep : Shape.no_sep "_" prefix ∧ prefix ≠ "action").
    { repeat (apply elem_of_cons in Hprefix as [->|Hprefix]; [by vm_compute|]).
      by apply elem_of_nil in Hprefix. }
    destruct Hsep as [Hsep Hne].
    rewrite Hunlinked, Hno, Hid, pattern_synthetic by done.
    split_and!; [done|by right|]. split; [done|by intros [=]].
Qed.

(** X16: a run in which no input is read and no wrapped handler fires links
    nothing: the Mapping Store stays empty, every request record is unlinked,
    and the statistics count no action and no linked request. *)
Theorem no_cause_no_link (trace : list Event) :
  omap Shape.action_of trace = [] →
  let s := run init trace in
  mappings s = []
  ∧ (∀ r, r ∈ ledger s → ResultAggregator.is_linked (aggregator s) r = false)
  ∧ ResultAggregator.validateLinkage (aggregator s)
    = {| ResultAggregator.linkedRequests := 0;
         ResultAggregator.unlinkedRequests := length (ledger s);
         ResultAggregator.totalActions := 0 |}.
Proof.
  intros Hnone s.
  assert (Hempty : ResultAggregator.actionIdSet (aggregator s) = ∅).
  { apply leibniz_equiv, elem_of_equiv_empty. intros id Hid.
    apply recorded_ids_of_run in Hid. rewrite Hnone in Hid. by apply elem_of_nil in Hid. }
  assert (Hunlinked : ∀ r, ResultAggregator.is_linked (aggregator s) r = false).
  { intros r. apply bool_decide_eq_false_2. rewrite Hempty. apply not_elem_of_empty. }
  split_and!.
  - destruct (mappings s) as [|[url id] m] eqn:Hm; [done|]. exfalso.
    assert (Hin : (url, id) ∈ mappings s) by (rewrite Hm; left).
    apply (Shape.wf_mappings _ (wellformed_reachable trace)) in Hin. fold s in Hin.
    rewrite Hempty in Hin. by apply not_elem_of_empty in Hin.
  - intros r _. apply Hunlinked.
  - unfold ResultAggregator.validateLinkage. rewrite Hempty, size_empty.
    assert (Hfilter : List.filter (ResultAggregator.is_linked (aggregator s))
                        (requests (ResultAggregator.scanData (aggregator s))) = []).
    { induction (requests _) as [|r rs IH]; simpl; [done|]. by rewrite Hunlinked. }
    rewrite Hfilter. simpl. f_equal. apply Nat.sub_0_r.
Qed.

Lemma no_cause_no_link_witness :
  mappings (run init [Fetch (InputString "https://t.example/a");
                      OnRequest "R1" "https://t.example/a" "fetch" "GET" 1000 "xyz"])
  = [].
Proof.
  exact (proj1 (no_cause_no_link
                  [Fetch (InputString "https://t.example/a");
                   OnRequest "R1" "https://t.example/a" "fetch" "GET" 1000 "xyz"]
                  eq_refl)).
Defined.

Lemma linked_iff_action_prefix_witness :
  let trace := [ValueRead "id=card" 1000 "abc"; Fetch (InputString "https://t.example/c");
                OnRequest "R1" "https://t.example/c" "fetch" "POST" 2000 "xyz"] in
  let r := {| r_actionId := "action_1000_abc"; r_url := "https://t.example/c";
              r_requestSource := "fetch"; r_method := "POST"; r_status := -1 |} in
  ResultAggregator.is_linked (aggregator (run init trace)) r = true.
Proof.
  intros trace r.
  refine (eq_trans (proj1 (linked_iff_action_prefix trace r _)) eq_refl).
  apply list_elem_of_here.
Defined.

End ReportsOfRuns.

(** ** The tables of id patterns *)

Section Tally.

Lemma tally_snoc (keys : list string) (key : string) :
  Report.tally (keys ++ [key])
  = Js.map_set key (default 0 (Js.map_get key (Report.tally keys)) + 1)
      (Report.tally keys).
Proof. unfold Report.tally. by rewrite foldl_app. Qed.

(** The table counts right: under each key it holds the number of ids of
    that key, it has one row for each key that occurs, in the order of first
    occurrence, and no row for a key that does not occur. *)
Lemma tally_counts (keys : list string) :
  (∀ key, default 0 (Js.map_get key (Report.tally keys))
          = length (filter (λ k, k = key) keys))
  ∧ map fst (Report.tally keys) = reverse (remove_dups (reverse keys))
  ∧ ∀ key, Js.map_get key (Report.tally keys) = None ↔ key ∉ keys.
Proof.
  assert (Hkeys : map fst (Report.tally keys) = reverse (remove_dups (reverse keys))
                  ∧ ∀ key, Js.map_get key (Report.tally keys) = None ↔ key ∉ keys).
  { induction keys as [|k keys [IHkeys IHnone]] using rev_ind.
    { split; [done|]. intros key. split; [intros _; apply not_elem_of_nil|done]. }
    assert (Hnone : ∀ key, Js.map_get key (Report.tally (keys ++ [k])) = None
                           ↔ key ∉ keys ++ [k]).
    { intros key. rewrite tally_snoc, not_elem_of_app, list_elem_of_singleton.
      destruct (decide (k = key)) as [->|Hne].
      - rewrite map_get_set_eq. split; [done|]. by intros [_ []].
      - rewrite map_get_set_ne, IHnone by done. split; [by split|by intros [? _]]. }
    split; [|done].
    rewrite tally_snoc, map_set_keys, IHkeys, reverse_snoc. simpl.
    destruct (decide_rel elem_of k (reverse keys)) as [Hin|Hout];
      rewrite elem_of_reverse in *.
    - destruct (Js.map_get k (Report.tally keys)) eqn:Hget; [done|].
      by apply IHnone in Hget.
    - apply IHnone in Hout. by rewrite Hout, reverse_cons. }
  split; [|done]. clear Hkeys.
  induction keys as [|k keys IH] using rev_ind; [done|]. intros key.
  rewrite tally_snoc, filter_app, length_app, <- IH.
  destruct (decide (k = key)) as [->|Hne].
  - rewrite map_get_set_eq, filter_cons_True by done. done.
  - rewrite map_get_set_ne, filter_cons_False by done. simpl. lia.
Qed.

End Tally.

Section PatternTables.
Import Scan.

Lemma tally_replicate (key : string) (n : nat) :
  Report.tally (replicate (S n) key) = [(key, S n)].
Proof.
  induction n as [|n IH]; [done|].
  rewrite replicate_S_end, tally_snoc, IH. simpl.
  rewrite !decide_True by done. simpl. do 2 f_equal. lia.
Qed.

Lemma count_fmap {A} (f : A → string) (key : string) (l : list A) :
  length (filter (λ k, k = key) (map f l)) = length (filter (λ x, f x = key) l).
Proof.
  induction l as [|x l IH]; simpl; [done|].
  rewrite !filter_cons. destruct (decide (f x = key)); simpl; by rewrite IH.
Qed.

Lemma patterns_of_causes (trace : list Event) :
  map (λ a, Report.pattern (a_actionId a)) (omap Shape.action_of trace)
  = replicate (length (omap Shape.action_of trace)) "action".
Proof.
  induction trace as [|e trace IH]; [done|]. simpl.
  destruct (Shape.action_of e) as [a|] eqn:Ha; [|exact IH].
  simpl. f_equal; [|exact IH].
  destruct e; try done; simpl in Ha; injection Ha as <-;
    by apply (pattern_synthetic "action").
Qed.

(** X17: the two tables of id patterns of the text report, on the results of
    any run.  The table of the linked ids has the single row [action], with
    the number of actions, when there is an action.  The table of the
    unlinked ids has at most the rows [http] and [failed], one row for a
    pattern, and a row holds the number of unlinked requests of its pattern,
    which is not 0. *)
Theorem pattern_tables_of_runs (trace : list Event) :
  let results := ResultAggregator.getResults (aggregator (run init trace)) in
  let linked := map (λ a, Report.pattern (a_actionId a)) (LinkageReport.actions results) in
  let unlinked :=
    map (λ r, Report.pattern (r_actionId r)) (Report.unlinkedRequests results) in
  Report.tally linked
  = match LinkageReport.actions results with
    | [] => []
    | _ :: _ => [("action", length (LinkageReport.actions results))]
    end
  ∧ NoDup (map fst (Report.tally unlinked))
  ∧ ∀ key n,
      Js.map_get key (Report.tally unlinked) = Some n →
      key ∈ ["http"; "failed"]
      ∧ 0 < n
      ∧ n = length (filter (λ r, Report.pattern (r_actionId r) = key)
                      (Report.unlinkedRequests results)).
Proof.
  intros results linked unlinked.
  destruct (tally_counts unlinked) as (Hcount & Hkeys & Hnone).
  split_and!.
  - assert (Hall : linked = replicate (length (LinkageReport.actions results)) "action").
    { unfold linked, results, ResultAggregator.getResults. rewrite actions_of_run.
      apply patterns_of_causes. }
    rewrite Hall. destruct (LinkageReport.actions results); [done|].
    apply tally_replicate.
  - rewrite Hkeys, reverse_Permutation. apply NoDup_remove_dups.
  - intros key n Hget.
    assert (Hin : key ∈ unlinked).
    { destruct (decide (key ∈ unlinked)) as [|Hout]; [done|].
      apply Hnone in Hout. congruence. }
    assert (Hn : n = length (filter (λ k, k = key) unlinked)).
    { by rewrite <- Hcount, Hget. }
    split_and!.
    + apply list_elem_of_fmap in Hin as (r & -> & Hr).
      apply list_elem_of_In, filter_In in Hr as [Hr%list_elem_of_In Hun].
      rewrite (actionMap_has_linked trace) in Hun. apply negb_true_iff in Hun.
      destruct (record_id_shape trace r Hr) as
        [(Hid & _)|(prefix & ts & rand & Hprefix & ->)].
      * apply bool_decide_eq_false in Hun. by destruct Hun.
      * assert (Hsep : Shape.no_sep "_" prefix).
        { repeat (apply elem_of_cons in Hprefix as [->|Hprefix]; [by vm_compute|]).
          by apply elem_of_nil in Hprefix. }
        by rewrite pattern_synthetic.
    + rewrite Hn. apply list_elem_of_In, in_split in Hin as (l1 & l2 & ->).
      rewrite filter_app, filter_cons_True, length_app by done. simpl. lia.
    + rewrite Hn. apply count_fmap.
Qed.

End PatternTables.

(** ** The ledger of requests over a run *)

Section LedgerOfRuns.
Import Scan.
Implicit Types (s : state) (e : Event).

(** X18: the ledger of requests only grows: whatever happens, a record
    stays at its position with its id, URL, resource type and method, and
    only its status can change. *)
Theorem ledger_is_append_only (s : state) (trace : list Event) :
  length (ledger s) ≤ length (ledger (run s trace))
  ∧ ∀ i r, ledger s !! i = Some r →
      ∃ r', ledger (run s trace) !! i = Some r'
            ∧ r_actionId r' = r_actionId r ∧ r_url r' = r_url r
            ∧ r_requestSource r' = r_requestSource r ∧ r_method r' = r_method r.
Proof.
  split.
  - revert s. induction trace as [|e trace IH]; intros s; simpl; [done|].
    etrans; [apply (step_ledger_length s e)|apply IH].
  - intros i r Hr. destruct (run_same_request trace s i r Hr) as [status Hrun].
    by exists (RequestMonitor.set_status status r).
Qed.

(** X19: a request the host observes and the response to it, matched by
    transport id, leave one record with the status of the response and no
    pending entry for that id.  If the same transport id is then reported as
    failed, the failure is not matched: a second record with status -999 is
    appended for the same request, under whatever the Mapping Store answers
    for the URL at that moment. *)
Theorem response_then_failure_records_twice (s : state)
    (requestId url resourceType method : string) (now now' : Z) (rand rand' : string)
    (status : Z) :
  let record := {| r_actionId := default (RequestMonitor.synthetic "http" now rand)
                                   (mapping url s);
                   r_url := url; r_requestSource := resourceType;
                   r_method := method; r_status := status |} in
  let s2 := run s [OnRequest requestId url resourceType method now rand;
                   OnResponse requestId url status] in
  let s3 := step s2 (OnRequestFailed requestId url resourceType method now' rand') in
  ledger s2 = ledger s ++ [record]
  ∧ pending s2 !! requestId = None
  ∧ ledger s3
    = ledger s ++ [record;
                   {| r_actionId := default (RequestMonitor.synthetic "failed" now' rand')
                                      (mapping url s);
                      r_url := url; r_requestSource := resourceType;
                      r_method := method; r_status := -999 |}].
Proof.
  intros record s2 s3.
  set (s1 := step s (OnRequest requestId url resourceType method now rand)).
  assert (Hl1 : ledger s1 = ledger s ++ [RequestMonitor.set_status (-1) record])
    by (unfold s1; by rewrite step_ledger).
  assert (Hp1 : pending s1 !! requestId = Some (length (ledger s))).
  { unfold s1. by rewrite step_pending, lookup_insert_eq. }
  assert (Hl2 : ledger s2 = ledger s ++ [record]).
  { change s2 with (step s1 (OnResponse requestId url status)).
    rewrite step_ledger, Hp1, Hl1.
    rewrite alter_app_r_alt, Nat.sub_diag by done. done. }
  assert (Hp2 : pending s2 !! requestId = None).
  { change s2 with (step s1 (OnResponse requestId url status)).
    rewrite step_pending. apply lookup_delete_eq. }
  assert (Hm2 : mapping url s2 = mapping url s).
  { unfold mapping. change s2 with (step s1 (OnResponse requestId url status)).
    unfold s1. by rewrite !step_mappings. }
  split_and!; [done..|].
  unfold s3. rewrite step_ledger, Hp2, Hl2, Hm2, <- app_assoc. done.
Qed.

End LedgerOfRuns.

(** ** The wrapper of [addEventListener] *)

Section ListenersOfPage.
Import Listeners.
Implicit Types (st : t) (call : Registration) (calls : list Registration).

Lemma addEventListener_registered call st :
  ∃ listener,
    registered (addEventListener call st)
    = registered st ++ [ {| g_target := g_target call; g_type := g_type call;
                            g_listener := listener |} ]
    ∧ (∀ handler, g_listener call = ListenerFunction handler →
         listener = ListenerFunction
                      (match monitored (g_target call) (g_type call) with
                       | Some (actionType, elementId) =>
                           Wrapped actionType elementId handler
                       | None => handler
                       end))
    ∧ (∀ object, g_listener call = ListenerObject object →
         listener = ListenerObject object).
Proof.
  unfold addEventListener.
  destruct (monitored _ _) as [[actionType elementId]|]; [|by eexists].
  unfold wrap. destruct (g_listener call) as [handler|object|].
  - eexists. split_and!; [done| |done]. by intros ? [= ->].
  - destruct (handleEvent st !! object); by eexists.
  - by eexists.
Qed.

Lemma addEventListener_handleEvent call st (object : nat) :
  handleEvent (addEventListener call st) !! object
  = match wrappers_of object [call] with
    | [] => handleEvent st !! object
    | w :: _ => Wrapped w.1 w.2 <$> handleEvent st !! object
    end.
Proof.
  unfold addEventListener, wrappers_of. simpl.
  destruct (g_listener call) as [handler|object'|] eqn:Hl; simpl.
  - by destruct (monitored _ _) as [[]|].
  - destruct (decide (object' = object)) as [->|Hne].
    + destruct (monitored _ _) as [[actionType elementId]|]; simpl; [|done].
      destruct (handleEvent st !! object) eqn:Hh; simpl; [|by rewrite Hh].
      by rewrite lookup_insert_eq.
    + destruct (monitored _ _) as [[actionType elementId]|]; simpl; [|done].
      destruct (handleEvent st !! object') eqn:Hh; simpl; [|done].
      by rewrite lookup_insert_ne.
  - by destruct (monitored _ _) as [[]|].
Qed.

Lemma addEventListeners_snoc st calls call :
  addEventListeners st (calls ++ [call])
  = addEventListener call (addEventListeners st calls).
Proof. unfold addEventListeners. by rewrite foldl_app. Qed.

Lemma wrap_all_snoc (handler : Handler) (ws : list (string * string)) (w : string * string) :
  wrap_all handler (ws ++ [w]) = Wrapped w.1 w.2 (wrap_all handler ws).
Proof. unfold wrap_all. by rewrite foldl_app. Qed.

Lemma wrappers_of_app (object : nat) calls calls' :
  wrappers_of object (calls ++ calls')
  = wrappers_of object calls ++ wrappers_of object calls'.
Proof. apply omap_app. Qed.

Lemma registered_grows st calls :
  ∃ added, registered (addEventListeners st calls) = registered st ++ added
           ∧ length added = length calls.
Proof.
  induction calls as [|call calls (added & IH & Hlen)] using rev_ind.
  - exists []. by rewrite app_nil_r.
  - rewrite addEventListeners_snoc.
    destruct (addEventListener_registered call (addEventListeners st calls))
      as (listener & -> & _).
    eexists (added ++ [_]). rewrite IH, <- app_assoc. split; [done|].
    rewrite !length_app, Hlen. done.
Qed.

(** X20: every call of [addEventListener] reaches the original function, in
    the order of the calls and with the target and the event type it was made
    with; a function passed as listener is registered as it is when the
    target and the type are not monitored, and inside exactly one wrapper,
    which names the event type and describes the target, when they are,
    whatever else is registered before or after. *)
Theorem every_listener_is_registered st calls :
  let st' := addEventListeners st calls in
  map (λ g, (g_target g, g_type g)) (registered st')
  = map (λ g, (g_target g, g_type g)) (registered st ++ calls)
  ∧ ∀ k call handler,
      calls !! k = Some call → g_listener call = ListenerFunction handler →
      g_listener <$> registered st' !! (length (registered st) + k)
      = Some (ListenerFunction
                (match monitored (g_target call) (g_type call) with
                 | Some (actionType, elementId) => Wrapped actionType elementId handler
                 | None => handler
                 end)).
Proof.
  intros st'. unfold st'. clear st'.
  induction calls as [|call calls [IHmap IHfun]] using rev_ind.
  { split; [by rewrite app_nil_r|]. by intros k call handler [=]. }
  rewrite addEventListeners_snoc.
  destruct (addEventListener_registered call (addEventListeners st calls))
    as (listener & Hreg & Hfun & _).
  destruct (registered_grows st calls) as (added & Hadded & Hlen).
  rewrite Hreg. split.
  - rewrite app_assoc, !(map_app _ _ [_]), IHmap. done.
  - intros k call' handler Hk Hl.
    apply lookup_app_Some in Hk as [Hk|[Hge Hk]].
    + rewrite lookup_app_l; [by eapply IHfun|].
      apply lookup_lt_Some in Hk. rewrite Hadded, length_app. lia.
    + apply list_lookup_singleton_Some in Hk as [Hk <-].
      rewrite lookup_app_r; rewrite Hadded, length_app, Hlen; [|lia].
      replace (length (registered st) + k - (length (registered st) + length calls))
        with 0 by lia.
      simpl. by rewrite (Hfun _ Hl).
Qed.

Lemma fire_wrap_all (f : nat) (ws : list (string * string)) (draws : list (Z * string)) :
  length ws ≤ length draws →
  fire (wrap_all (Original f) ws) draws
  = zip_with (λ w d, Scan.HandlerFired w.1 w.2 d.1 d.2) (reverse ws) draws.
Proof.
  revert draws. induction ws as [|w ws IH] using rev_ind; intros draws Hlen.
  - by destruct draws.
  - rewrite wrap_all_snoc, reverse_snoc. rewrite length_app in Hlen. simpl in Hlen.
    destruct draws as [|[now rand] draws]; simpl in *; [lia|].
    rewrite IH by lia. done.
Qed.

(** X21: a listener object is wrapped again by every monitored registration
    it is passed to, on whatever target: its [handleEvent] ends up inside as
    many wrappers as there were such calls, the last call outermost.  One
    event delivered to it then fires that many causes, and the ledger gets
    that many actions for it, those of the other registrations included. *)
Theorem listener_object_is_wrapped_by_every_registration st calls
    (object f : nat) (draws : list (Z * string)) (trace : list Scan.Event) :
  handleEvent st !! object = Some (Original f) →
  length (wrappers_of object calls) ≤ length draws →
  let st' := addEventListeners st calls in
  let ws := wrappers_of object calls in
  let causes := zip_with (λ w d, Scan.HandlerFired w.1 w.2 d.1 d.2) (reverse ws) draws in
  callee st' (ListenerObject object) = Some (wrap_all (Original f) ws)
  ∧ fire (wrap_all (Original f) ws) draws = causes
  ∧ length causes = length ws
  ∧ LinkageReport.actions
      (ResultAggregator.scanData (Scan.aggregator (Scan.run Scan.init (trace ++ causes))))
    = LinkageReport.actions
        (ResultAggregator.scanData (Scan.aggregator (Scan.run Scan.init trace)))
      ++ zip_with (λ w d, {| a_actionId := InputMonitor.actionId d.1 d.2;
                             a_type := w.1; a_data := w.2 |}) (reverse ws) draws.
Proof.
  intros Hobject Hlen st' ws causes.
  assert (Hcallee : handleEvent st' !! object = Some (wrap_all (Original f) ws)).
  { unfold st', ws. clear Hlen st' ws causes.
    induction calls as [|call calls IH] using rev_ind; [done|].
    rewrite addEventListeners_snoc, addEventListener_handleEvent, IH, wrappers_of_app.
    destruct (wrappers_of object [call]) as [|w [|w' ws']] eqn:Hw.
    - by rewrite app_nil_r.
    - simpl. by rewrite wrap_all_snoc.
    - unfold wrappers_of in Hw. simpl in Hw. repeat case_match; simplify_eq. }
  split_and!; [done|by apply fire_wrap_all| |].
  - unfold causes, ws. rewrite length_zip_with, length_reverse. lia.
  - rewrite !actions_of_run, omap_app. f_equal. unfold causes.
    clear Hcallee. generalize (reverse ws). intros l. clear.
    revert draws. induction l as [|w l IH]; intros [|d draws]; simpl; try done.
    by rewrite IH.
Qed.

Lemma listener_object_is_wrapped_by_every_registration_witness :
  let a := {| class := InputElement; t_id := "a"; t_name := ""; tag := "input";
              position := 0 |} in
  let b := {| class := InputElement; t_id := ""; t_name := "b"; tag := "input";
              position := 1 |} in
  let st := {| handleEvent := {[ 7 := Original 0 ]}; registered := [] |} in
  let calls := [ {| g_target := a; g_type := "change"; g_listener := ListenerObject 7 |};
                 {| g_target := b; g_type := "keyup"; g_listener := ListenerObject 7 |} ] in
  fire (wrap_all (Original 0) (wrappers_of 7 calls)) [(1000%Z, "aaa"); (1001%Z, "bbb")]
  = [Scan.HandlerFired "input.addEventListener.keyup" "name=b" 1000 "aaa";
     Scan.HandlerFired "input.addEventListener.change" "id=a" 1001 "bbb"].
Proof.
  intros a b st calls.
  refine (proj1 (proj2
    (listener_object_is_wrapped_by_every_registration st calls 7 0
       [(1000%Z, "aaa"); (1001%Z, "bbb")] [] eq_refl _))).
  vm_compute. lia.
Defined.

End ListenersOfPage.
